(** * iperf-cnc: a shallow embedding of the controller and daemon core

    The development follows the Go packages of the repository:
    [port] (port allocator), [process] (capacity accountant and process
    manager), [collector] (daemon result collector), [models] (nodes,
    profiles, test matrix), [topology] (full-mesh planner, in its two
    variants), [aggregator] (summary statistics) and [server] (daemon RPC
    handlers).  Go's [int] is a 64-bit two's-complement integer and is
    modelled as [Z] with the wrap-around written out; Go maps are finite
    maps ([gmap]); methods that mutate their receiver take the state and
    return the new state. *)

From Stdlib Require Import ZArith Lia Ascii Floats Uint63.
From stdpp Require Import gmap strings pretty list fin_maps sorting.

Local Open Scope Z_scope.

(** ** Go integers *)

Module GoInt.

Definition max_int : Z := 2 ^ 63 - 1.
Definition min_int : Z := - 2 ^ 63.

(** Two's-complement wrap-around of a 64-bit [int]. *)
Definition wrap64 (z : Z) : Z := (z + 2 ^ 63) mod 2 ^ 64 - 2 ^ 63.

(** Two's-complement wrap-around of an [int32]. *)
Definition wrap32 (z : Z) : Z := (z + 2 ^ 31) mod 2 ^ 32 - 2 ^ 31.

Definition add (a b : Z) : Z := wrap64 (a + b).
Definition sub (a b : Z) : Z := wrap64 (a - b).

Definition add32 (a b : Z) : Z := wrap32 (a + b).

(** [len] of a slice and of a map. *)
Definition len {A} (l : list A) : Z := Z.of_nat (length l).
Definition map_len `{Countable K} {A} (m : gmap K A) : Z := Z.of_nat (size m).

End GoInt.

(** The three ways a Go call ends: a value, an [error] value, or a
    run-time panic. *)
Inductive outcome (E A : Type) : Type :=
| Ret (a : A)
| Raise (e : E)
| Panic.
Arguments Ret {E A} a.
Arguments Raise {E A} e.
Arguments Panic {E A}.

(** ** Package [port]: the daemon's port allocator *)

Module Port.

Record Allocator := mkAllocator {
  startPort : Z;
  endPort : Z;
  allocatedPorts : gmap Z bool;
  portToTestID : gmap Z string;
  testIDToPort : gmap string Z
}.

(** The [fmt.Errorf] values of the package, by message. *)
Inductive error :=
| InvalidStartPort (p : Z)
| InvalidEndPort (p : Z)
| StartNotLessThanEnd
| NoAvailablePorts (s e : Z)
| InsufficientPorts (need found : Z)
| NoAllocatedPort (testID : string)
| PortNotAllocated (port : Z).

Definition NewAllocator (startPort endPort : Z) : outcome error Allocator :=
  if bool_decide (startPort < 1 ∨ startPort > 65535) then Raise (InvalidStartPort startPort)
  else if bool_decide (endPort < 1 ∨ endPort > 65535) then Raise (InvalidEndPort endPort)
  else if bool_decide (startPort >= endPort) then Raise StartNotLessThanEnd
  else Ret (mkAllocator startPort endPort ∅ ∅ ∅).

(** [a.allocatedPorts[port]]: a missing key reads as [false]. *)
Definition allocated (m : gmap Z bool) (port : Z) : bool :=
  default false (m !! port).

(** The ports visited by [for port := a.startPort; port <= a.endPort; port++],
    in order.  (The ports of an allocator built by [NewAllocator] are at
    most 65535, so [port++] never wraps.) *)
Definition port_range (a : Allocator) : list Z :=
  seqZ (startPort a) (endPort a - startPort a + 1).

(** The search loop of [AllocatePort]: the first port of the range that
    is not allocated. *)
Fixpoint first_free (m : gmap Z bool) (range : list Z) : option Z :=
  match range with
  | [] => None
  | port :: rest =>
      if negb (allocated m port) then Some port else first_free m rest
  end.

Definition AllocatePort (testID : string) (a : Allocator)
  : outcome error Z * Allocator :=
  match testIDToPort a !! testID with
  | Some port => (Ret port, a)
  | None =>
      match first_free (allocatedPorts a) (port_range a) with
      | Some port =>
          (Ret port,
           mkAllocator (startPort a) (endPort a)
             (<[port := true]> (allocatedPorts a))
             (<[port := testID]> (portToTestID a))
             (<[testID := port]> (testIDToPort a)))
      | None => (Raise (NoAvailablePorts (startPort a) (endPort a)), a)
      end
  end.

(** The first loop of [AllocatePorts]: it stops at the end of the range
    or as soon as [len(ports) < count] fails. *)
Fixpoint collect_free (m : gmap Z bool) (count : Z) (range : list Z)
    (ports : list Z) : list Z :=
  match range with
  | [] => ports
  | port :: rest =>
      if bool_decide (GoInt.len ports < count) then
        if negb (allocated m port)
        then collect_free m count rest (ports ++ [port])
        else collect_free m count rest ports
      else ports
  end.

(** The second loop of [AllocatePorts]. *)
Definition mark_all (m : gmap Z bool) (ports : list Z) : gmap Z bool :=
  foldl (λ acc port, <[port := true]> acc) m ports.

(** The largest capacity [make([]int, 0, count)] accepts: the run-time
    check of [makeslice] rejects a slice whose size in bytes exceeds the
    largest allocation, 2^48 bytes on the 64-bit platforms (an [int] takes
    8 bytes). *)
Definition max_slice_cap : Z := 2 ^ 45.

(** [make([]int, 0, count)] panics on a negative capacity and on a
    capacity beyond [max_slice_cap].  (Running out of memory while the
    slice is created ends the process and is not part of the model.) *)
Definition AllocatePorts (count : Z) (a : Allocator)
  : outcome error (list Z) * Allocator :=
  if bool_decide (count < 0 ∨ count > max_slice_cap) then (Panic, a)
  else
    let ports := collect_free (allocatedPorts a) count (port_range a) [] in
    if bool_decide (GoInt.len ports < count)
    then (Raise (InsufficientPorts count (GoInt.len ports)), a)
    else (Ret ports,
          mkAllocator (startPort a) (endPort a)
            (mark_all (allocatedPorts a) ports)
            (portToTestID a) (testIDToPort a)).

Definition ReleasePort (testID : string) (a : Allocator)
  : outcome error unit * Allocator :=
  match testIDToPort a !! testID with
  | None => (Raise (NoAllocatedPort testID), a)
  | Some port =>
      (Ret tt,
       mkAllocator (startPort a) (endPort a)
         (delete port (allocatedPorts a))
         (delete port (portToTestID a))
         (delete testID (testIDToPort a)))
  end.

(** [testID := a.portToTestID[port]] reads the empty string for a port
    without an entry. *)
Definition ReleasePortByNumber (port : Z) (a : Allocator)
  : outcome error unit * Allocator :=
  if negb (allocated (allocatedPorts a) port)
  then (Raise (PortNotAllocated port), a)
  else
    let testID := default "" (portToTestID a !! port) in
    (Ret tt,
     mkAllocator (startPort a) (endPort a)
       (delete port (allocatedPorts a))
       (delete port (portToTestID a))
       (delete testID (testIDToPort a))).

Definition ReleaseAll (a : Allocator) : Allocator :=
  mkAllocator (startPort a) (endPort a) ∅ ∅ ∅.

Definition GetPortForTest (a : Allocator) (testID : string) : Z * bool :=
  match testIDToPort a !! testID with
  | Some port => (port, true)
  | None => (0, false)
  end.

Definition GetTestForPort (a : Allocator) (port : Z) : string * bool :=
  match portToTestID a !! port with
  | Some testID => (testID, true)
  | None => ("", false)
  end.

Definition IsPortAllocated (a : Allocator) (port : Z) : bool :=
  allocated (allocatedPorts a) port.

Definition GetAllocatedCount (a : Allocator) : Z :=
  GoInt.map_len (allocatedPorts a).

Definition GetAvailableCount (a : Allocator) : Z :=
  let totalPorts := GoInt.add (GoInt.sub (endPort a) (startPort a)) 1 in
  GoInt.sub totalPorts (GoInt.map_len (allocatedPorts a)).

Definition GetCapacity (a : Allocator) : Z :=
  GoInt.add (GoInt.sub (endPort a) (startPort a)) 1.

(** The mutating operations, for sequences of calls. *)
Inductive op :=
| OpAllocatePort (testID : string)
| OpAllocatePorts (count : Z)
| OpReleasePort (testID : string)
| OpReleasePortByNumber (port : Z)
| OpReleaseAll.

(** The state after one call (whatever it returned). *)
Definition step (a : Allocator) (o : op) : Allocator :=
  match o with
  | OpAllocatePort t => snd (AllocatePort t a)
  | OpAllocatePorts c => snd (AllocatePorts c a)
  | OpReleasePort t => snd (ReleasePort t a)
  | OpReleasePortByNumber p => snd (ReleasePortByNumber p a)
  | OpReleaseAll => ReleaseAll a
  end.

Definition run (a : Allocator) (ops : list op) : Allocator :=
  foldl step a ops.


(** *** Vocabulary of the statements about the allocator *)

(** The part of the dual index that every operation maintains: a test-id
    entry points to an allocated port that points back to it, and a port
    entry belongs to an allocated port. *)
Definition index_sound (a : Allocator) : Prop :=
  (forall t p, testIDToPort a !! t = Some p ->
     IsPortAllocated a p = true /\ portToTestID a !! p = Some t) /\
  (forall p t, portToTestID a !! p = Some t -> IsPortAllocated a p = true).

(** The free ports of the range, in increasing order. *)
Definition free_ports (a : Allocator) : list Z :=
  filter (fun p => IsPortAllocated a p = false) (port_range a).

(** A release of test id [t], whose port is [p]: [ReleasePort(t)],
    [ReleasePortByNumber(p)] or [ReleaseAll]. *)
Definition releases (t : string) (p : Z) (o : op) : Prop :=
  match o with
  | OpReleasePort t' => t' = t
  | OpReleasePortByNumber q => q = p
  | OpReleaseAll => True
  | OpAllocatePort _ | OpAllocatePorts _ => False
  end.

(** A release by number of an allocated port that has no test id, or
    whose port entry names the empty test id: [ReleasePortByNumber] reads
    the test id of such a port as the empty string and deletes the
    test-id entry of the empty string. *)
Definition releases_ownerless (a : Allocator) (o : op) : Prop :=
  match o with
  | OpReleasePortByNumber q =>
      IsPortAllocated a q = true /\ default "" (portToTestID a !! q) = ""
  | _ => False
  end.

Fixpoint no_ownerless_release (a : Allocator) (ops : list op) : Prop :=
  match ops with
  | [] => True
  | o :: ops => ~ releases_ownerless a o /\ no_ownerless_release (step a o) ops
  end.

(** The ports that an [AllocatePorts] call of a sequence reserved and that
    no later call of the sequence released: the state after the calls,
    with those ports. *)
Definition reserve_step (st : Allocator * gset Z) (o : op)
  : Allocator * gset Z :=
  (step st.1 o,
   match o with
   | OpAllocatePort _ => st.2
   | OpAllocatePorts c =>
       match (AllocatePorts c st.1).1 with
       | Ret ports => st.2 ∪ list_to_set ports
       | _ => st.2
       end
   | OpReleasePort t =>
       match testIDToPort st.1 !! t with
       | Some p => st.2 ∖ {[p]}
       | None => st.2
       end
   | OpReleasePortByNumber q => st.2 ∖ {[q]}
   | OpReleaseAll => ∅
   end).

Definition bulk_reserved (a : Allocator) (ops : list op) : gset Z :=
  (foldl reserve_step (a, ∅) ops).2.

(** A port entry that names a non-empty test id has the matching test-id
    entry. *)
Definition owner_sound (a : Allocator) : Prop :=
  forall p t, portToTestID a !! p = Some t -> t <> "" ->
    testIDToPort a !! t = Some p.

(** An allocated port that is not among the reserved ports [st.2] has a
    port entry. *)
Definition reserved_sound (st : Allocator * gset Z) : Prop :=
  forall p, IsPortAllocated st.1 p = true -> p ∉ st.2 ->
    is_Some (portToTestID st.1 !! p).

(** Every allocated port has a port entry and the matching test-id
    entry. *)
Definition all_mapped (a : Allocator) : Prop :=
  forall p, IsPortAllocated a p = true ->
    exists t, portToTestID a !! p = Some t /\ testIDToPort a !! t = Some p.

(** *** The remaining methods of the allocator *)

(** The body of the loop of [ReleasePorts]. *)
Definition release_one (a : Allocator) (port : Z) : Allocator :=
  if allocated (allocatedPorts a) port then
    let testID := default "" (portToTestID a !! port) in
    mkAllocator (startPort a) (endPort a)
      (delete port (allocatedPorts a))
      (delete port (portToTestID a))
      (delete testID (testIDToPort a))
  else a.

Definition ReleasePorts (ports : list Z) (a : Allocator) : Allocator :=
  foldl release_one a ports.

(** [GetAllocatedPorts], for the order [keys] in which the [range] over
    [allocatedPorts] yields the keys of the map. *)
Definition GetAllocatedPorts_in (keys : list Z) (a : Allocator) : list Z :=
  foldl (fun ports port => ports ++ [port]) [] keys.

(** The iteration orders a Go run may take over the map. *)
Definition key_order (a : Allocator) (keys : list Z) : Prop :=
  keys ≡ₚ (map_to_list (allocatedPorts a)).*1.

Definition GetAllocatedPorts (a : Allocator) : list Z :=
  GetAllocatedPorts_in (map_to_list (allocatedPorts a)).*1 a.

(** Every entry of [allocatedPorts] holds [true] (no method stores
    [false]) and belongs to a port of the range. *)
Definition marks_sound (a : Allocator) : Prop :=
  forall p b, allocatedPorts a !! p = Some b ->
    b = true /\ startPort a <= p <= endPort a.

End Port.

(** ** Package [process]: the capacity accountant *)

Module Process.

Record CapacityCalculator := mkCapacityCalculator {
  maxProcesses : Z;
  usedSlots : Z
}.

Inductive error :=
| InsufficientCapacity (need available : Z).

Definition NewCapacityCalculator (maxProcesses : Z) : CapacityCalculator :=
  mkCapacityCalculator maxProcesses 0.

Definition ReserveSlots (count : Z) (c : CapacityCalculator)
  : outcome error unit * CapacityCalculator :=
  if bool_decide (GoInt.add (usedSlots c) count > maxProcesses c)
  then (Raise (InsufficientCapacity count
                 (GoInt.sub (maxProcesses c) (usedSlots c))), c)
  else (Ret tt,
        mkCapacityCalculator (maxProcesses c) (GoInt.add (usedSlots c) count)).

Definition ReleaseSlots (count : Z) (c : CapacityCalculator) : CapacityCalculator :=
  let used := GoInt.sub (usedSlots c) count in
  mkCapacityCalculator (maxProcesses c)
    (if bool_decide (used < 0) then 0 else used).

Definition GetAvailableSlots (c : CapacityCalculator) : Z :=
  GoInt.sub (maxProcesses c) (usedSlots c).

Definition GetUsedSlots (c : CapacityCalculator) : Z := usedSlots c.

(** Sequences of calls on the accountant. *)
Inductive op :=
| OpReserveSlots (count : Z)
| OpReleaseSlots (count : Z).

Definition step (c : CapacityCalculator) (o : op) : CapacityCalculator :=
  match o with
  | OpReserveSlots n => snd (ReserveSlots n c)
  | OpReleaseSlots n => ReleaseSlots n c
  end.

Definition run (c : CapacityCalculator) (ops : list op) : CapacityCalculator :=
  foldl step c ops.

(** A call whose count is non-negative and cannot make [usedSlots + count]
    leave the range of [int] while [usedSlots <= max]. *)
Definition counted (max : Z) (o : op) : Prop :=
  match o with
  | OpReserveSlots n => 0 <= n <= GoInt.max_int - max
  | OpReleaseSlots n => 0 <= n <= GoInt.max_int
  end.

End Process.

(** ** Package [collector]: the daemon's result collector *)

Module Collector.

(** [iperf.Result]; instants of [time.Time] are kept as numbers. *)
Record IperfResult := mkIperfResult {
  Success : bool;
  JSONOutput : string;
  IperfExitCode : Z;
  Error : string;
  IperfStartTime : Z;
  IperfEndTime : Z;
  Duration : Z
}.

Record TestResult := mkTestResult {
  TestID : string;
  SourceID : string;
  DestinationID : string;
  Status : string;
  IperfJSON : string;
  ErrorMessage : string;
  StartTime : Z;
  EndTime : Z;
  ExitCode : Z
}.

Record Collector := mkCollector {
  results : gmap string TestResult;
  completed : Z;
  failed : Z;
  resultDir : string
}.

Inductive error :=
| NilResult
| EmptyTestID
| ResultNotFound (testID : string).

Definition NewCollector (resultDir : string) : Collector :=
  mkCollector ∅ 0 0 resultDir.

(** The counter update shared by the store path. *)
Definition count_in (status : string) (c : Collector) : Z * Z :=
  if bool_decide (status = "completed") then (GoInt.add (completed c) 1, failed c)
  else if bool_decide (status = "failed") then (completed c, GoInt.add (failed c) 1)
  else (completed c, failed c).

(** The counter update shared by the clear paths. *)
Definition count_out (status : string) (completed failed : Z) : Z * Z :=
  if bool_decide (status = "completed") then (GoInt.sub completed 1, failed)
  else if bool_decide (status = "failed") then (completed, GoInt.sub failed 1)
  else (completed, failed).

(** [result] is a pointer: [None] is [nil]. *)
Definition StoreResult (result : option TestResult) (c : Collector)
  : outcome error unit * Collector :=
  match result with
  | None => (Raise NilResult, c)
  | Some r =>
      if bool_decide (TestID r = "") then (Raise EmptyTestID, c)
      else
        let '(completed', failed') := count_in (Status r) c in
        (Ret tt,
         mkCollector (<[TestID r := r]> (results c)) completed' failed'
           (resultDir c))
  end.

Definition StoreIperfResult (testID : string) (result : option IperfResult)
    (c : Collector) : outcome error unit * Collector :=
  match result with
  | None => (Raise NilResult, c)
  | Some r =>
      let status := if negb (Success r) then "failed" else "completed" in
      StoreResult
        (Some (mkTestResult testID "" "" status (JSONOutput r) (Error r)
                 (IperfStartTime r) (IperfEndTime r) (IperfExitCode r))) c
  end.

Definition ClearResult (testID : string) (c : Collector)
  : outcome error unit * Collector :=
  match results c !! testID with
  | None => (Raise (ResultNotFound testID), c)
  | Some r =>
      let '(completed', failed') := count_out (Status r) (completed c) (failed c) in
      (Ret tt,
       mkCollector (delete testID (results c)) completed' failed' (resultDir c))
  end.

(** The loop body of [ClearResults]. *)
Definition clear_one (c : Collector) (testID : string) : Collector :=
  match results c !! testID with
  | None => c
  | Some r =>
      let '(completed', failed') := count_out (Status r) (completed c) (failed c) in
      mkCollector (delete testID (results c)) completed' failed' (resultDir c)
  end.

Definition ClearResults (testIDs : list string) (c : Collector) : Collector :=
  foldl clear_one c testIDs.

Definition ClearAll (c : Collector) : Collector :=
  mkCollector ∅ 0 0 (resultDir c).

Definition GetCount (c : Collector) : Z := GoInt.map_len (results c).
Definition GetCompletedCount (c : Collector) : Z := completed c.
Definition GetFailedCount (c : Collector) : Z := failed c.

Definition HasResult (c : Collector) (testID : string) : bool :=
  bool_decide (is_Some (results c !! testID)).

(** Sequences of calls on the collector. *)
Inductive op :=
| OpStoreIperfResult (testID : string) (result : option IperfResult)
| OpClearResult (testID : string)
| OpClearResults (testIDs : list string)
| OpClearAll.

Definition step (c : Collector) (o : op) : Collector :=
  match o with
  | OpStoreIperfResult t r => snd (StoreIperfResult t r c)
  | OpClearResult t => snd (ClearResult t c)
  | OpClearResults ts => ClearResults ts c
  | OpClearAll => ClearAll c
  end.

Definition run (c : Collector) (ops : list op) : Collector :=
  foldl step c ops.

(** *** The remaining methods of the collector *)

Definition GetResult (testID : string) (c : Collector) : outcome error TestResult :=
  match results c !! testID with
  | Some result => Ret result
  | None => Raise (ResultNotFound testID)
  end.

(** [GetAllResults], for the order [values] in which the [range] over
    the result map yields its values. *)
Definition GetAllResults_in (values : list TestResult) (c : Collector)
  : list TestResult :=
  foldl (fun results result => results ++ [result]) [] values.

(** The body of the loop of [GetResults]. *)
Definition get_one (c : Collector) (acc : list TestResult) (testID : string)
  : list TestResult :=
  match results c !! testID with
  | Some result => acc ++ [result]
  | None => acc
  end.

Definition GetResults (testIDs : list string) (c : Collector) : list TestResult :=
  foldl (get_one c) [] testIDs.

(** [GetResultIDs], for the order [keys] in which the [range] yields the
    keys of the result map. *)
Definition GetResultIDs_in (keys : list string) (c : Collector) : list string :=
  foldl (fun ids id => ids ++ [id]) [] keys.

(** The iteration orders a Go run may take over the result map. *)
Definition value_order (c : Collector) (values : list TestResult) : Prop :=
  values ≡ₚ (map_to_list (results c)).*2.

Definition key_order (c : Collector) (keys : list string) : Prop :=
  keys ≡ₚ (map_to_list (results c)).*1.

Definition GetAllResults (c : Collector) : list TestResult :=
  GetAllResults_in (map_to_list (results c)).*2 c.

Definition GetResultIDs (c : Collector) : list string :=
  GetResultIDs_in (map_to_list (results c)).*1 c.

(** Sequences of calls of the mutating methods, [StoreResult] included. *)
Inductive call :=
| CallStoreResult (result : option TestResult)
| CallStoreIperfResult (testID : string) (result : option IperfResult)
| CallClearResult (testID : string)
| CallClearResults (testIDs : list string)
| CallClearAll.

Definition after_call (c : Collector) (k : call) : Collector :=
  match k with
  | CallStoreResult r => snd (StoreResult r c)
  | CallStoreIperfResult t r => snd (StoreIperfResult t r c)
  | CallClearResult t => snd (ClearResult t c)
  | CallClearResults ts => ClearResults ts c
  | CallClearAll => ClearAll c
  end.

Definition after_calls (c : Collector) (ks : list call) : Collector :=
  foldl after_call c ks.

(** *** Vocabulary of the statements about the collector *)

(** The id under which a store call files its result, if it stores one. *)
Definition stored_id (k : call) : option string :=
  match k with
  | CallStoreResult (Some r) => Some (TestID r)
  | CallStoreIperfResult t (Some _) => Some t
  | _ => None
  end.

(** No call of the sequence stores a result under an id that holds one at
    the time of the call. *)
Fixpoint stores_fresh (c : Collector) (ks : list call) : Prop :=
  match ks with
  | [] => True
  | k :: ks =>
      match stored_id k with
      | Some t => results c !! t = None
      | None => True
      end /\ stores_fresh (after_call c k) ks
  end.

(** The number of stored results with a given status. *)
Definition with_status (status : string) (c : Collector) : Z :=
  Z.of_nat (size (filter (fun kv => Status kv.2 = status) (results c))).

(** The counters agree with the stored results, up to wrap-around. *)
Definition counters_agree (c : Collector) : Prop :=
  completed c = GoInt.wrap64 (with_status "completed" c) /\
  failed c = GoInt.wrap64 (with_status "failed" c).

(** Every result is filed under its own, non-empty test id. *)
Definition keyed (c : Collector) : Prop :=
  forall id r, results c !! id = Some r -> TestID r = id /\ id <> "".

End Collector.

(** ** Package [models]: nodes, profiles, the test matrix *)

Module Models.

(** [fmt.Sprintf("%d", n)]: the decimal rendering of an integer. *)
Definition itoa (n : Z) : string := pretty n.

Record ProcessCapacity := mkProcessCapacity {
  MaxProcesses : Z;
  AvailableProcesses : Z;
  CPUCores : Z;
  AvailableMemory : Z;
  NetworkInterfaces : list string
}.

Record Node := mkNode {
  ID : string;
  Hostname : string;
  IP : string;
  Port : Z;
  Capacity : ProcessCapacity;
  Tags : list string
}.

Record NodeRegistry := mkNodeRegistry {
  nodes : gmap string Node;
  nodeList : list Node
}.

Inductive error :=
| EmptyNodeID
| NodeExists (id : string)
| NodeNotFound (id : string).

Definition NewNodeRegistry : NodeRegistry := mkNodeRegistry ∅ [].

Definition AddNode (node : Node) (r : NodeRegistry) : outcome error NodeRegistry :=
  if bool_decide (ID node = "") then Raise EmptyNodeID
  else match nodes r !! ID node with
       | Some _ => Raise (NodeExists (ID node))
       | None => Ret (mkNodeRegistry (<[ID node := node]> (nodes r))
                        (nodeList r ++ [node]))
       end.

Definition GetAllNodes (r : NodeRegistry) : list Node := nodeList r.

Definition Count (r : NodeRegistry) : Z := GoInt.len (nodeList r).

(** The registries a program can hold: built from [NewNodeRegistry] by
    successful [AddNode] calls. *)
Inductive built : NodeRegistry -> Prop :=
| built_new : built NewNodeRegistry
| built_add r node r' : built r -> AddNode node r = Ret r' -> built r'.

(** [type Protocol string] *)
Definition ProtocolTCP : string := "tcp".
Definition ProtocolUDP : string := "udp".

(** [ExtraFlags] is a Go map; a [nil] map and an empty map are both the
    empty map here (ranging over either runs no iteration). *)
Record TestProfile := mkTestProfile {
  Name : string;
  Duration : Z;
  Protocol : string;
  Bandwidth : string;
  WindowSize : string;
  Parallel : Z;
  Bidirectional : bool;
  Reverse : bool;
  BufferLength : Z;
  CongestionControl : string;
  MSS : Z;
  NoDelay : bool;
  TOS : Z;
  ZeroCopy : bool;
  OmitSeconds : Z;
  ExtraFlags : gmap string string
}.

(** [if cond { args = append(args, more...) }] *)
Definition append_if (cond : bool) (args more : list string) : list string :=
  if cond then args ++ more else args.

(** The body of the loop over [ExtraFlags]. *)
Definition append_extra (args : list string) (kv : string * string) : list string :=
  if bool_decide (kv.2 = "") then args ++ [kv.1] else args ++ [kv.1; kv.2].

(** [ToCommandArgs], for the order [extra] in which the [range] over the
    [ExtraFlags] map yields its entries (Go leaves that order unspecified). *)
Definition ToCommandArgs_in (extra : list (string * string)) (p : TestProfile)
  : list string :=
  let args := [] in
  let args := append_if (bool_decide (Protocol p = ProtocolUDP)) args ["-u"] in
  let args := args ++ ["-t"; itoa (Duration p)] in
  let args := append_if (bool_decide (Bandwidth p ≠ "" ∧ Bandwidth p ≠ "0"))
                args ["-b"; Bandwidth p] in
  let args := append_if (bool_decide (WindowSize p ≠ "")) args ["-w"; WindowSize p] in
  let args := append_if (bool_decide (Parallel p > 1)) args ["-P"; itoa (Parallel p)] in
  let args := append_if (Bidirectional p) args ["--bidir"] in
  let args := append_if (Reverse p) args ["-R"] in
  let args := append_if (bool_decide (BufferLength p > 0))
                args ["-l"; itoa (BufferLength p)] in
  let args := append_if
                (bool_decide (Protocol p ≠ ProtocolUDP ∧ CongestionControl p ≠ ""))
                args ["-C"; CongestionControl p] in
  let args := append_if (bool_decide (Protocol p ≠ ProtocolUDP ∧ MSS p > 0))
                args ["-M"; itoa (MSS p)] in
  let args := append_if (bool_decide (Protocol p ≠ ProtocolUDP) && NoDelay p)
                args ["-N"] in
  let args := append_if (bool_decide (TOS p > 0)) args ["-S"; itoa (TOS p)] in
  let args := append_if (ZeroCopy p) args ["-Z"] in
  let args := append_if (bool_decide (OmitSeconds p > 0))
                args ["-O"; itoa (OmitSeconds p)] in
  let args := args ++ ["-J"] in
  foldl append_extra args extra.

(** The iteration orders a Go run may take over the map. *)
Definition extra_order (p : TestProfile) (extra : list (string * string)) : Prop :=
  extra ≡ₚ map_to_list (ExtraFlags p).

(** [ToCommandArgs] at one concrete iteration order. *)
Definition ToCommandArgs (p : TestProfile) : list string :=
  ToCommandArgs_in (map_to_list (ExtraFlags p)) p.

(** *** Vocabulary of the statements about argv *)

Definition tcp_udp_flags : list string := ["-u"; "-C"; "-M"; "-N"].

(** The free-form strings of a profile that reach argv verbatim do not
    themselves spell one of the protocol flags. *)
Definition operands_plain (p : TestProfile) : Prop :=
  (Bandwidth p ∉ tcp_udp_flags) /\ (WindowSize p ∉ tcp_udp_flags) /\
  (forall flag value, ExtraFlags p !! flag = Some value ->
     (flag ∉ tcp_udp_flags) /\ (value ∉ tcp_udp_flags)).

(** *** The remaining methods of nodes and of the node registry *)

Definition GetNode (id : string) (r : NodeRegistry) : outcome error Node :=
  match nodes r !! id with
  | Some node => Ret node
  | None => Raise (NodeNotFound id)
  end.

(** The loop of [HasTag]: it returns at the first tag equal to [tag]. *)
Fixpoint has_tag (tags : list string) (tag : string) : bool :=
  match tags with
  | [] => false
  | t :: rest => if bool_decide (t = tag) then true else has_tag rest tag
  end.

Definition HasTag (n : Node) (tag : string) : bool := has_tag (Tags n) tag.

(** The inner loop of [GetNodesByTag]: it appends the node at the first
    tag equal to [tag] and breaks. *)
Fixpoint tag_loop (node : Node) (tag : string) (tags : list string)
    (result : list Node) : list Node :=
  match tags with
  | [] => result
  | nodeTag :: rest =>
      if bool_decide (nodeTag = tag) then result ++ [node]
      else tag_loop node tag rest result
  end.

Definition GetNodesByTag (tag : string) (r : NodeRegistry) : list Node :=
  foldl (fun result node => tag_loop node tag (Tags node) result) []
    (nodeList r).

(** [fmt.Sprintf("%s:%d", n.IP, n.Port)] *)
Definition Address (n : Node) : string := IP n +:+ ":" +:+ itoa (Port n).

(** A string of decimal digits. *)
Fixpoint all_digits (s : string) : Prop :=
  match s with
  | EmptyString => True
  | String c rest =>
      (exists d, (d < 10)%N /\ c = pretty_N_char d) /\ all_digits rest
  end.

(** [TestProfile.Validate]: [None] is the [nil] error. *)
Inductive profile_invalid :=
| DurationTooSmall
| ParallelTooSmall.

Definition Validate (p : TestProfile) : option profile_invalid :=
  if bool_decide (Duration p < 1) then Some DurationTooSmall
  else if bool_decide (Parallel p < 1) then Some ParallelTooSmall
  else None.

End Models.

(** ** Package [models], continued: the test matrix *)

Module Matrix.
Import Models.

(** [NodePairs] is keyed by a pair of node pointers; the nodes of a
    registry are told apart by their ids, so the key is the pair of ids.
    A profile pointer may be [nil]. *)
Record TestMatrix := mkTestMatrix {
  DefaultProfile : option TestProfile;
  NodePairs : gmap (string * string) (option TestProfile);
  Nodes : NodeRegistry
}.

Record TestAssignment := mkTestAssignment {
  ID : string;
  Source : Node;
  Destination : Node;
  Profile : option TestProfile
}.

Definition GetPairProfile (m : TestMatrix) (source destination : Node)
  : option TestProfile :=
  match NodePairs m !! (Models.ID source, Models.ID destination) with
  | Some profile => profile
  | None => DefaultProfile m
  end.

(** The body of the inner loop of [TestMatrix.GenerateFullMesh]; the state
    is the slice of assignments and the counter [testID].  Reading
    [profile.Bidirectional] through a [nil] profile panics. *)
Definition matrix_dest (m : TestMatrix) (source : Node)
    (st : outcome unit (list TestAssignment * Z)) (dest : Node)
  : outcome unit (list TestAssignment * Z) :=
  match st with
  | Ret (assignments, testID) =>
      if bool_decide (Models.ID source = Models.ID dest) then st
      else
        let profile := GetPairProfile m source dest in
        let testID := GoInt.add testID 1 in
        let assignments :=
          assignments ++
            [mkTestAssignment ("test-" +:+ itoa testID) source dest profile] in
        match profile with
        | None => Panic
        | Some pr =>
            if Bidirectional pr then
              let testID := GoInt.add testID 1 in
              Ret (assignments ++
                     [mkTestAssignment ("test-" +:+ itoa testID) dest source profile],
                   testID)
            else Ret (assignments, testID)
        end
  | _ => st
  end.

Definition GenerateFullMesh (m : TestMatrix) : outcome unit (list TestAssignment) :=
  let nodes := GetAllNodes (Nodes m) in
  match foldl (fun st source => foldl (matrix_dest m source) st nodes)
          (Ret ([], 0)) nodes with
  | Ret (assignments, _) => Ret assignments
  | Raise e => Raise e
  | Panic => Panic
  end.

(** *** The remaining methods of the test matrix *)

Definition NewTestMatrix (defaultProfile : option TestProfile)
    (nodes : NodeRegistry) : TestMatrix :=
  mkTestMatrix defaultProfile ∅ nodes.

Definition SetPairProfile (source destination : Node)
    (profile : option TestProfile) (m : TestMatrix) : TestMatrix :=
  mkTestMatrix (DefaultProfile m)
    (<[(Models.ID source, Models.ID destination) := profile]> (NodePairs m))
    (Nodes m).

Definition CountTests (m : TestMatrix) : outcome unit Z :=
  match GenerateFullMesh m with
  | Ret assignments => Ret (GoInt.len assignments)
  | Raise e => Raise e
  | Panic => Panic
  end.

(** The loop of the two grouping methods:
    [grouped[key] = append(grouped[key], assignment)]. *)
Definition group_by (key : TestAssignment -> string)
    (assignments : list TestAssignment) : gmap string (list TestAssignment) :=
  foldl (fun grouped assignment =>
           <[key assignment :=
               default [] (grouped !! key assignment) ++ [assignment]]> grouped)
    ∅ assignments.

Definition GroupAssignmentsBySource (m : TestMatrix)
  : outcome unit (gmap string (list TestAssignment)) :=
  match GenerateFullMesh m with
  | Ret assignments =>
      Ret (group_by (fun a => Models.ID (Source a)) assignments)
  | Raise e => Raise e
  | Panic => Panic
  end.

Definition GroupAssignmentsByDestination (m : TestMatrix)
  : outcome unit (gmap string (list TestAssignment)) :=
  match GenerateFullMesh m with
  | Ret assignments =>
      Ret (group_by (fun a => Models.ID (Destination a)) assignments)
  | Raise e => Raise e
  | Panic => Panic
  end.

(** *** Vocabulary of the statements about the test matrix *)

(** No profile pointer of the matrix is [nil]. *)
Definition profiles_set (m : TestMatrix) : Prop :=
  is_Some (DefaultProfile m) /\
  forall pair profile, NodePairs m !! pair = Some profile -> is_Some profile.

(** Source, destination and profile of an assignment. *)
Definition assigned (a : TestAssignment)
  : Node * Node * option TestProfile :=
  (Source a, Destination a, Profile a).

(** The tests of one ordered pair of nodes: the pair itself and, for a
    bidirectional profile, the reverse pair with the same profile. *)
Definition pair_tests (m : TestMatrix) (pair : Node * Node)
  : list (Node * Node * option TestProfile) :=
  let profile := GetPairProfile m pair.1 pair.2 in
  (pair.1, pair.2, profile) ::
  match profile with
  | Some pr => if Bidirectional pr then [(pair.2, pair.1, profile)] else []
  | None => []
  end.

(** The ids [test-1], ..., [test-n]. *)
Definition test_ids (n : nat) : list string :=
  (fun i : nat => "test-" +:+ itoa (Z.of_nat i)) <$> seq 1 n.

(** What the assignment loop maintains: the counter is the number of
    assignments and the ids count up from 1. *)
Definition numbered (l : list TestAssignment) (k : Z) : Prop :=
  k = GoInt.wrap64 (Z.of_nat (length l)) /\
  ID <$> l =
    (fun i : nat => "test-" +:+ itoa (GoInt.wrap64 (Z.of_nat i)))
      <$> seq 1 (length l).

End Matrix.


(** ** Generated protobuf messages *)

Module Pb.

(** Modelled from the spec: the generated protobuf package ([api/proto])
    is not among the sources.  The messages below carry the fields that the
    controller and the daemon set and read (spec, sections 4.5 and 6); the
    zero value of each is the value of an empty message. *)
Inductive Protocol := PROTOCOL_TCP | PROTOCOL_UDP.

Record TestProfile := mkTestProfile {
  Name : string;
  DurationSeconds : Z;
  ProfileProtocol : Protocol;
  Bandwidth : string;
  WindowSize : string;
  ParallelStreams : Z;
  Bidirectional : bool;
  Reverse : bool;
  BufferLength : Z;
  CongestionControl : string;
  Mss : Z;
  NoDelay : bool;
  Tos : Z;
  Zerocopy : bool;
  OmitSeconds : Z
}.

Definition empty_profile : TestProfile :=
  mkTestProfile "" 0 PROTOCOL_TCP "" "" 0 false false 0 "" 0 false 0 false 0.

Record TestPair := mkTestPair {
  SourceId : string;
  DestinationId : string;
  DestinationIp : string;
  DestinationPort : Z;
  Profile : TestProfile
}.

Record TestTopology := mkTestTopology {
  ServerAssignments : list TestPair;
  ClientAssignments : list TestPair
}.

(** Modelled from the spec: the result message of the [GetResults] RPC
    (spec, section 4.5) with the fields the daemon sets and the aggregator
    reads.  The handler names two statuses; [String()] of a status is its
    name. *)
Inductive TestStatus :=
| TEST_STATUS_COMPLETED
| TEST_STATUS_FAILED
| TEST_STATUS_OTHER (name : string).

Definition status_name (s : TestStatus) : string :=
  match s with
  | TEST_STATUS_COMPLETED => "TEST_STATUS_COMPLETED"
  | TEST_STATUS_FAILED => "TEST_STATUS_FAILED"
  | TEST_STATUS_OTHER name => name
  end.

Record TestResult := mkTestResult {
  TestId : string;
  ResultSourceId : string;
  ResultDestinationId : string;
  Status : TestStatus;
  IperfJson : string;
  ErrorMessage : string;
  StartTimeUnix : Z;
  EndTimeUnix : Z;
  ExitCode : Z
}.

End Pb.

(** The error monad of a Go function that returns [(value, error)] and may
    panic. *)
Global Instance outcome_bind {E} : MBind (outcome E) := fun A B f m =>
  match m with
  | Ret a => f a
  | Raise e => Raise e
  | Panic => Panic
  end.

(** ** Package [topology]: the full-mesh planner *)

Module Topology.
Import Models.

Record ProfileRegistry := mkProfileRegistry {
  profiles : gmap string TestProfile
}.

Definition GetProfile (r : ProfileRegistry) (name : string) : option TestProfile :=
  profiles r !! name.

Record TestPair := mkTestPair {
  TestID : string;
  Source : Node;
  Destination : Node;
  Profile : option TestProfile
}.

Record Topology := mkTopology {
  Pairs : list TestPair;
  ServerPorts : gmap string (list Z);
  ClientTests : gmap string (list TestPair)
}.

Record Generator := mkGenerator {
  nodes : NodeRegistry;
  registry : ProfileRegistry;
  defaultProfile : option TestProfile;
  overrides : gmap string string
}.

Inductive error :=
| TooFewNodes
| NoPortForSource (source dest : string)
| NoServerPort (node : string)
| NoPortIndex (source dest : string).

Definition NewGenerator (nodes : NodeRegistry) (profiles : ProfileRegistry)
    (defaultProfile : option TestProfile) : Generator :=
  mkGenerator nodes profiles defaultProfile ∅.

Definition AddOverride (sourceID destID profileName : string) (g : Generator)
  : Generator :=
  mkGenerator (nodes g) (registry g) (defaultProfile g)
    (<[sourceID +:+ ":" +:+ destID := profileName]> (overrides g)).

Definition getProfileForPair (g : Generator) (sourceID destID : string)
  : option TestProfile :=
  match overrides g !! (sourceID +:+ ":" +:+ destID) with
  | Some profileName =>
      match GetProfile (registry g) profileName with
      | Some profile => Some profile
      | None => defaultProfile g
      end
  | None => defaultProfile g
  end.

(** The body of the inner loop of the pair enumeration; the state is the
    topology under construction and [testCounter]. *)
Definition mesh_dest (g : Generator) (source : Node) (st : Topology * Z)
    (dest : Node) : Topology * Z :=
  if bool_decide (ID source = ID dest) then st
  else
    let profile := getProfileForPair g (ID source) (ID dest) in
    let testCounter := GoInt.add st.2 1 in
    let testID :=
      "test-" +:+ itoa testCounter +:+ "-" +:+ ID source +:+ "-to-" +:+ ID dest in
    let pair := mkTestPair testID source dest profile in
    (mkTopology (Pairs st.1 ++ [pair]) (ServerPorts st.1)
       (<[ID source := default [] (ClientTests st.1 !! ID source) ++ [pair]]>
          (ClientTests st.1)),
     testCounter).

(** The two nested loops over the nodes of the registry. *)
Definition mesh_pairs (g : Generator) (nodes : list Node) : Topology * Z :=
  foldl (fun st source => foldl (mesh_dest g source) st nodes)
    (mkTopology [] ∅ ∅, 0) nodes.

(** [for i := 0; i < numPorts; i++ { ports[i] = portCounter; portCounter++ }]
    on an [int32] counter. *)
Fixpoint fill_ports (numPorts : nat) (portCounter : Z) : list Z * Z :=
  match numPorts with
  | O => ([], portCounter)
  | S n =>
      let '(ports, portCounter') := fill_ports n (GoInt.add32 portCounter 1) in
      (portCounter :: ports, portCounter')
  end.

(** The body of the port loop: [N-1] fresh ports for one node. *)
Definition mesh_ports (numPorts : Z) (st : Topology * Z) (node : Node)
  : Topology * Z :=
  let '(ports, portCounter) := fill_ports (Z.to_nat numPorts) st.2 in
  (mkTopology (Pairs st.1) (<[ID node := ports]> (ServerPorts st.1))
     (ClientTests st.1),
   portCounter).

Definition GenerateFullMesh (g : Generator) : outcome error Topology :=
  let nodes := GetAllNodes (nodes g) in
  if bool_decide (GoInt.len nodes < 2) then Raise TooFewNodes
  else
    let '(topology, _) := mesh_pairs g nodes in
    let numPorts := GoInt.sub (GoInt.len nodes) 1 in
    Ret (foldl (mesh_ports numPorts) (topology, 5201) nodes).1.

Definition pb_protocol (protocol : string) : Pb.Protocol :=
  if bool_decide (protocol = ProtocolUDP) then Pb.PROTOCOL_UDP else Pb.PROTOCOL_TCP.

(** [int32(x)] truncates. *)
Definition ConvertProfileToProto (profile : option TestProfile) : Pb.TestProfile :=
  match profile with
  | None => Pb.empty_profile
  | Some p =>
      Pb.mkTestProfile (Name p) (GoInt.wrap32 (Duration p))
        (pb_protocol (Protocol p)) (Bandwidth p) (WindowSize p)
        (GoInt.wrap32 (Parallel p)) (Bidirectional p) (Reverse p)
        (GoInt.wrap32 (BufferLength p)) (CongestionControl p)
        (GoInt.wrap32 (MSS p)) (NoDelay p) (GoInt.wrap32 (TOS p)) (ZeroCopy p)
        (GoInt.wrap32 (OmitSeconds p))
  end.

(** The ids of the nodes that occur in some pair. *)
Definition node_ids (topology : Topology) : gset string :=
  foldl (fun ids pair =>
           {[ID (Destination pair)]} ∪ ({[ID (Source pair)]} ∪ ids))
    ∅ (Pairs topology).

(** [sourceNodes]: the sources of the pairs whose destination is [nodeID],
    in pair order. *)
Definition source_nodes (topology : Topology) (nodeID : string) : list string :=
  (fun pair => ID (Source pair)) <$>
    filter (fun pair => ID (Destination pair) = nodeID) (Pairs topology).

(** [for i, sourceID := range sourceNodes { if i < len(ports) {
      sourceToPort[sourceID] = ports[i] } }], from index [i] on. *)
Fixpoint source_to_port (i : nat) (sourceNodes : list string) (ports : list Z)
    (sourceToPort : gmap string Z) : gmap string Z :=
  match sourceNodes with
  | [] => sourceToPort
  | sourceID :: rest =>
      source_to_port (S i) rest ports
        (match ports !! i with
         | Some port => <[sourceID := port]> sourceToPort
         | None => sourceToPort
         end)
  end.

Definition pb_pair (pair : TestPair) (port : Z) : Pb.TestPair :=
  Pb.mkTestPair (ID (Source pair)) (ID (Destination pair)) (IP (Destination pair))
    port (ConvertProfileToProto (Profile pair)).

(** [result[nodeID].ServerAssignments = append(...)]; [result[nodeID]] is a
    pointer, [nil] when the key is missing. *)
Definition add_server (nodeID : string) (a : Pb.TestPair)
    (result : gmap string Pb.TestTopology)
  : outcome error (gmap string Pb.TestTopology) :=
  match result !! nodeID with
  | None => Panic
  | Some nt =>
      Ret (<[nodeID := Pb.mkTestTopology (Pb.ServerAssignments nt ++ [a])
                         (Pb.ClientAssignments nt)]> result)
  end.

Definition add_client (nodeID : string) (a : Pb.TestPair)
    (result : gmap string Pb.TestTopology)
  : outcome error (gmap string Pb.TestTopology) :=
  match result !! nodeID with
  | None => Panic
  | Some nt =>
      Ret (<[nodeID := Pb.mkTestTopology (Pb.ServerAssignments nt)
                         (Pb.ClientAssignments nt ++ [a])]> result)
  end.

(** The body of the loop over the pairs, for one entry of [ServerPorts]. *)
Definition server_pair (nodeID : string) (sourceToPort : gmap string Z)
    (acc : outcome error (gmap string Pb.TestTopology)) (pair : TestPair)
  : outcome error (gmap string Pb.TestTopology) :=
  result ← acc;
  if bool_decide (ID (Destination pair) = nodeID) then
    match sourceToPort !! ID (Source pair) with
    | None => Raise (NoPortForSource (ID (Source pair)) nodeID)
    | Some port => add_server nodeID (pb_pair pair port) result
    end
  else Ret result.

(** The body of the loop over [ServerPorts]. *)
Definition server_entry (topology : Topology)
    (acc : outcome error (gmap string Pb.TestTopology))
    (entry : string * list Z) : outcome error (gmap string Pb.TestTopology) :=
  result ← acc;
  if bool_decide (GoInt.len entry.2 = 0) then Ret result
  else
    let sourceNodes := source_nodes topology entry.1 in
    let sourceToPort := source_to_port 0 sourceNodes entry.2 ∅ in
    foldl (server_pair entry.1 sourceToPort) (Ret result) (Pairs topology).

(** The search for [portIndex]: the first position of [sourceID]. *)
Fixpoint index_of (sourceID : string) (sourceNodes : list string) : option nat :=
  match sourceNodes with
  | [] => None
  | s :: rest =>
      if bool_decide (s = sourceID) then Some O else S <$> index_of sourceID rest
  end.

(** The body of the loop over the pairs of one entry of [ClientTests]. *)
Definition client_pair (topology : Topology) (nodeID : string)
    (acc : outcome error (gmap string Pb.TestTopology)) (pair : TestPair)
  : outcome error (gmap string Pb.TestTopology) :=
  result ← acc;
  let destPorts := default [] (ServerPorts topology !! ID (Destination pair)) in
  if bool_decide (GoInt.len destPorts = 0)
  then Raise (NoServerPort (ID (Destination pair)))
  else
    let sourceNodes := source_nodes topology (ID (Destination pair)) in
    match index_of (ID (Source pair)) sourceNodes with
    | None => Raise (NoPortIndex (ID (Source pair)) (ID (Destination pair)))
    | Some portIndex =>
        match destPorts !! portIndex with
        | None => Raise (NoPortIndex (ID (Source pair)) (ID (Destination pair)))
        | Some port => add_client nodeID (pb_pair pair port) result
        end
    end.

Definition client_entry (topology : Topology)
    (acc : outcome error (gmap string Pb.TestTopology))
    (entry : string * list TestPair)
  : outcome error (gmap string Pb.TestTopology) :=
  foldl (client_pair topology entry.1) acc entry.2.

(** [GenerateNodeTopologies], for the orders [servers] and [clients] in
    which the [range] loops yield the entries of [ServerPorts] and of
    [ClientTests]. *)
Definition GenerateNodeTopologies_in (servers : list (string * list Z))
    (clients : list (string * list TestPair)) (topology : Topology)
  : outcome error (gmap string Pb.TestTopology) :=
  let result := gset_to_gmap (Pb.mkTestTopology [] []) (node_ids topology) in
  foldl (client_entry topology)
    (foldl (server_entry topology) (Ret result) servers) clients.


Definition GenerateNodeTopologies (topology : Topology)
  : outcome error (gmap string Pb.TestTopology) :=
  GenerateNodeTopologies_in (map_to_list (ServerPorts topology))
    (map_to_list (ClientTests topology)) topology.


(** *** Vocabulary of the statements about the planner *)

Definition pair_nodes (pair : TestPair) : Node * Node :=
  (Source pair, Destination pair).

(** The ordered pairs of distinct nodes, sources in registry order and,
    for each source, destinations in registry order. *)
Definition ordered_pairs (ns : list Node) : list (Node * Node) :=
  s ← ns; (fun d => (s, d)) <$> filter (fun d => ID s <> ID d) ns.

(** The port that both sides compute for a pair: the destination's port at
    the position of the source among the destination's sources. *)
Definition pair_port (topology : Topology) (pair : TestPair) : option Z :=
  i ← index_of (ID (Source pair)) (source_nodes topology (ID (Destination pair)));
  default [] (ServerPorts topology !! ID (Destination pair)) !! i.

(** A list that a Go slice can hold: its length is an [int]. *)
Definition is_slice {A} (l : list A) : Prop := GoInt.len l <= GoInt.max_int.


(** *** Vocabulary of the proofs about the planner *)

(** What the enumeration loop maintains: [ClientTests] indexes [Pairs] by
    source, and every pair carries the profile resolved for it. *)
Definition pairs_inv (g : Generator) (t : Topology) : Prop :=
  (forall n, default [] (ClientTests t !! n)
             = filter (fun p => ID (Source p) = n) (Pairs t)) /\
  (forall n l, ClientTests t !! n = Some l -> l <> []) /\
  Forall (fun p => ID (Source p) <> ID (Destination p) /\
            Profile p = getProfileForPair g (ID (Source p)) (ID (Destination p)))
    (Pairs t).

(** The block of [n] consecutive (wrapped) ports from [c]. *)
Definition port_block (c : Z) (n : nat) : list Z :=
  (fun i : nat => GoInt.wrap32 (c + Z.of_nat i)) <$> seq 0 n.






(** The port of a pair, 0 when it has none. *)
Definition the_port (t : Topology) (p : TestPair) : Z :=
  default 0 (pair_port t p).

(** The topology that [GenerateFullMesh] returns for at least two nodes. *)
Definition mesh (g : Generator) : Topology :=
  (foldl (mesh_ports (Z.of_nat (length (GetAllNodes (nodes g)) - 1)))
     ((mesh_pairs g (GetAllNodes (nodes g))).1, GoInt.wrap32 5201)
     (GetAllNodes (nodes g))).1.

(** The block of [N-1] ports of node number [k]. *)
Definition node_block (g : Generator) (k : nat) : list Z :=
  port_block
    (5201 + Z.of_nat k * Z.of_nat (length (GetAllNodes (nodes g)) - 1))
    (length (GetAllNodes (nodes g)) - 1).

(** *** The counting methods of a topology *)

Definition GetTestCount (t : Topology) : Z := GoInt.len (Pairs t).

Definition GetServerCount (t : Topology) : Z := GoInt.map_len (ServerPorts t).

(** [GetClientCount], for the order [tests] in which the [range] over
    [ClientTests] yields its values. *)
Definition GetClientCount_in (tests : list (list TestPair)) (t : Topology) : Z :=
  foldl (fun count tests => GoInt.add count (GoInt.len tests)) 0 tests.

(** The iteration orders a Go run may take over [ClientTests]. *)
Definition client_order (t : Topology) (tests : list (list TestPair)) : Prop :=
  tests ≡ₚ (map_to_list (ClientTests t)).*2.

Definition GetClientCount (t : Topology) : Z :=
  GetClientCount_in (map_to_list (ClientTests t)).*2 t.

(** *** Vocabulary of the statements about test ids *)

(** The test id that the enumeration gives the pair number [i] (from 0):
    [fmt.Sprintf("test-%d-%s-to-%s", i+1, source.ID, dest.ID)]. *)
Definition mesh_test_id (i : nat) (p : TestPair) : string :=
  "test-" +:+ itoa (GoInt.wrap64 (Z.of_nat (S i))) +:+ "-" +:+
  ID (Source p) +:+ "-to-" +:+ ID (Destination p).

(** What the enumeration loop maintains about the counter and the ids. *)
Definition ids_inv (st : Topology * Z) : Prop :=
  st.2 = GoInt.wrap64 (Z.of_nat (length (Pairs st.1))) /\
  forall i p, Pairs st.1 !! i = Some p -> TestID p = mesh_test_id i p.

(** A node id without a colon (the separator of the override keys). *)
Fixpoint no_colon (s : string) : Prop :=
  match s with
  | EmptyString => True
  | String c rest => c <> ":"%char /\ no_colon rest
  end.

End Topology.

(** ** Package [topology], single-port variant

    A second copy of the generator allocates one server port per node.  Its
    pair enumeration is the same text as above; only the port loop
    differs. *)

Module TopologySinglePort.
Import Models.

(** The body of the port loop: [topology.ServerPorts[node.ID] =
    []int32{portCounter}; portCounter++]. *)
Definition mesh_ports (st : Topology.Topology * Z) (node : Node)
  : Topology.Topology * Z :=
  (Topology.mkTopology (Topology.Pairs st.1)
     (<[ID node := [st.2]]> (Topology.ServerPorts st.1))
     (Topology.ClientTests st.1),
   GoInt.add32 st.2 1).

Definition GenerateFullMesh (g : Topology.Generator)
  : outcome Topology.error Topology.Topology :=
  let nodes := GetAllNodes (Topology.nodes g) in
  if bool_decide (GoInt.len nodes < 2) then Raise Topology.TooFewNodes
  else
    let '(topology, _) := Topology.mesh_pairs g nodes in
    Ret (foldl mesh_ports (topology, 5201) nodes).1.

End TopologySinglePort.

(** ** The three-node scenario (E1) *)

Module Scenario.
Import Models.

Definition no_capacity : ProcessCapacity := mkProcessCapacity 0 0 0 0 [].

Definition node_a : Node := mkNode "a" "a" "10.0.0.1" 50051 no_capacity [].
Definition node_b : Node := mkNode "b" "b" "10.0.0.2" 50051 no_capacity [].
Definition node_c : Node := mkNode "c" "c" "10.0.0.3" 50051 no_capacity [].

Definition registry1 : NodeRegistry :=
  mkNodeRegistry (<["a" := node_a]> ∅) [node_a].

Definition registry2 : NodeRegistry :=
  mkNodeRegistry (<["b" := node_b]> (<["a" := node_a]> ∅)) [node_a; node_b].

Definition registry3 : NodeRegistry :=
  mkNodeRegistry (<["c" := node_c]> (<["b" := node_b]> (<["a" := node_a]> ∅)))
    [node_a; node_b; node_c].

(** [default{duration:5, protocol:tcp, parallel:1}] *)
Definition default_profile : TestProfile :=
  mkTestProfile "default" 5 ProtocolTCP "" "" 1 false false 0 "" 0 false 0 false 0 ∅.

(** The same profile with [bidirectional: true]. *)
Definition bidir_profile : TestProfile :=
  mkTestProfile "bidir" 5 ProtocolTCP "" "" 1 true false 0 "" 0 false 0 false 0 ∅.

Definition generator3 : Topology.Generator :=
  Topology.NewGenerator registry3 (Topology.mkProfileRegistry ∅) (Some default_profile).

Definition matrix2 : Matrix.TestMatrix :=
  Matrix.mkTestMatrix (Some bidir_profile) ∅ registry2.

End Scenario.

(** ** Package [aggregator]: summary statistics on the controller

    [float64] is the kernel's binary64 float; [float64(n)] of a
    non-negative [int] is [of_uint63]. *)

Module Aggregator.

Definition float_of_int (n : Z) : float := PrimFloat.of_uint63 (Uint63.of_Z n).

(** The parsed JSON document [IperfData] plays no part in the summary and
    is left out. *)
Record TestResult := mkTestResult {
  TestID : string;
  SourceNode : string;
  DestNode : string;
  Status : string;
  StartTime : Z;
  EndTime : Z;
  Duration : Z;
  ErrorMessage : string;
  ThroughputBps : float;
  Retransmits : Z
}.

Record Summary := mkSummary {
  TotalTests : Z;
  CompletedTests : Z;
  FailedTests : Z;
  AvgThroughput : float;
  MinThroughput : float;
  MaxThroughput : float;
  TotalRetransmits : Z
}.

Record Aggregator := mkAggregator {
  results : gmap string TestResult
}.

Definition NewAggregator : Aggregator := mkAggregator ∅.

Definition addResult (result : TestResult) (a : Aggregator) : Aggregator :=
  mkAggregator (<[TestID result := result]> (results a)).

Definition GetResultCount (a : Aggregator) : Z := GoInt.map_len (results a).

(** The body of the loop of [GetSummary]; the state is the summary and
    [totalThroughput]. *)
Definition summary_step (st : Summary * float) (result : TestResult)
  : Summary * float :=
  let '(summary, totalThroughput) := st in
  if bool_decide (Status result = "TEST_STATUS_COMPLETED") then
    let completed := GoInt.add (CompletedTests summary) 1 in
    let throughput := ThroughputBps result in
    let '(total, min, max) :=
      if PrimFloat.ltb 0 throughput then
        (PrimFloat.add totalThroughput throughput,
         (if PrimFloat.ltb (MinThroughput summary) 0
             || PrimFloat.ltb throughput (MinThroughput summary)
          then throughput else MinThroughput summary),
         (if PrimFloat.ltb (MaxThroughput summary) throughput
          then throughput else MaxThroughput summary))
      else (totalThroughput, MinThroughput summary, MaxThroughput summary) in
    (mkSummary (TotalTests summary) completed (FailedTests summary)
       (AvgThroughput summary) min max
       (GoInt.add (TotalRetransmits summary) (Retransmits result)),
     total)
  else if bool_decide (Status result = "TEST_STATUS_FAILED") then
    (mkSummary (TotalTests summary) (CompletedTests summary)
       (GoInt.add (FailedTests summary) 1)
       (AvgThroughput summary) (MinThroughput summary) (MaxThroughput summary)
       (TotalRetransmits summary),
     totalThroughput)
  else st.

(** [GetSummary], for the order in which the [range] over the result map
    yields its values. *)
Definition GetSummary_in (order : list TestResult) (a : Aggregator) : Summary :=
  let summary :=
    mkSummary (GoInt.map_len (results a)) 0 0 0%float (-1)%float 0%float 0 in
  let '(summary, totalThroughput) := foldl summary_step (summary, 0%float) order in
  let avg :=
    if bool_decide (CompletedTests summary > 0)
    then PrimFloat.div totalThroughput (float_of_int (CompletedTests summary))
    else AvgThroughput summary in
  let min :=
    if PrimFloat.ltb (MinThroughput summary) 0 then 0%float
    else MinThroughput summary in
  mkSummary (TotalTests summary) (CompletedTests summary) (FailedTests summary)
    avg min (MaxThroughput summary) (TotalRetransmits summary).

(** The iteration orders a Go run may take over the map. *)
Definition result_order (a : Aggregator) (order : list TestResult) : Prop :=
  order ≡ₚ (map_to_list (results a)).*2.

Definition GetSummary (a : Aggregator) : Summary :=
  GetSummary_in (map_to_list (results a)).*2 a.

(** *** Vocabulary of the statements about the summary *)

Definition completed (l : list TestResult) : list TestResult :=
  filter (fun r => Status r = "TEST_STATUS_COMPLETED") l.

Definition with_throughput (l : list TestResult) : list TestResult :=
  filter (fun r => PrimFloat.ltb 0 (ThroughputBps r) = true) l.

(** The sum of the throughputs of [l], added from left to right. *)
Definition throughput_sum (l : list TestResult) : float :=
  foldl PrimFloat.add 0%float (ThroughputBps <$> l).

(** The arithmetic mean of the throughputs of [l], and 0 for no results. *)
Definition throughput_mean (l : list TestResult) : float :=
  if bool_decide (GoInt.len l > 0)
  then PrimFloat.div (throughput_sum l) (float_of_int (GoInt.len l))
  else 0%float.

(** *** Vocabulary of the statements about the counts of the summary *)

Definition failed (l : list TestResult) : list TestResult :=
  filter (fun r => Status r = "TEST_STATUS_FAILED") l.

(** The sum of the retransmits of [l], as an unbounded integer. *)
Definition retransmit_sum (l : list TestResult) : Z :=
  foldr (fun r acc => Retransmits r + acc) 0 l.

(** The results of the aggregator, in one fixed order. *)
Definition collected (a : Aggregator) : list TestResult :=
  (map_to_list (results a)).*2.

End Aggregator.

(** ** Package [server]: the daemon's StartServers and StartClients handlers *)

Module Server.

(** Modelled from the spec: the request and response messages of the two
    RPCs belong to the generated protobuf package, which is not among the
    sources; they carry the fields of spec section 4.5 that the handlers
    read and set.  [iperf.Config] is the configuration record that
    [convertProfileToIperfConfig] fills. *)
Record StartServersRequest := mkStartServersRequest {
  Ports : list Z;
  TimeoutSeconds : Z
}.

Record StartServersResponse := mkStartServersResponse {
  ServersSuccess : bool;
  ServersMessage : string;
  StartedPorts : list Z;
  ServersErrors : list string
}.

Record ClientTarget := mkClientTarget {
  TestId : string;
  DestinationIp : string;
  DestinationPort : Z;
  Profile : option Pb.TestProfile
}.

Record StartClientsRequest := mkStartClientsRequest {
  Targets : list ClientTarget
}.

Record StartClientsResponse := mkStartClientsResponse {
  ClientsSuccess : bool;
  ClientsMessage : string;
  StartedTestIds : list string;
  ClientsErrors : list string
}.

Record IperfConfig := mkIperfConfig {
  Protocol : string;
  Duration : Z;
  Bandwidth : string;
  WindowSize : string;
  Parallel : Z;
  Bidirectional : bool;
  Reverse : bool;
  BufferLength : Z;
  CongestionControl : string;
  MSS : Z;
  NoDelay : bool;
  TOS : Z;
  ZeroCopy : bool;
  OmitSeconds : Z
}.

Definition convertProfileToIperfConfig (profile : option Pb.TestProfile)
  : IperfConfig :=
  match profile with
  | None => mkIperfConfig "" 0 "" "" 0 false false 0 "" 0 false 0 false 0
  | Some p =>
      mkIperfConfig
        (match Pb.ProfileProtocol p with
         | Pb.PROTOCOL_UDP => "udp"
         | Pb.PROTOCOL_TCP => "tcp"
         end)
        (Pb.DurationSeconds p) (Pb.Bandwidth p) (Pb.WindowSize p)
        (Pb.ParallelStreams p) (Pb.Bidirectional p) (Pb.Reverse p)
        (Pb.BufferLength p) (Pb.CongestionControl p) (Pb.Mss p) (Pb.NoDelay p)
        (Pb.Tos p) (Pb.Zerocopy p) (Pb.OmitSeconds p)
  end.

Section Handlers.

(** The process manager of the daemon together with all it drives (slots,
    subprocesses, the operating system).  Its two methods are parameters:
    each call returns [nil] ([None]) or an error, and may change the state
    in any way. *)
Context {Manager : Type}.
Variable StartServer : Z -> Manager -> option string * Manager.
Variable StartClient :
  string -> string -> Z -> IperfConfig -> Manager -> option string * Manager.

(** The body of the loop of [StartServers]; the state is [startedPorts],
    [errors] and the manager. *)
Definition start_server (st : list Z * list string * Manager) (port : Z)
  : list Z * list string * Manager :=
  let '(startedPorts, errors, m) := st in
  match StartServer port m with
  | (Some err, m') =>
      (startedPorts, errors ++ ["port " +:+ Models.itoa port +:+ ": " +:+ err], m')
  | (None, m') => (startedPorts ++ [port], errors, m')
  end.

Definition StartServers (req : StartServersRequest) (m : Manager)
  : StartServersResponse * Manager :=
  if bool_decide (GoInt.len (Ports req) = 0)
  then (mkStartServersResponse false "no ports specified" [] [], m)
  else
    let '(startedPorts, errors, m') := foldl start_server ([], [], m) (Ports req) in
    (mkStartServersResponse
       (bool_decide (GoInt.len startedPorts > 0))
       ("started " +:+ Models.itoa (GoInt.len startedPorts) +:+ "/" +:+
        Models.itoa (GoInt.len (Ports req)) +:+ " servers")
       startedPorts errors,
     m').

(** The body of the loop of [StartClients]. *)
Definition start_client (st : list string * list string * Manager)
    (target : ClientTarget) : list string * list string * Manager :=
  let '(startedTestIDs, errors, m) := st in
  let config := convertProfileToIperfConfig (Profile target) in
  match StartClient (TestId target) (DestinationIp target)
          (DestinationPort target) config m with
  | (Some err, m') =>
      (startedTestIDs, errors ++ ["test " +:+ TestId target +:+ ": " +:+ err], m')
  | (None, m') => (startedTestIDs ++ [TestId target], errors, m')
  end.

Definition StartClients (req : StartClientsRequest) (m : Manager)
  : StartClientsResponse * Manager :=
  if bool_decide (GoInt.len (Targets req) = 0)
  then (mkStartClientsResponse false "no targets specified" [] [], m)
  else
    let '(startedTestIDs, errors, m') :=
      foldl start_client ([], [], m) (Targets req) in
    (mkStartClientsResponse
       (bool_decide (GoInt.len startedTestIDs > 0))
       ("started " +:+ Models.itoa (GoInt.len startedTestIDs) +:+ "/" +:+
        Models.itoa (GoInt.len (Targets req)) +:+ " clients")
       startedTestIDs errors,
     m').

(** *** Vocabulary of the statements about the handlers *)

(** What became of each port of a request: the error of its
    [StartServer] call, in request order. *)
Fixpoint server_calls (ports : list Z) (m : Manager) : list (Z * option string) :=
  match ports with
  | [] => []
  | port :: rest =>
      (port, (StartServer port m).1) :: server_calls rest (StartServer port m).2
  end.

(** What became of each target of a request. *)
Fixpoint client_calls (targets : list ClientTarget) (m : Manager)
  : list (ClientTarget * option string) :=
  match targets with
  | [] => []
  | target :: rest =>
      let r := StartClient (TestId target) (DestinationIp target)
                 (DestinationPort target)
                 (convertProfileToIperfConfig (Profile target)) m in
      (target, r.1) :: client_calls rest r.2
  end.

End Handlers.

(** The item of a call that started, and the error line of one that did
    not. *)
Definition started {A} (call : A * option string) : option A :=
  match call.2 with None => Some call.1 | Some _ => None end.

Definition port_error (call : Z * option string) : option string :=
  (fun err => "port " +:+ Models.itoa call.1 +:+ ": " +:+ err) <$> call.2.

Definition target_error (call : ClientTarget * option string) : option string :=
  (fun err => "test " +:+ TestId call.1 +:+ ": " +:+ err) <$> call.2.

(** *** Vocabulary of the statements about profile conversion *)

(** The integer settings of a profile fit the [int32] fields of the
    protobuf message. *)
Definition fits_int32 (z : Z) : Prop := - 2 ^ 31 <= z < 2 ^ 31.

Definition profile_fits (p : Models.TestProfile) : Prop :=
  fits_int32 (Models.Duration p) /\ fits_int32 (Models.Parallel p) /\
  fits_int32 (Models.BufferLength p) /\ fits_int32 (Models.MSS p) /\
  fits_int32 (Models.TOS p) /\ fits_int32 (Models.OmitSeconds p).

(** The daemon-side configuration with the settings of a profile. *)
Definition config_of (p : Models.TestProfile) : IperfConfig :=
  mkIperfConfig
    (if bool_decide (Models.Protocol p = Models.ProtocolUDP) then "udp" else "tcp")
    (Models.Duration p) (Models.Bandwidth p) (Models.WindowSize p)
    (Models.Parallel p) (Models.Bidirectional p) (Models.Reverse p)
    (Models.BufferLength p) (Models.CongestionControl p) (Models.MSS p)
    (Models.NoDelay p) (Models.TOS p) (Models.ZeroCopy p)
    (Models.OmitSeconds p).

(** *** The [GetResults] handler *)

(** Modelled from the spec: the request and response messages of the
    [GetResults] RPC (spec, section 4.5). *)
Record GetResultsRequest := mkGetResultsRequest {
  TestIds : list string;
  ClearAfterRetrieval : bool
}.

Record GetResultsResponse := mkGetResultsResponse {
  Results : list Pb.TestResult;
  TotalCount : Z
}.

(** The message built for one stored result; [int32(result.ExitCode)]
    truncates. *)
Definition pb_result (result : Collector.TestResult) : Pb.TestResult :=
  Pb.mkTestResult (Collector.TestID result) (Collector.SourceID result)
    (Collector.DestinationID result)
    (if bool_decide (Collector.Status result = "failed")
     then Pb.TEST_STATUS_FAILED else Pb.TEST_STATUS_COMPLETED)
    (Collector.IperfJSON result) (Collector.ErrorMessage result)
    (Collector.StartTime result) (Collector.EndTime result)
    (GoInt.wrap32 (Collector.ExitCode result)).

(** [GetResults] on the daemon's collector, for the order [values] in
    which [GetAllResults] ranges over the result map. *)
Definition GetResults_in (values : list Collector.TestResult)
    (req : GetResultsRequest) (c : Collector.Collector)
  : GetResultsResponse * Collector.Collector :=
  let results :=
    if bool_decide (GoInt.len (TestIds req) = 0)
    then Collector.GetAllResults_in values c
    else Collector.GetResults (TestIds req) c in
  let pbResults :=
    foldl (fun pbResults result => pbResults ++ [pb_result result]) [] results in
  let c' := if ClearAfterRetrieval req then Collector.ClearAll c else c in
  (mkGetResultsResponse pbResults (GoInt.wrap32 (GoInt.len pbResults)), c').

(** *** Construction of the daemon server *)

(** [server.Config] *)
Record Config := mkConfig {
  ListenPort : Z;
  PortRangeStart : Z;
  PortRangeEnd : Z;
  MaxProcesses : Z;
  CPUAffinity : bool;
  LogLevel : string;
  ResultDir : string;
  IperfPath : string
}.

(** The components of a [DaemonServer] that [NewDaemonServer] creates from
    its configuration (the process manager is handed the same allocator,
    accountant and collector). *)
Record DaemonServer := mkDaemonServer {
  portAllocator : Port.Allocator;
  capacity : Process.CapacityCalculator;
  collector : Collector.Collector;
  iperfPath : string;
  config : Config
}.

Inductive new_error :=
| NilConfig
| AllocatorError (e : Port.error).

Definition NewDaemonServer (config : option Config)
  : outcome new_error DaemonServer :=
  match config with
  | None => Raise NilConfig
  | Some cfg =>
      match Port.NewAllocator (PortRangeStart cfg) (PortRangeEnd cfg) with
      | Ret portAllocator =>
          let capacityCalc := Process.NewCapacityCalculator (MaxProcesses cfg) in
          let resultCollector := Collector.NewCollector (ResultDir cfg) in
          let iperfPath :=
            if bool_decide (IperfPath cfg = "") then "iperf3" else IperfPath cfg in
          Ret (mkDaemonServer portAllocator capacityCalc resultCollector
                 iperfPath cfg)
      | Raise e => Raise (AllocatorError e)
      | Panic => Panic
      end
  end.

End Server.

(** ** Package [orchestrator]: the client targets of the start phase *)

Module Orchestrator.
Import Models Topology.

(** The body of the inner loop of [startClientsPhase]: a pair whose
    destination has no server port is skipped, every other pair becomes a
    target on [destPorts[0]]. *)
Definition add_target (topology : Topology) (targets : list Server.ClientTarget)
    (pair : TestPair) : list Server.ClientTarget :=
  match default [] (ServerPorts topology !! ID (Destination pair)) with
  | [] => targets
  | port :: _ =>
      targets ++
        [Server.mkClientTarget (TestID pair) (IP (Destination pair)) port
           (Some (ConvertProfileToProto (Profile pair)))]
  end.

(** The targets sent to one node, for its list [testPairs] of client
    tests. *)
Definition client_targets (topology : Topology) (testPairs : list TestPair)
  : list Server.ClientTarget :=
  foldl (add_target topology) [] testPairs.

(** The targets that [startClientsPhase] builds for node [nodeID]: none
    when the node has no client tests. *)
Definition node_targets (topology : Topology) (nodeID : string)
  : list Server.ClientTarget :=
  client_targets topology (default [] (ClientTests topology !! nodeID)).

(** [maxDuration] of [waitPhase]: 10 or the longest duration of a pair;
    reading the duration through a [nil] profile panics. *)
Definition wait_step (acc : outcome unit Z) (pair : TestPair) : outcome unit Z :=
  match acc with
  | Ret maxDuration =>
      match Profile pair with
      | None => Panic
      | Some profile =>
          if bool_decide (Duration profile > maxDuration)
          then Ret (Duration profile) else Ret maxDuration
      end
  | _ => acc
  end.

(** [time.Second]: a [time.Duration] counts nanoseconds in an [int64]. *)
Definition Second : Z := 1000000000.

(** [waitTime] of [waitPhase], in nanoseconds:
    [time.Duration(maxDuration+10) * time.Second], where the sum is an
    [int] and the product an [int64], each with its wrap-around. *)
Definition wait_time (topology : Topology) : outcome unit Z :=
  match foldl wait_step (Ret 10) (Pairs topology) with
  | Ret maxDuration =>
      Ret (GoInt.wrap64 (GoInt.add maxDuration 10 * Second))
  | other => other
  end.

(** The nanoseconds [time.Sleep(d)] pauses for at least: a negative or
    zero duration returns at once. *)
Definition Sleep (d : Z) : Z := Z.max 0 d.

End Orchestrator.

(** ** Package [config]: the daemon and controller configuration files *)

Module Config.

Record PortRange := mkPortRange {
  Start : Z;
  End_ : Z
}.

Record TimeoutConfig := mkTimeoutConfig {
  ProcessStart : Z;
  ProcessStop : Z;
  TestExecution : Z
}.

Record DaemonSettings := mkDaemonSettings {
  ListenPort : Z;
  Range : PortRange;
  MaxProcesses : Z;
  CPUAffinity : bool;
  LogLevel : string;
  ResultDir : string;
  Timeouts : TimeoutConfig
}.

Record DaemonConfig := mkDaemonConfig {
  Daemon : DaemonSettings
}.

(** The [fmt.Errorf] values of the two [Validate] methods, by message. *)
Inductive error :=
| ListenPortOutOfRange
| RangeStartOutOfRange
| RangeEndOutOfRange
| RangeStartNotBelowEnd
| MaxProcessesTooSmall
| LogLevelUnknown
| ResultDirEmpty
| TooFewNodes
| NodeHostnameEmpty (i : Z)
| NodeIPEmpty (i : Z)
| NodePortOutOfRange (i : Z)
| DuplicateNodeID (id : string)
| NoTestProfile
| ProfileDurationTooSmall (name : string)
| ProfileParallelTooSmall (name : string)
| TopologyTypeEmpty
| TopologyTypeUnknown
| DefaultProfileEmpty
| DefaultProfileNotFound (name : string)
| JSONFileEmpty.

Definition validLogLevels : gmap string bool :=
  <["debug" := true]> (<["info" := true]> (<["warn" := true]>
    (<["error" := true]> ∅))).

(** [DaemonConfig.Validate]: [None] is the [nil] error. *)
Definition ValidateDaemon (c : DaemonConfig) : option error :=
  let d := Daemon c in
  if bool_decide (ListenPort d < 1 ∨ ListenPort d > 65535)
  then Some ListenPortOutOfRange
  else if bool_decide (Start (Range d) < 1 ∨ Start (Range d) > 65535)
  then Some RangeStartOutOfRange
  else if bool_decide (End_ (Range d) < 1 ∨ End_ (Range d) > 65535)
  then Some RangeEndOutOfRange
  else if bool_decide (Start (Range d) >= End_ (Range d))
  then Some RangeStartNotBelowEnd
  else if bool_decide (MaxProcesses d < 1) then Some MaxProcessesTooSmall
  else if negb (default false (validLogLevels !! LogLevel d))
  then Some LogLevelUnknown
  else if bool_decide (ResultDir d = "") then Some ResultDirEmpty
  else None.

(** [if x == 0 { x = d }] *)
Definition or_default (x d : Z) : Z := if bool_decide (x = 0) then d else x.

Definition or_default_string (x d : string) : string :=
  if bool_decide (x = "") then d else x.

Definition SetDefaultsDaemon (c : DaemonConfig) : DaemonConfig :=
  let d := Daemon c in
  mkDaemonConfig
    (mkDaemonSettings
       (or_default (ListenPort d) 50051)
       (mkPortRange (or_default (Start (Range d)) 5201)
          (or_default (End_ (Range d)) 5400))
       (or_default (MaxProcesses d) 200)
       (CPUAffinity d)
       (or_default_string (LogLevel d) "info")
       (or_default_string (ResultDir d) "./results")
       (mkTimeoutConfig
          (or_default (ProcessStart (Timeouts d)) 30)
          (or_default (ProcessStop (Timeouts d)) 10)
          (or_default (TestExecution (Timeouts d)) 300))).

(** *** The controller configuration *)

Record NodeConfig := mkNodeConfig {
  Hostname : string;
  IP : string;
  Port : Z;
  ID : string;
  Tags : list string
}.

Record TestProfile := mkTestProfile {
  Duration : Z;
  Protocol : string;
  Bandwidth : string;
  WindowSize : string;
  Parallel : Z;
  Bidirectional : bool;
  Reverse : bool;
  BufferLength : Z;
  CongestionControl : string;
  MSS : Z;
  NoDelay : bool;
  TOS : Z;
  ZeroCopy : bool;
  OmitSeconds : Z;
  ExtraFlags : gmap string string
}.

Record TopologyOverride := mkTopologyOverride {
  SourceNodes : list string;
  DestinationNodes : list string;
  OverrideNodes : list string;
  Profile : string
}.

Record TopologyConfig := mkTopologyConfig {
  TopologyType : string;
  DefaultProfile : string;
  Overrides : list TopologyOverride
}.

Record OutputConfig := mkOutputConfig {
  JSONFile : string;
  CSVFile : string;
  SchemaFile : string;
  Compress : bool
}.

Record ConcurrencyConfig := mkConcurrencyConfig {
  MaxConcurrentNodes : Z;
  MaxConcurrentTests : Z;
  ClientStartBatchSize : Z;
  ConnectionTimeout : Z;
  RPCTimeout : Z
}.

Record ControllerSettings := mkControllerSettings {
  Nodes : list NodeConfig;
  TestProfiles : gmap string TestProfile;
  Topology : TopologyConfig;
  Output : OutputConfig;
  Concurrency : ConcurrencyConfig
}.

Record ControllerConfig := mkControllerConfig {
  Controller : ControllerSettings
}.

(** The id that the node loop of [Validate] checks for duplicates. *)
Definition node_id (node : NodeConfig) : string :=
  if bool_decide (ID node = "") then Hostname node else ID node.

(** The node loop of [Validate], from index [i] with the ids [nodeIDs]
    seen so far; it returns at the first error. *)
Fixpoint validate_nodes (i : Z) (nodeIDs : gmap string bool)
    (nodes : list NodeConfig) : option error :=
  match nodes with
  | [] => None
  | node :: rest =>
      if bool_decide (Hostname node = "") then Some (NodeHostnameEmpty i)
      else if bool_decide (IP node = "") then Some (NodeIPEmpty i)
      else if bool_decide (Port node < 1 ∨ Port node > 65535)
      then Some (NodePortOutOfRange i)
      else
        let id := node_id node in
        if default false (nodeIDs !! id) then Some (DuplicateNodeID id)
        else validate_nodes (GoInt.add i 1) (<[id := true]> nodeIDs) rest
  end.

Definition validateTestProfile (name : string) (profile : TestProfile)
  : option error :=
  if bool_decide (Duration profile < 1) then Some (ProfileDurationTooSmall name)
  else if bool_decide (Parallel profile < 1)
  then Some (ProfileParallelTooSmall name)
  else None.

(** The profile loop of [Validate]: it returns at the first error. *)
Fixpoint validate_profiles (profiles : list (string * TestProfile))
  : option error :=
  match profiles with
  | [] => None
  | (name, profile) :: rest =>
      match validateTestProfile name profile with
      | Some err => Some err
      | None => validate_profiles rest
      end
  end.

Definition validTopologyTypes : gmap string bool :=
  <["full_mesh" := true]> (<["custom" := true]> ∅).

(** [ControllerConfig.Validate], for the order [profiles] in which the
    [range] over [TestProfiles] yields its entries. *)
Definition ValidateController_in (profiles : list (string * TestProfile))
    (c : ControllerConfig) : option error :=
  let s := Controller c in
  if bool_decide (GoInt.len (Nodes s) < 2) then Some TooFewNodes
  else match validate_nodes 0 ∅ (Nodes s) with
  | Some err => Some err
  | None =>
  if bool_decide (GoInt.map_len (TestProfiles s) = 0) then Some NoTestProfile
  else match validate_profiles profiles with
  | Some err => Some err
  | None =>
  if bool_decide (TopologyType (Topology s) = "") then Some TopologyTypeEmpty
  else if negb (default false (validTopologyTypes !! TopologyType (Topology s)))
  then Some TopologyTypeUnknown
  else if bool_decide (DefaultProfile (Topology s) = "")
  then Some DefaultProfileEmpty
  else match TestProfiles s !! DefaultProfile (Topology s) with
  | None => Some (DefaultProfileNotFound (DefaultProfile (Topology s)))
  | Some _ =>
  if bool_decide (JSONFile (Output s) = "") then Some JSONFileEmpty else None
  end end end.

(** The iteration orders a Go run may take over [TestProfiles]. *)
Definition profile_order (c : ControllerConfig)
    (profiles : list (string * TestProfile)) : Prop :=
  profiles ≡ₚ map_to_list (TestProfiles (Controller c)).

Definition ValidateController (c : ControllerConfig) : option error :=
  ValidateController_in (map_to_list (TestProfiles (Controller c))) c.

(** The body of the node loop of [SetDefaults]. *)
Definition default_node (node : NodeConfig) : NodeConfig :=
  mkNodeConfig (Hostname node) (IP node) (or_default (Port node) 50051)
    (or_default_string (ID node) (Hostname node)) (Tags node).

Definition SetDefaultsController (c : ControllerConfig) : ControllerConfig :=
  let s := Controller c in
  mkControllerConfig
    (mkControllerSettings (default_node <$> Nodes s) (TestProfiles s)
       (Topology s) (Output s)
       (mkConcurrencyConfig
          (or_default (MaxConcurrentNodes (Concurrency s)) 100)
          (or_default (MaxConcurrentTests (Concurrency s)) 1000)
          (or_default (ClientStartBatchSize (Concurrency s)) 50)
          (or_default (ConnectionTimeout (Concurrency s)) 10)
          (or_default (RPCTimeout (Concurrency s)) 60))).

End Config.

(** ** The two commands: from a configuration to the running objects *)

Module Main.

(** [runDaemon]: the server configuration built from the daemon
    configuration. *)
Definition server_config (cfg : Config.DaemonConfig) : Server.Config :=
  let d := Config.Daemon cfg in
  Server.mkConfig (Config.ListenPort d) (Config.Start (Config.Range d))
    (Config.End_ (Config.Range d)) (Config.MaxProcesses d)
    (Config.CPUAffinity d) (Config.LogLevel d) (Config.ResultDir d) "iperf3".

(** [runDaemon] from the validated configuration [cfg] (the result of
    [LoadDaemonConfig]) up to the creation of the server. *)
Definition daemon_server (cfg : Config.DaemonConfig)
  : outcome Server.new_error Server.DaemonServer :=
  Server.NewDaemonServer (Some (server_config (Config.SetDefaultsDaemon cfg))).

(** [runTest]: the node built from a node configuration (no capacity is
    known yet). *)
Definition node_of (nodeConfig : Config.NodeConfig) : Models.Node :=
  Models.mkNode (Config.ID nodeConfig) (Config.Hostname nodeConfig)
    (Config.IP nodeConfig) (Config.Port nodeConfig)
    (Models.mkProcessCapacity 0 0 0 0 []) (Config.Tags nodeConfig).

(** The registry loop of [runTest] and [checkStatus]: it returns the
    first [AddNode] error. *)
Definition build_nodes (nodes : list Config.NodeConfig)
  : outcome Models.error Models.NodeRegistry :=
  foldl (fun acc nodeConfig =>
           match acc with
           | Ret registry => Models.AddNode (node_of nodeConfig) registry
           | other => other
           end)
    (Ret Models.NewNodeRegistry) nodes.

(** [runTest]: the profile built from a named profile configuration; the
    extra flags of the configuration are not copied. *)
Definition profile_of (name : string) (p : Config.TestProfile)
  : Models.TestProfile :=
  Models.mkTestProfile name (Config.Duration p)
    (if bool_decide (Config.Protocol p = "udp")
     then Models.ProtocolUDP else Models.ProtocolTCP)
    (Config.Bandwidth p) (Config.WindowSize p) (Config.Parallel p)
    (Config.Bidirectional p) (Config.Reverse p) (Config.BufferLength p)
    (Config.CongestionControl p) (Config.MSS p) (Config.NoDelay p)
    (Config.TOS p) (Config.ZeroCopy p) (Config.OmitSeconds p) ∅.

Inductive profile_error :=
| EmptyProfileName
| ProfileExists (name : string)
| ProfileNotFound (name : string).

(** [ProfileRegistry.AddProfile] *)
Definition AddProfile (profile : Models.TestProfile)
    (r : Topology.ProfileRegistry)
  : outcome profile_error Topology.ProfileRegistry :=
  if bool_decide (Models.Name profile = "") then Raise EmptyProfileName
  else match Topology.profiles r !! Models.Name profile with
       | Some _ => Raise (ProfileExists (Models.Name profile))
       | None =>
           Ret (Topology.mkProfileRegistry
                  (<[Models.Name profile := profile]> (Topology.profiles r)))
       end.

(** [ProfileRegistry.GetProfile] with its error. *)
Definition GetProfile (name : string) (r : Topology.ProfileRegistry)
  : outcome profile_error Models.TestProfile :=
  match Topology.profiles r !! name with
  | Some profile => Ret profile
  | None => Raise (ProfileNotFound name)
  end.

(** The profile loop of [runTest], for the order [profiles] in which the
    [range] over [TestProfiles] yields its entries. *)
Definition build_profiles (profiles : list (string * Config.TestProfile))
  : outcome profile_error Topology.ProfileRegistry :=
  foldl (fun acc entry =>
           match acc with
           | Ret registry => AddProfile (profile_of entry.1 entry.2) registry
           | other => other
           end)
    (Ret (Topology.mkProfileRegistry ∅)) profiles.

End Main.

(** ** Package [iperf]: the command line of the iperf3 wrapper *)

Module Iperf.

(** [Mode] is a string type; any string can stand in a configuration. *)
Definition Mode := string.
Definition ModeServer : Mode := "server".
Definition ModeClient : Mode := "client".

(** [Config] with the fields the wrapper's file declares; the record
    field [Mode] is written [ConfigMode]. *)
Record Config := mkConfig {
  ConfigMode : Mode;
  Port : Z;
  Host : string;
  Duration : Z;
  Bandwidth : string;
  WindowSize : string;
  Parallel : Z;
  Bidirectional : bool;
  Reverse : bool;
  BufferLength : Z;
  CongestionControl : string;
  MSS : Z;
  NoDelay : bool;
  TOS : Z;
  ZeroCopy : bool;
  OmitSeconds : Z;
  ExtraArgs : list string
}.

Inductive error :=
| NilConfig
| HostRequired
| InvalidMode (mode : Mode).

(** The client branch of the [switch] in [BuildCommand], after the host
    check. *)
Definition client_args (config : Config) : list string :=
  let args := [] in
  let args := args ++ ["-c"; Host config] in
  let args := args ++ ["-p"; Models.itoa (Port config)] in
  let args := Models.append_if (bool_decide (Duration config > 0))
                args ["-t"; Models.itoa (Duration config)] in
  let args := Models.append_if (bool_decide (Bandwidth config ≠ ""))
                args ["-b"; Bandwidth config] in
  let args := Models.append_if (bool_decide (Parallel config > 1))
                args ["-P"; Models.itoa (Parallel config)] in
  let args := Models.append_if (Bidirectional config) args ["--bidir"] in
  let args := Models.append_if (Reverse config) args ["-R"] in
  let args := Models.append_if (bool_decide (BufferLength config > 0))
                args ["-l"; Models.itoa (BufferLength config)] in
  let args := Models.append_if (bool_decide (CongestionControl config ≠ ""))
                args ["-C"; CongestionControl config] in
  let args := Models.append_if (bool_decide (MSS config > 0))
                args ["-M"; Models.itoa (MSS config)] in
  let args := Models.append_if (NoDelay config) args ["-N"] in
  let args := Models.append_if (bool_decide (TOS config > 0))
                args ["-S"; Models.itoa (TOS config)] in
  let args := Models.append_if (ZeroCopy config) args ["-Z"] in
  let args := Models.append_if (bool_decide (OmitSeconds config > 0))
                args ["-O"; Models.itoa (OmitSeconds config)] in
  args.

(** The part of [BuildCommand] after the [switch]. *)
Definition common_args (config : Config) (args : list string) : list string :=
  let args := Models.append_if (bool_decide (WindowSize config ≠ ""))
                args ["-w"; WindowSize config] in
  let args := args ++ ["-J"] in
  let args := Models.append_if (bool_decide (ConfigMode config = ModeServer))
                args ["-1"] in
  let args := Models.append_if (bool_decide (GoInt.len (ExtraArgs config) > 0))
                args (ExtraArgs config) in
  args.

(** [Wrapper.BuildCommand]; [None] is the nil configuration. *)
Definition BuildCommand (config : option Config)
  : outcome error (list string) :=
  match config with
  | None => Raise NilConfig
  | Some config =>
      if bool_decide (ConfigMode config = ModeServer) then
        Ret (common_args config
               (([] ++ ["-s"]) ++ ["-p"; Models.itoa (Port config)]))
      else if bool_decide (ConfigMode config = ModeClient) then
        if bool_decide (Host config = "") then Raise HostRequired
        else Ret (common_args config (client_args config))
      else Raise (InvalidMode (ConfigMode config))
  end.

(** The arguments [RunServer] starts a server with. *)
Definition RunServer_args (port : Z) : list string :=
  ["-s"; "-p"; Models.itoa port; "-J"].

(** The strings of a configuration that reach the command line as they
    are. *)
Definition caller_strings (config : Config) : list string :=
  [Host config; Bandwidth config; CongestionControl config;
   WindowSize config] ++ ExtraArgs config.

End Iperf.


(** ** Package [process]: the way of a client configuration to the wrapper *)

Module ProcessManager.

(** [Manager.StartClient] sets the mode, the host and the port of the
    configuration it is given and hands it to [runClient], which passes it
    to [Wrapper.Run] and so to [BuildCommand].  The configuration is the
    [iperf.Config] that [convertProfileToIperfConfig] filled: of its
    fields the wrapper's declaration has all but the protocol, which
    [BuildCommand] does not read, and its extra arguments are left nil.
    (The log file that [StartClient] sets when results are saved has no
    field in the wrapper's declaration either.) *)
Definition client_config (config : Server.IperfConfig) (host : string)
    (port : Z) : Iperf.Config :=
  Iperf.mkConfig Iperf.ModeClient port host
    (Server.Duration config) (Server.Bandwidth config)
    (Server.WindowSize config) (Server.Parallel config)
    (Server.Bidirectional config) (Server.Reverse config)
    (Server.BufferLength config) (Server.CongestionControl config)
    (Server.MSS config) (Server.NoDelay config) (Server.TOS config)
    (Server.ZeroCopy config) (Server.OmitSeconds config) [].

(** The command of the client that the daemon starts for a target of a
    [StartClients] request: the handler converts the profile of the target
    and calls [StartClient] with the test id, the destination address and
    port of the target and the converted configuration. *)
Definition client_command (target : Server.ClientTarget)
  : outcome Iperf.error (list string) :=
  Iperf.BuildCommand
    (Some (client_config
             (Server.convertProfileToIperfConfig (Server.Profile target))
             (Server.DestinationIp target) (Server.DestinationPort target))).

End ProcessManager.


(* ===================================================================== *)
(** * Proofs *)
(* ===================================================================== *)

(** ** Arithmetic of wrapped integers *)

Section GoIntFacts.
Import GoInt.

Lemma wrap64_small z : min_int <= z <= max_int -> wrap64 z = z.
Proof.
  unfold wrap64, min_int, max_int. intros Hz.
  rewrite Z.mod_small by lia. lia.
Qed.

Lemma wrap64_range z : min_int <= wrap64 z <= max_int.
Proof.
  unfold wrap64, min_int, max_int.
  pose proof (Z.mod_pos_bound (z + 2 ^ 63) (2 ^ 64)). lia.
Qed.

Lemma wrap64_idemp z : wrap64 (wrap64 z) = wrap64 z.
Proof. apply wrap64_small, wrap64_range. Qed.

Lemma wrap64_add_r a b : wrap64 (a + wrap64 b) = wrap64 (a + b).
Proof.
  unfold wrap64. f_equal.
  replace (a + ((b + 2 ^ 63) mod 2 ^ 64 - 2 ^ 63) + 2 ^ 63)
    with (a + (b + 2 ^ 63) mod 2 ^ 64) by lia.
  rewrite Z.add_mod_idemp_r by lia. f_equal. lia.
Qed.

Lemma wrap32_small z : - 2 ^ 31 <= z < 2 ^ 31 -> wrap32 z = z.
Proof.
  unfold wrap32. intros Hz. rewrite Z.mod_small by lia. lia.
Qed.

End GoIntFacts.

(** ** The port allocator *)

Section PortFacts.
Import Port.

Lemma allocated_insert_true m p q :
  allocated (<[p := true]> m) q = true <-> q = p \/ allocated m q = true.
Proof.
  unfold allocated. destruct (decide (p = q)) as [->|Hne].
  - rewrite lookup_insert_eq. simpl. tauto.
  - rewrite lookup_insert_ne by done. split; [tauto|]. intros [->|]; done.
Qed.

Lemma allocated_delete m p q :
  allocated (delete p m) q = true <-> q <> p /\ allocated m q = true.
Proof.
  unfold allocated. destruct (decide (p = q)) as [->|Hne].
  - rewrite lookup_delete_eq. simpl. split; [done|]. intros [? _]; done.
  - rewrite lookup_delete_ne by done. split; [|tauto]. intros; split; [congruence|done].
Qed.

Lemma allocated_mark_all ports m q :
  allocated (mark_all m ports) q = true <-> q ∈ ports \/ allocated m q = true.
Proof.
  unfold mark_all. revert m. induction ports as [|p ports IH]; intros m; simpl.
  - split; [tauto|]. intros [H|H]; [inversion H|done].
  - rewrite IH, allocated_insert_true, elem_of_cons. tauto.
Qed.


Lemma first_free_spec m range p :
  first_free m range = Some p -> p ∈ range /\ allocated m p = false.
Proof.
  induction range as [|q range IH]; simpl; [done|].
  destruct (allocated m q) eqn:Hq; simpl.
  - intros H. destruct (IH H). split; [rewrite elem_of_cons; by right|done].
  - intros [= ->]. split; [rewrite elem_of_cons; by left|done].
Qed.

Lemma index_sound_new s e a : NewAllocator s e = Ret a -> index_sound a.
Proof.
  unfold NewAllocator. repeat case_bool_decide; try done.
  intros [= <-]. split; simpl; intros ? ?; rewrite lookup_empty; done.
Qed.

Lemma index_sound_AllocatePort t a :
  index_sound a -> index_sound (snd (AllocatePort t a)).
Proof.
  intros [H1 H2]. unfold AllocatePort.
  destruct (testIDToPort a !! t) as [p|] eqn:Ht; simpl; [done|].
  destruct (first_free _ _) as [p|] eqn:Hff; simpl; [|done].
  apply first_free_spec in Hff as [_ Hfree].
  split; unfold IsPortAllocated; simpl.
  - intros t' p'. destruct (decide (t = t')) as [<-|Hne].
    + rewrite lookup_insert_eq. intros [= <-].
      rewrite allocated_insert_true, lookup_insert_eq. auto.
    + rewrite lookup_insert_ne by done. intros Hp'.
      destruct (H1 _ _ Hp') as [Ha Hb].
      rewrite allocated_insert_true. split; [by right|].
      rewrite lookup_insert_ne; [done|].
      intros <-. unfold IsPortAllocated in Ha. congruence.
  - intros p' t'. rewrite allocated_insert_true.
    destruct (decide (p = p')) as [<-|Hne]; [auto|].
    rewrite lookup_insert_ne by done. intros Hp'. right. by eapply H2.
Qed.

Lemma index_sound_AllocatePorts c a :
  index_sound a -> index_sound (snd (AllocatePorts c a)).
Proof.
  intros [H1 H2]. unfold AllocatePorts.
  repeat case_bool_decide; simpl; try done.
  split; unfold IsPortAllocated; simpl.
  - intros t p Hp. destruct (H1 _ _ Hp). rewrite allocated_mark_all. auto.
  - intros p t Hp. rewrite allocated_mark_all. right. by eapply H2.
Qed.

Lemma index_sound_release port testID a :
  index_sound a ->
  (forall t, testIDToPort a !! t = Some port -> t = testID) ->
  index_sound
    (mkAllocator (startPort a) (endPort a)
       (delete port (allocatedPorts a))
       (delete port (portToTestID a))
       (delete testID (testIDToPort a))).
Proof.
  intros [H1 H2] Hown. split; unfold IsPortAllocated; simpl.
  - intros t p. destruct (decide (testID = t)) as [<-|Hne].
    + by rewrite lookup_delete_eq.
    + rewrite lookup_delete_ne by done. intros Hp.
      destruct (H1 _ _ Hp) as [Ha Hb].
      assert (p <> port) by (intros ->; apply Hne; symmetry; by apply Hown).
      rewrite allocated_delete, lookup_delete_ne by done. auto.
  - intros p t. destruct (decide (port = p)) as [<-|Hne].
    + by rewrite lookup_delete_eq.
    + rewrite lookup_delete_ne by done. intros Hp.
      rewrite allocated_delete. split; [done|]. by eapply H2.
Qed.

Lemma index_sound_ReleasePort t a :
  index_sound a -> index_sound (snd (ReleasePort t a)).
Proof.
  intros Ha. unfold ReleasePort.
  destruct (testIDToPort a !! t) as [p|] eqn:Ht; simpl; [|done].
  apply index_sound_release; [done|].
  intros t' Ht'. destruct Ha as [H1 _].
  destruct (H1 _ _ Ht) as [_ E1]. destruct (H1 _ _ Ht') as [_ E2]. congruence.
Qed.

Lemma index_sound_ReleasePortByNumber p a :
  index_sound a -> index_sound (snd (ReleasePortByNumber p a)).
Proof.
  intros Ha. unfold ReleasePortByNumber.
  destruct (allocated (allocatedPorts a) p) eqn:Hp; simpl; [|done].
  apply index_sound_release; [done|].
  intros t' Ht'. destruct Ha as [H1 _].
  destruct (H1 _ _ Ht') as [_ ->]. done.
Qed.

Lemma index_sound_step a o : index_sound a -> index_sound (step a o).
Proof.
  destruct o; simpl;
    auto using index_sound_AllocatePort, index_sound_AllocatePorts,
      index_sound_ReleasePort, index_sound_ReleasePortByNumber.
  intros _. split; simpl; intros ? ?; rewrite lookup_empty; done.
Qed.

Lemma index_sound_run ops a : index_sound a -> index_sound (run a ops).
Proof.
  unfold run. revert a. induction ops as [|o ops IH]; intros a Ha; simpl; [done|].
  apply IH, index_sound_step, Ha.
Qed.

Lemma counts_balance a :
  GoInt.add (GetAllocatedCount a) (GetAvailableCount a) = GetCapacity a.
Proof.
  unfold GetAllocatedCount, GetAvailableCount, GetCapacity, GoInt.add, GoInt.sub.
  rewrite wrap64_add_r.
  match goal with |- GoInt.wrap64 (?l + (?t - ?l)) = _ =>
    replace (l + (t - l)) with t by lia end.
  apply wrap64_idemp.
Qed.

End PortFacts.

Section PortClaims.
Import Port.

Lemma StronglySorted_seqZ m n : StronglySorted Z.lt (seqZ m n).
Proof.
  destruct (decide (n <= 0)) as [Hn|Hn]; [rewrite seqZ_nil by done; constructor|].
  rewrite <- (Z2Nat.id n) by lia. generalize (Z.to_nat n) as k. clear n Hn.
  induction k as [|k IH]; [rewrite seqZ_nil by done; constructor|].
  rewrite seqZ_S. apply StronglySorted_app; split_and!; [|done|repeat constructor].
  intros x y [Hx Hlt]%elem_of_seqZ ->%list_elem_of_singleton. lia.
Qed.

Lemma StronglySorted_filter {A} (R : relation A) (P : A -> Prop)
    `{!forall x, Decision (P x)} (l : list A) :
  StronglySorted R l -> StronglySorted R (filter P l).
Proof.
  induction 1 as [|x l Hl IH Hx]; [constructor|].
  rewrite filter_cons. case_decide; [|done].
  constructor; [done|]. rewrite Forall_forall in Hx |- *.
  intros y [_ Hy]%list_elem_of_filter. by apply Hx.
Qed.


Lemma free_ports_sorted a : StronglySorted Z.lt (free_ports a).
Proof. apply StronglySorted_filter, StronglySorted_seqZ. Qed.

Lemma collect_free_spec a c range acc :
  GoInt.len acc <= c ->
  collect_free (allocatedPorts a) c range acc =
  acc ++ take (Z.to_nat c - length acc)%nat
           (filter (fun p => IsPortAllocated a p = false) range).
Proof.
  unfold GoInt.len, IsPortAllocated.
  revert acc. induction range as [|p range IH]; intros acc Hacc; simpl.
  - by rewrite filter_nil, take_nil, app_nil_r.
  - case_bool_decide as Hlt; unfold GoInt.len in Hlt.
    + rewrite filter_cons.
      destruct (allocated (allocatedPorts a) p) eqn:Hp; simpl.
      * by apply IH.
      * rewrite IH by (rewrite length_app; simpl; lia).
        rewrite <- app_assoc. simpl. f_equal.
        replace (Z.to_nat c - length acc)%nat
          with (S (Z.to_nat c - length (acc ++ [p])))%nat
          by (rewrite length_app; simpl; lia).
        done.
    + replace (Z.to_nat c - length acc)%nat with 0%nat by lia.
      by rewrite take_0, app_nil_r.
Qed.


Lemma owner_sound_new s e a : NewAllocator s e = Ret a -> owner_sound a.
Proof.
  unfold NewAllocator. repeat case_bool_decide; try done.
  intros [= <-] p t Hp. simpl in Hp. by rewrite lookup_empty in Hp.
Qed.

Lemma owner_sound_step a o : owner_sound a -> owner_sound (step a o).
Proof.
  intros H. destruct o as [t|c|t|q|]; simpl.
  - unfold AllocatePort.
    destruct (testIDToPort a !! t) as [p0|] eqn:Ht; simpl; [done|].
    destruct (first_free _ _) as [q|] eqn:Hff; simpl; [|done].
    intros p t' Hp Hne. simpl in *.
    destruct (decide (q = p)) as [->|Hqp].
    + rewrite lookup_insert_eq in Hp. injection Hp as <-.
      by rewrite lookup_insert_eq.
    + rewrite lookup_insert_ne in Hp by done.
      destruct (decide (t = t')) as [->|Htt].
      * pose proof (H _ _ Hp Hne). congruence.
      * rewrite lookup_insert_ne by done. by apply H.
  - unfold AllocatePorts. repeat case_bool_decide; simpl; try done.
  - unfold ReleasePort.
    destruct (testIDToPort a !! t) as [p0|] eqn:Ht; simpl; [|done].
    intros p t' Hp Hne. simpl in *.
    destruct (decide (p0 = p)) as [->|Hpp];
      [by rewrite lookup_delete_eq in Hp|].
    rewrite lookup_delete_ne in Hp by done. pose proof (H _ _ Hp Hne) as Hm.
    rewrite lookup_delete_ne; [done|]. intros ->. congruence.
  - unfold ReleasePortByNumber.
    destruct (allocated _ q) eqn:Hq; simpl; [|done].
    intros p t' Hp Hne. simpl in *.
    destruct (decide (q = p)) as [->|Hqp];
      [by rewrite lookup_delete_eq in Hp|].
    rewrite lookup_delete_ne in Hp by done. pose proof (H _ _ Hp Hne) as Hm.
    rewrite lookup_delete_ne; [done|]. intros E.
    destruct (portToTestID a !! q) as [t0|] eqn:Hq0; simpl in E;
      [|congruence].
    subst t0. pose proof (H _ _ Hq0 Hne). congruence.
  - intros p t Hp. simpl in Hp. by rewrite lookup_empty in Hp.
Qed.

Lemma owner_sound_run ops a : owner_sound a -> owner_sound (run a ops).
Proof.
  unfold run. revert a.
  induction ops as [|o ops IH]; intros a Ha; simpl; [done|].
  apply IH, owner_sound_step, Ha.
Qed.

Lemma step_keeps_entry t p a o :
  owner_sound a ->
  testIDToPort a !! t = Some p ->
  ~ releases t p o ->
  (t = "" -> ~ releases_ownerless a o) ->
  testIDToPort (step a o) !! t = Some p.
Proof.
  intros Hown Ht Hno Hempty. destruct o as [t'|c|t'|q|]; simpl in *.
  - unfold AllocatePort.
    destruct (testIDToPort a !! t') as [p'|] eqn:Ht'; simpl; [done|].
    destruct (first_free _ _); simpl; [|done].
    rewrite lookup_insert_ne; [done|congruence].
  - unfold AllocatePorts. repeat case_bool_decide; done.
  - unfold ReleasePort. destruct (testIDToPort a !! t'); simpl; [|done].
    by rewrite lookup_delete_ne.
  - unfold ReleasePortByNumber, IsPortAllocated in *.
    destruct (allocated (allocatedPorts a) q) eqn:Hq; simpl; [|done].
    rewrite lookup_delete_ne; [done|]. intros E.
    destruct (decide (t = "")) as [->|Hne].
    + by apply Hempty.
    + destruct (portToTestID a !! q) as [t0|] eqn:Hq0; simpl in E;
        [|congruence].
      subst t0. apply Hno. pose proof (Hown _ _ Hq0 Hne). congruence.
  - tauto.
Qed.

Lemma run_keeps_entry t p ops a :
  owner_sound a ->
  testIDToPort a !! t = Some p ->
  Forall (fun o => ~ releases t p o) ops ->
  (t = "" -> no_ownerless_release a ops) ->
  testIDToPort (run a ops) !! t = Some p.
Proof.
  unfold run. revert a.
  induction ops as [|o ops IH]; intros a Hown Ht Hno Hempty; simpl; [done|].
  apply Forall_cons in Hno as [Ho Hno].
  apply IH; [by apply owner_sound_step| |done|].
  - apply step_keeps_entry; [done|done|done|].
    intros E. by destruct (Hempty E).
  - intros E. by destruct (Hempty E).
Qed.

Lemma AllocatePort_entry t p a a' :
  AllocatePort t a = (Ret p, a') -> testIDToPort a' !! t = Some p.
Proof.
  unfold AllocatePort. destruct (testIDToPort a !! t) as [q|] eqn:Ht.
  - intros [= <- <-]. done.
  - destruct (first_free _ _); [|done]. intros [= <- <-]. simpl.
    apply lookup_insert_eq.
Qed.

(** C8 (as amended).  In every state reached from NewAllocator: if
    [AllocatePort(t)] succeeds with port [p], then after any calls among
    which there is no release of [t] (no ReleasePort(t), no
    ReleasePortByNumber(p) and no ReleaseAll), [AllocatePort(t)] succeeds
    again with the same port [p] and leaves the allocator state unchanged;
    for the empty test id this needs, in addition, that no intervening
    ReleasePortByNumber releases an allocated port that has no test id or
    is recorded for the empty id. *)
Theorem AllocatePort_idempotent s e a0 pre t p ops :
  NewAllocator s e = Ret a0 ->
  let a := run a0 pre in
  (AllocatePort t a).1 = Ret p ->
  let a' := (AllocatePort t a).2 in
  Forall (fun o => ~ releases t p o) ops ->
  (t = "" -> no_ownerless_release a' ops) ->
  AllocatePort t (run a' ops) = (Ret p, run a' ops).
Proof.
  intros Hnew a Hfirst a' Hno Hempty.
  assert (owner_sound a') as Hown.
  { apply (owner_sound_step a (OpAllocatePort t)), owner_sound_run.
    by eapply owner_sound_new. }
  assert (testIDToPort a' !! t = Some p) as Hentry.
  { apply (AllocatePort_entry t p a). unfold a'.
    destruct (AllocatePort t a) as [r a1]. simpl in Hfirst. by subst r. }
  unfold AllocatePort.
  by rewrite (run_keeps_entry t p ops a' Hown Hentry Hno Hempty).
Qed.

Lemma AllocatePort_idempotent_witness :
  let a0 := mkAllocator 5201 5205 ∅ ∅ ∅ in
  let a' := (AllocatePort "test1" (run a0 [OpAllocatePorts 1])).2 in
  let ops := [OpAllocatePort "test2"; OpAllocatePorts 2; OpReleasePort "test2";
              OpReleasePortByNumber 5201] in
  AllocatePort "test1" (run a' ops) = (Ret 5202, run a' ops).
Proof.
  intros a0 a' ops.
  apply (AllocatePort_idempotent 5201 5205 a0 [OpAllocatePorts 1] "test1"
           5202 ops).
  - reflexivity.
  - reflexivity.
  - unfold ops. repeat (apply Forall_cons; split); try apply Forall_nil_2;
      simpl; try tauto; discriminate.
  - discriminate.
Defined.

(** C8, the counterexample: on a fresh allocator over 5201-5205 the empty
    test id is given port 5201; AllocatePorts(1) then reserves 5202, and
    ReleasePortByNumber(5202), which releases neither the empty id nor its
    port, deletes the test-id entry of the empty id; the next
    AllocatePort of the empty id returns 5202. *)
Lemma AllocatePort_empty_id_not_idempotent :
  exists a0, NewAllocator 5201 5205 = Ret a0 /\
    let ops := [OpAllocatePorts 1; OpReleasePortByNumber 5202] in
    let a' := (AllocatePort "" a0).2 in
    (AllocatePort "" a0).1 = Ret 5201 /\
    Forall (fun o => ~ releases "" 5201 o) ops /\
    (AllocatePort "" (run a' ops)).1 = Ret 5202.
Proof.
  eexists. split; [reflexivity|]. split; [reflexivity|]. split.
  - repeat (apply Forall_cons; split); try apply Forall_nil_2;
      simpl; try tauto; discriminate.
  - vm_compute. reflexivity.
Qed.

Lemma IsPortAllocated_empty s e p :
  IsPortAllocated (mkAllocator s e ∅ ∅ ∅) p = false.
Proof. unfold IsPortAllocated, allocated. simpl. by rewrite lookup_empty. Qed.

Lemma reserve_run_fst ops st :
  (foldl reserve_step st ops).1 = run st.1 ops.
Proof.
  unfold run. revert st. induction ops as [|o ops IH]; intros st; simpl;
    [done|]. by rewrite IH.
Qed.

Lemma reserved_sound_step st o :
  reserved_sound st -> reserved_sound (reserve_step st o).
Proof.
  destruct st as [a B]. unfold reserved_sound, IsPortAllocated. simpl.
  intros H. destruct o as [t|c|t|q|]; simpl.
  - unfold AllocatePort.
    destruct (testIDToPort a !! t) as [p0|] eqn:Ht; simpl; [done|].
    destruct (first_free _ _) as [q|] eqn:Hff; simpl; [|done].
    intros p [->|Hp]%allocated_insert_true Hnin.
    + rewrite lookup_insert_eq. by eexists.
    + destruct (decide (q = p)) as [->|Hqp].
      * rewrite lookup_insert_eq. by eexists.
      * rewrite lookup_insert_ne by done. by apply H.
  - unfold AllocatePorts. repeat case_bool_decide; simpl; try done.
    intros p [Hp|Hp]%allocated_mark_all Hnin.
    + exfalso. apply Hnin. apply elem_of_union. right.
      by apply elem_of_list_to_set.
    + apply H; [done|]. intros Hin. apply Hnin. apply elem_of_union.
      by left.
  - unfold ReleasePort.
    destruct (testIDToPort a !! t) as [p0|] eqn:Ht; simpl; [|done].
    intros p [Hne Hp]%allocated_delete Hnin.
    rewrite lookup_delete_ne by done. apply H; [done|].
    intros Hin. apply Hnin. apply elem_of_difference. split; [done|].
    by intros ->%elem_of_singleton.
  - unfold ReleasePortByNumber.
    destruct (allocated _ q) eqn:Hq; simpl.
    + intros p [Hne Hp]%allocated_delete Hnin.
      rewrite lookup_delete_ne by done. apply H; [done|].
      intros Hin. apply Hnin. apply elem_of_difference. split; [done|].
      by intros ->%elem_of_singleton.
    + intros p Hp Hnin. apply H; [done|].
      intros Hin. apply Hnin. apply elem_of_difference. split; [done|].
      intros ->%elem_of_singleton. congruence.
  - intros p Hp. unfold allocated in Hp. by rewrite lookup_empty in Hp.
Qed.

Lemma reserved_sound_run ops st :
  reserved_sound st -> reserved_sound (foldl reserve_step st ops).
Proof.
  revert st. induction ops as [|o ops IH]; intros st Hst; simpl; [done|].
  apply IH, reserved_sound_step, Hst.
Qed.

Lemma all_mapped_step a o :
  (forall c, o <> OpAllocatePorts c) -> all_mapped a -> all_mapped (step a o).
Proof.
  unfold all_mapped, IsPortAllocated.
  intros Ho H. destruct o as [t|c|t|q|]; simpl.
  - unfold AllocatePort.
    destruct (testIDToPort a !! t) as [p0|] eqn:Ht; simpl; [done|].
    destruct (first_free _ _) as [q|] eqn:Hff; simpl; [|done].
    apply first_free_spec in Hff as [_ Hfree].
    intros p [->|Hp]%allocated_insert_true.
    + exists t. by rewrite !lookup_insert_eq.
    + destruct (H p Hp) as (t' & Hp' & Ht').
      assert (q <> p) by congruence.
      assert (t <> t') by congruence.
      exists t'. by rewrite !lookup_insert_ne.
  - by destruct (Ho c).
  - unfold ReleasePort.
    destruct (testIDToPort a !! t) as [p0|] eqn:Ht; simpl; [|done].
    intros p [Hne Hp]%allocated_delete.
    destruct (H p Hp) as (t' & Hp' & Ht').
    assert (t <> t') by congruence.
    exists t'. by rewrite !lookup_delete_ne.
  - unfold ReleasePortByNumber.
    destruct (allocated _ q) eqn:Hq; simpl; [|done].
    destruct (H q Hq) as (t0 & Hq0 & Ht0). rewrite Hq0. simpl.
    intros p [Hne Hp]%allocated_delete.
    destruct (H p Hp) as (t' & Hp' & Ht').
    assert (t0 <> t') by congruence.
    exists t'. by rewrite !lookup_delete_ne.
  - intros p Hp. unfold allocated in Hp. by rewrite lookup_empty in Hp.
Qed.

Lemma all_mapped_run ops a :
  (forall c, OpAllocatePorts c ∉ ops) -> all_mapped a ->
  all_mapped (run a ops).
Proof.
  unfold run. revert a.
  induction ops as [|o ops IH]; intros a Hops Ha; simpl; [done|].
  apply IH.
  - intros c Hc. apply (Hops c). apply elem_of_cons. by right.
  - apply all_mapped_step; [|done].
    intros c ->. apply (Hops c). apply elem_of_cons. by left.
Qed.

(** C2 (as amended).  After any finite sequence of AllocatePort,
    AllocatePorts, ReleasePort, ReleasePortByNumber and ReleaseAll calls on
    an allocator built by NewAllocator, GetAllocatedCount() +
    GetAvailableCount() == GetCapacity(); every test-id entry names a port
    that is marked allocated and whose port entry names that test id back;
    and every port entry belongs to a port that is marked allocated.
    Conversely, if the sequence has no AllocatePorts call, every port
    marked allocated has a port entry and the matching test-id entry.  In
    general, every port marked allocated has a port entry unless an
    AllocatePorts call of the sequence reserved it and no later call
    released it, and the test id of that entry, unless it is the empty
    string, has the matching test-id entry. *)
Theorem allocator_invariants_after_any_sequence s e a0 ops :
  NewAllocator s e = Ret a0 ->
  let a := run a0 ops in
  GoInt.add (GetAllocatedCount a) (GetAvailableCount a) = GetCapacity a /\
  (forall t p, testIDToPort a !! t = Some p ->
     IsPortAllocated a p = true /\ portToTestID a !! p = Some t) /\
  (forall p t, portToTestID a !! p = Some t -> IsPortAllocated a p = true) /\
  ((forall c, OpAllocatePorts c ∉ ops) ->
   forall p, IsPortAllocated a p = true ->
     exists t, portToTestID a !! p = Some t /\ testIDToPort a !! t = Some p) /\
  (forall p, IsPortAllocated a p = true -> p ∉ bulk_reserved a0 ops ->
     exists t, portToTestID a !! p = Some t /\
       (t <> "" -> testIDToPort a !! t = Some p)).
Proof.
  intros Hnew a. split; [apply counts_balance|].
  destruct (index_sound_run ops a0 (index_sound_new s e a0 Hnew)) as [H1 H2].
  split; [exact H1|]. split; [exact H2|].
  assert (a0 = mkAllocator s e ∅ ∅ ∅) as Ha0.
  { revert Hnew. unfold NewAllocator. repeat case_bool_decide; try done.
    by intros [= <-]. }
  split.
  - intros Hops. apply all_mapped_run; [done|].
    intros p Hp. rewrite Ha0, IsPortAllocated_empty in Hp. done.
  - intros p Hp Hnin.
    pose proof (reserved_sound_run ops (a0, ∅)) as Hres.
    unfold reserved_sound in Hres. rewrite reserve_run_fst in Hres.
    destruct (Hres) with (p := p) as [t Ht]; [|done|done|].
    + intros q Hq. simpl in Hq. rewrite Ha0, IsPortAllocated_empty in Hq.
      done.
    + exists t. split; [done|]. intros Hne.
      by apply (owner_sound_run ops a0 (owner_sound_new s e a0 Hnew)).
Qed.

Lemma allocator_invariants_witness :
  let a0 := mkAllocator 5201 5205 ∅ ∅ ∅ in
  let ops := [OpAllocatePort "test1"; OpAllocatePorts 2; OpReleasePort "test1";
              OpReleasePortByNumber 5202; OpReleaseAll;
              OpAllocatePort "test2"] in
  let a := run a0 ops in
  GoInt.add (GetAllocatedCount a) (GetAvailableCount a) = GetCapacity a /\
  (forall t p, testIDToPort a !! t = Some p ->
     IsPortAllocated a p = true /\ portToTestID a !! p = Some t) /\
  (forall p t, portToTestID a !! p = Some t -> IsPortAllocated a p = true) /\
  ((forall c, OpAllocatePorts c ∉ ops) ->
   forall p, IsPortAllocated a p = true ->
     exists t, portToTestID a !! p = Some t /\ testIDToPort a !! t = Some p) /\
  (forall p, IsPortAllocated a p = true -> p ∉ bulk_reserved a0 ops ->
     exists t, portToTestID a !! p = Some t /\
       (t <> "" -> testIDToPort a !! t = Some p)).
Proof.
  intros a0 ops. apply (allocator_invariants_after_any_sequence 5201 5205 a0 ops).
  reflexivity.
Defined.

(** C2, the counterexamples.  On a fresh allocator over 5201-5205,
    AllocatePorts(1) marks port 5201 allocated, yet the port has no test-id
    mapping in either index.  And after AllocatePort of the empty test id,
    AllocatePorts(1) and ReleasePortByNumber(5202), port 5201, which no
    AllocatePorts call reserved, is marked allocated and has its port
    entry, but the test-id entry of the empty id is gone. *)
Lemma allocated_port_without_test_id :
  exists a0, NewAllocator 5201 5205 = Ret a0 /\
    (let a := run a0 [OpAllocatePorts 1] in
     IsPortAllocated a 5201 = true /\
     GetTestForPort a 5201 = ("", false) /\
     (forall t, GetPortForTest a t = (0, false))) /\
    (let ops := [OpAllocatePort ""; OpAllocatePorts 1;
                 OpReleasePortByNumber 5202] in
     let a := run a0 ops in
     IsPortAllocated a 5201 = true /\
     5201 ∉ bulk_reserved a0 ops /\
     GetTestForPort a 5201 = ("", true) /\
     GetPortForTest a "" = (0, false)).
Proof.
  eexists. split; [reflexivity|]. split.
  - split; [|split]; try reflexivity.
  - split; [reflexivity|]. split; [|split; reflexivity].
    apply (bool_decide_unpack _). vm_compute. exact I.
Qed.

(** C6 (as amended).  For every allocator state and every count [c] that
    [make] accepts as a capacity ([0 <= c <= 2^45]), AllocatePorts(c)
    either returns exactly the [c] lowest free ports of the range, in
    increasing order, marks exactly them allocated in addition to the
    ports already allocated and changes nothing else, or fails with the
    insufficient-ports error and leaves the allocator state unchanged.  For
    every other count the call panics when it creates the result slice,
    and the state is unchanged. *)
Theorem AllocatePorts_all_or_nothing a c :
  (0 <= c <= max_slice_cap ->
   (c <= GoInt.len (free_ports a) /\
    exists a',
      AllocatePorts c a = (Ret (take (Z.to_nat c) (free_ports a)), a') /\
      (forall p q, p ∈ take (Z.to_nat c) (free_ports a) ->
         q ∈ free_ports a -> q ∉ take (Z.to_nat c) (free_ports a) -> p < q) /\
      (forall q, IsPortAllocated a' q = true <->
         q ∈ take (Z.to_nat c) (free_ports a) \/ IsPortAllocated a q = true) /\
      startPort a' = startPort a /\ endPort a' = endPort a /\
      portToTestID a' = portToTestID a /\ testIDToPort a' = testIDToPort a)
   \/
   (GoInt.len (free_ports a) < c /\
    AllocatePorts c a =
      (Raise (InsufficientPorts c (GoInt.len (free_ports a))), a))) /\
  (c < 0 \/ max_slice_cap < c -> AllocatePorts c a = (Panic, a)).
Proof.
  split.
  - intros Hc. unfold AllocatePorts. rewrite bool_decide_eq_false_2 by lia.
    rewrite collect_free_spec by (unfold GoInt.len; simpl; lia).
    simpl. rewrite Nat.sub_0_r. fold (free_ports a).
    destruct (decide (c <= GoInt.len (free_ports a))) as [Hle|Hgt];
      unfold GoInt.len in *.
    + left. split; [done|]. rewrite bool_decide_eq_false_2
        by (rewrite length_take; lia).
      eexists. split; [reflexivity|]. split_and!; try done.
      * intros p q Hp Hq Hnq.
        pose proof (free_ports_sorted a) as Hs.
        rewrite <- (take_drop (Z.to_nat c) (free_ports a)) in Hs, Hq.
        apply elem_of_app in Hq as [Hq|Hq]; [done|].
        by eapply StronglySorted_app_1_elem_of.
      * intros q. unfold IsPortAllocated. simpl. apply allocated_mark_all.
    + right. split; [lia|].
      rewrite take_ge by lia.
      rewrite bool_decide_eq_true_2 by lia. done.
  - intros Hc. unfold AllocatePorts. rewrite bool_decide_eq_true_2 by lia.
    done.
Qed.

(** E2: on a fresh allocator over 5201-5202, AllocatePorts(3) fails with
    the insufficient-ports error and the state is unchanged. *)
Lemma AllocatePorts_exhaustion_E2 :
  let a0 := mkAllocator 5201 5202 ∅ ∅ ∅ in
  NewAllocator 5201 5202 = Ret a0 /\
  AllocatePorts 3 a0 = (Raise (InsufficientPorts 3 2), a0).
Proof.
  intros a0. split; [reflexivity|].
  destruct (proj1 (AllocatePorts_all_or_nothing a0 3))
    as [[Hle _]|[_ Hfail]].
  - unfold max_slice_cap. lia.
  - exfalso. revert Hle. vm_compute. intros H. apply H. reflexivity.
  - exact Hfail.
Defined.

(** C6, the counterexample: with a negative count, and with a count beyond
    the largest capacity of a slice, the call neither returns ports nor
    fails with the insufficient-ports error; creating the slice panics. *)
Lemma AllocatePorts_bad_count_panics :
  exists a0, NewAllocator 5201 5205 = Ret a0 /\
    AllocatePorts (-1) a0 = (Panic, a0) /\
    AllocatePorts (2 ^ 62) a0 = (Panic, a0).
Proof. eexists. split; [reflexivity|]. split; reflexivity. Qed.

End PortClaims.

(** ** The capacity accountant *)

Section ProcessClaims.
Import Process.

Lemma ReserveSlots_exact max used n :
  0 <= used <= max -> max <= GoInt.max_int -> 0 <= n <= GoInt.max_int - max ->
  let c := mkCapacityCalculator max used in
  (used + n <= max ->
     ReserveSlots n c = (Ret tt, mkCapacityCalculator max (used + n))) /\
  (used + n > max ->
     ReserveSlots n c = (Raise (InsufficientCapacity n (max - used)), c)).
Proof.
  intros Hu Hm Hn c. unfold ReserveSlots, GoInt.add, GoInt.sub. simpl.
  unfold GoInt.max_int in *.
  rewrite !wrap64_small by (unfold GoInt.min_int, GoInt.max_int; lia).
  split; intros H.
  - by rewrite bool_decide_eq_false_2 by lia.
  - by rewrite bool_decide_eq_true_2 by lia.
Qed.

Lemma ReleaseSlots_exact max used n :
  0 <= used <= max -> max <= GoInt.max_int -> 0 <= n <= GoInt.max_int ->
  ReleaseSlots n (mkCapacityCalculator max used) =
  mkCapacityCalculator max (Z.max 0 (used - n)).
Proof.
  intros Hu Hm Hn. unfold ReleaseSlots, GoInt.sub. simpl.
  unfold GoInt.max_int in *.
  rewrite !wrap64_small by (unfold GoInt.min_int, GoInt.max_int; lia).
  case_bool_decide; f_equal; lia.
Qed.

Lemma step_bounds max c o :
  0 <= max <= GoInt.max_int -> counted max o ->
  maxProcesses c = max -> 0 <= usedSlots c <= max ->
  maxProcesses (step c o) = max /\ 0 <= usedSlots (step c o) <= max.
Proof.
  intros Hm Ho Hc Hu. destruct c as [m u]. simpl in *. subst m.
  destruct o as [n|n]; unfold step; cbn [counted] in Ho.
  - destruct (ReserveSlots_exact max u n) as [Hok Hno]; [lia..|].
    destruct (decide (u + n <= max)).
    + rewrite Hok by done. simpl. lia.
    + rewrite Hno by lia. simpl. lia.
  - rewrite ReleaseSlots_exact by lia. simpl. lia.
Qed.

Lemma run_bounds max ops c :
  0 <= max <= GoInt.max_int -> Forall (counted max) ops ->
  maxProcesses c = max -> 0 <= usedSlots c <= max ->
  maxProcesses (run c ops) = max /\ 0 <= usedSlots (run c ops) <= max.
Proof.
  intros Hm. unfold run. revert c.
  induction ops as [|o ops IH]; intros c Hops Hc Hu; simpl; [done|].
  apply Forall_cons in Hops as [Ho Hops].
  destruct (step_bounds max c o) as [? ?]; auto.
Qed.

(** C5 (as amended).  For a capacity accountant with bound [0 <= max] and
    every sequence of ReserveSlots/ReleaseSlots calls whose counts are
    non-negative (and small enough that used+n does not overflow [int]),
    [0 <= used <= max] holds after each call; in every state so reached
    ReserveSlots(n) increments used by n if used+n <= max and otherwise
    fails leaving used unchanged, and ReleaseSlots(n) decrements used by n
    but clamps it at zero. *)
Theorem capacity_used_within_bounds max ops k :
  0 <= max <= GoInt.max_int ->
  Forall (counted max) ops ->
  let c := run (NewCapacityCalculator max) (take k ops) in
  0 <= GetUsedSlots c <= max /\
  (forall n, 0 <= n <= GoInt.max_int - max ->
     (GetUsedSlots c + n <= max ->
        fst (ReserveSlots n c) = Ret tt /\
        GetUsedSlots (snd (ReserveSlots n c)) = GetUsedSlots c + n) /\
     (GetUsedSlots c + n > max ->
        (exists e, fst (ReserveSlots n c) = Raise e) /\
        snd (ReserveSlots n c) = c)) /\
  (forall n, 0 <= n <= GoInt.max_int ->
     GetUsedSlots (ReleaseSlots n c) = Z.max 0 (GetUsedSlots c - n)).
Proof.
  intros Hm Hops c.
  destruct (run_bounds max (take k ops) (NewCapacityCalculator max) Hm)
    as [Hmax Hu]; [by apply Forall_take|done|simpl; lia|].
  fold c in Hmax, Hu. unfold GetUsedSlots.
  destruct c as [m u]. cbn [maxProcesses usedSlots] in *. subst m.
  split; [done|]. split.
  - intros n Hn. destruct (ReserveSlots_exact max u n) as [Hok Hno]; [lia..|].
    split; intros H.
    + by rewrite Hok.
    + rewrite Hno by done. simpl. eauto.
  - intros n Hn. by rewrite ReleaseSlots_exact by lia.
Qed.

Lemma capacity_used_within_bounds_witness :
  let c := run (NewCapacityCalculator 2)
             (take 3 [OpReserveSlots 1; OpReserveSlots 2; OpReleaseSlots 5;
                      OpReserveSlots 2]) in
  0 <= GetUsedSlots c <= 2 /\
  (forall n, 0 <= n <= GoInt.max_int - 2 ->
     (GetUsedSlots c + n <= 2 ->
        fst (ReserveSlots n c) = Ret tt /\
        GetUsedSlots (snd (ReserveSlots n c)) = GetUsedSlots c + n) /\
     (GetUsedSlots c + n > 2 ->
        (exists e, fst (ReserveSlots n c) = Raise e) /\
        snd (ReserveSlots n c) = c)) /\
  (forall n, 0 <= n <= GoInt.max_int ->
     GetUsedSlots (ReleaseSlots n c) = Z.max 0 (GetUsedSlots c - n)).
Proof.
  apply (capacity_used_within_bounds 2 _ 3).
  - vm_compute. split; discriminate.
  - repeat constructor; vm_compute; discriminate.
Defined.

(** C5, the counterexample: on a fresh accountant with bound 5,
    ReserveSlots(-1) succeeds and leaves used = -1, below zero. *)
Lemma capacity_negative_reserve_underflows :
  let c := NewCapacityCalculator 5 in
  fst (ReserveSlots (-1) c) = Ret tt /\
  GetUsedSlots (snd (ReserveSlots (-1) c)) = -1 /\
  GetUsedSlots (snd (ReserveSlots (-1) c)) < 0.
Proof. vm_compute. auto. Qed.

End ProcessClaims.

(** ** The daemon result collector *)

Section CollectorClaims.
Import Collector.

(** C10, evaluated at the failing input: storing a successful result twice
    under the same test id leaves one stored result but a completed counter
    of two, so GetCompletedCount() + GetFailedCount() differs from
    GetCount(). *)
Theorem collector_overwrite_double_counts :
  let r := Some (mkIperfResult true "{}" 0 "" 0 5 5) in
  let c := run (NewCollector "")
             [OpStoreIperfResult "test-1" r; OpStoreIperfResult "test-1" r] in
  GetCount c = 1 /\ GetCompletedCount c = 2 /\ GetFailedCount c = 0 /\
  GoInt.add (GetCompletedCount c) (GetFailedCount c) <> GetCount c.
Proof. vm_compute. repeat split; discriminate. Qed.

End CollectorClaims.

(** ** Building argv from a profile *)

Section ArgvClaims.
Import Models.

Lemma pretty_N_go_head x s :
  (0 < x)%N ->
  exists d rest, (d < 10)%N /\ pretty_N_go x s = String (pretty_N_char d) rest.
Proof.
  revert s. induction (N.lt_wf_0 x) as [x _ IH]; intros s Hx.
  rewrite pretty_N_go_step by done.
  destruct (decide (x `div` 10 = 0)%N) as [->|Hdiv].
  - rewrite pretty_N_go_0. eexists _, _. split; [|reflexivity].
    by apply N.mod_lt.
  - apply IH; [by apply N.div_lt|by apply N.neq_0_lt_0].
Qed.

Lemma pretty_positive_head (x : positive) :
  exists d rest, (d < 10)%N /\ pretty x = String (pretty_N_char d) rest.
Proof.
  unfold pretty, pretty_positive, pretty, pretty_N.
  rewrite decide_False by done. apply pretty_N_go_head. lia.
Qed.

Lemma digit_not_dash d : (d < 10)%N -> pretty_N_char d <> "-"%char.
Proof. unfold pretty_N_char. intros _. by repeat case_match. Qed.

Lemma digit_not_letter d c :
  (d < 10)%N -> c ∈ ["u"; "C"; "M"; "N"]%char -> pretty_N_char d <> c.
Proof.
  unfold pretty_N_char. intros _ Hc.
  repeat (apply elem_of_cons in Hc as [->|Hc]); [..|by apply elem_of_nil in Hc];
    by repeat case_match.
Qed.

(** A rendered integer is never one of the protocol flags. *)
Lemma itoa_not_flag n : itoa n ∉ tcp_udp_flags.
Proof.
  unfold itoa, tcp_udp_flags, pretty, pretty_Z. destruct n as [|x|x].
  - intros H. repeat (apply elem_of_cons in H as [H|H]; [discriminate|]).
    by apply elem_of_nil in H.
  - destruct (pretty_positive_head x) as (d & rest & Hd & ->).
    intros H. repeat (apply elem_of_cons in H as [H|H];
      [injection H as H _; by apply (digit_not_dash d)|]).
    by apply elem_of_nil in H.
  - destruct (pretty_positive_head x) as (d & rest & Hd & ->).
    intros H. repeat (apply elem_of_cons in H as [H|H];
      [injection H as H _; apply (digit_not_letter d _ Hd) in H; [done|];
       rewrite !elem_of_cons; auto|]).
    by apply elem_of_nil in H.
Qed.

Lemma elem_of_append_if (x : string) cond args more :
  x ∈ append_if cond args more <-> x ∈ args \/ (cond = true /\ x ∈ more).
Proof.
  unfold append_if. destruct cond.
  - rewrite elem_of_app. split; [intros [?|?]; auto|intros [?|[_ ?]]; auto].
  - split; [auto|]. intros [?|[? _]]; [done|discriminate].
Qed.

Lemma elem_of_append_extra (x : string) extra args :
  x ∈ foldl append_extra args extra ->
  x ∈ args \/ exists kv, kv ∈ extra /\ (x = kv.1 \/ x = kv.2).
Proof.
  revert args. induction extra as [|kv extra IH]; intros args; simpl; [auto|].
  intros [H|(kv' & Hin & Hx)]%IH.
  - unfold append_extra in H. case_bool_decide;
      rewrite elem_of_app, ?elem_of_cons, elem_of_nil in H;
      destruct H as [H|H]; [by left|right|by left|right];
      exists kv; rewrite elem_of_cons; (split; [by left|tauto]).
  - right. exists kv'. rewrite elem_of_cons. auto.
Qed.

Lemma elem_of_append_extra_l (x : string) extra args :
  x ∈ args -> x ∈ foldl append_extra args extra.
Proof.
  revert args. induction extra as [|kv extra IH]; intros args Hx; simpl; [done|].
  apply IH. unfold append_extra. case_bool_decide; rewrite elem_of_app; auto.
Qed.

End ArgvClaims.

Section ArgvTheorems.
Import Models.

Lemma extra_plain p extra kv :
  extra_order p extra -> operands_plain p -> kv ∈ extra ->
  (kv.1 ∉ tcp_udp_flags) /\ (kv.2 ∉ tcp_udp_flags).
Proof.
  intros Hord (_ & _ & Hextra) Hin. apply Hextra.
  rewrite Hord in Hin. destruct kv as [k v]. by apply elem_of_map_to_list in Hin.
Qed.

Lemma flag_mem (x : string) : x ∈ tcp_udp_flags <-> x = "-u" \/ x = "-C" \/ x = "-M" \/ x = "-N".
Proof. unfold tcp_udp_flags. rewrite !elem_of_cons, elem_of_nil. tauto. Qed.

(** Where an element of argv can come from. *)
Lemma ToCommandArgs_in_elem (x : string) extra p :
  x ∈ ToCommandArgs_in extra p ->
  (Protocol p = ProtocolUDP /\ x = "-u") \/
  (Protocol p <> ProtocolUDP /\ (x = "-C" \/ x = CongestionControl p \/ x = "-M" \/ x = "-N")) \/
  x ∈ ["-t"; "-b"; "-w"; "-P"; "--bidir"; "-R"; "-l"; "-S"; "-Z"; "-O"; "-J"] \/
  x = Bandwidth p \/ x = WindowSize p \/
  (exists n, x = itoa n) \/
  (exists kv, kv ∈ extra /\ (x = kv.1 \/ x = kv.2)).
Proof.
  unfold ToCommandArgs_in. intros [H|H]%elem_of_append_extra; [|tauto].
  repeat first [rewrite elem_of_app in H | rewrite elem_of_append_if in H].
  rewrite !elem_of_cons, !elem_of_nil in H.
  rewrite !elem_of_cons, elem_of_nil.
  rewrite !andb_true_iff, !bool_decide_eq_true in H.
  repeat match type of H with
         | _ \/ _ => destruct H as [H|H]
         | _ /\ _ => let Hc := fresh "Hc" in destruct H as [Hc H]
         | False => destruct H
         end;
    try (subst x; intuition eauto; fail).
Qed.

(** C9 (as amended).  For every test profile whose free-form operands
    (bandwidth, window size, the keys and values of the extra flags) do not
    themselves spell -u, -C, -M or -N, and for every order in which the
    extra flags are appended: when the protocol is UDP, argv contains -u
    and contains none of -C, -M and -N, whatever congestion_control, mss
    and no_delay are; when the protocol is not UDP, argv does not contain
    -u (unless congestion_control itself is the string -u). *)
Theorem ToCommandArgs_protocol_flags p extra :
  extra_order p extra -> operands_plain p ->
  let args := ToCommandArgs_in extra p in
  (Protocol p = ProtocolUDP ->
     "-u" ∈ args /\ ("-C" ∉ args) /\ ("-M" ∉ args) /\ ("-N" ∉ args)) /\
  (Protocol p <> ProtocolUDP -> CongestionControl p <> "-u" -> "-u" ∉ args).
Proof.
  intros Hord Hplain args.
  assert (Hgen : forall x, x ∈ tcp_udp_flags -> x ∈ args ->
            (Protocol p = ProtocolUDP /\ x = "-u") \/
            (Protocol p <> ProtocolUDP /\
               (x = "-C" \/ x = CongestionControl p \/ x = "-M" \/ x = "-N"))).
  { intros x Hflag Hx. apply ToCommandArgs_in_elem in Hx.
    destruct Hx as [H|[H|[H|[H|[H|[[n ->]|(kv & Hin & H)]]]]]]; auto.
    - exfalso. apply flag_mem in Hflag.
      rewrite !elem_of_cons, elem_of_nil in H.
      destruct Hflag as [-> | [-> | [-> | ->]]];
        repeat (destruct H as [H|H]; [discriminate|]); done.
    - subst x. by destruct Hplain as (Hb & _).
    - subst x. by destruct Hplain as (_ & Hw & _).
    - by destruct (itoa_not_flag n).
    - destruct (extra_plain p extra kv Hord Hplain Hin) as [H1 H2].
      destruct H as [->| ->]; done. }
  split.
  - intros Hudp. split.
    + apply elem_of_append_extra_l.
      repeat first [rewrite elem_of_app | rewrite elem_of_append_if].
      rewrite (bool_decide_eq_true_2 _ Hudp), !elem_of_cons. intuition auto.
    + split_and!; intros Hx; apply Hgen in Hx;
        try (apply flag_mem; tauto);
        destruct Hx as [[_ ?]|[? _]]; done.
  - intros Htcp Hcc Hx. apply Hgen in Hx; [|apply flag_mem; tauto].
    destruct Hx as [[? _]|[_ [?|[?|[?|?]]]]]; try done.
Qed.

Lemma ToCommandArgs_protocol_flags_witness :
  let p := mkTestProfile "udp-fast" 10 ProtocolUDP "1G" "" 4 true false 0
             "cubic" 1400 true 0 false 0 {[ "--logfile" := "out.json" ]} in
  let args := ToCommandArgs_in [("--logfile", "out.json")] p in
  (Protocol p = ProtocolUDP ->
     "-u" ∈ args /\ ("-C" ∉ args) /\ ("-M" ∉ args) /\ ("-N" ∉ args)) /\
  (Protocol p <> ProtocolUDP -> CongestionControl p <> "-u" -> "-u" ∉ args).
Proof.
  apply (ToCommandArgs_protocol_flags
           (mkTestProfile "udp-fast" 10 ProtocolUDP "1G" "" 4 true false 0
              "cubic" 1400 true 0 false 0 {[ "--logfile" := "out.json" ]})
           [("--logfile", "out.json")]).
  - unfold extra_order. simpl. by rewrite map_to_list_singleton.
  - unfold operands_plain, tcp_udp_flags. simpl. split_and!.
    + rewrite !elem_of_cons, elem_of_nil. intros [H|[H|[H|[H|H]]]]; done.
    + rewrite !elem_of_cons, elem_of_nil. intros [H|[H|[H|[H|H]]]]; done.
    + intros flag value [<- <-]%lookup_singleton_Some.
      rewrite !elem_of_cons, !elem_of_nil.
      split; intros [H|[H|[H|[H|H]]]]; done.
Defined.

(** C9, the counterexample: a UDP profile whose extra flags carry -C has
    -C in its argv; a TCP profile whose extra flags carry -u has -u in its
    argv. *)
Lemma ToCommandArgs_extra_flags_leak :
  let udp := mkTestProfile "p" 10 ProtocolUDP "" "" 1 false false 0
               "" 0 false 0 false 0 {[ "-C" := "cubic" ]} in
  let tcp := mkTestProfile "q" 10 ProtocolTCP "" "" 1 false false 0
               "" 0 false 0 false 0 {[ "-u" := "" ]} in
  ToCommandArgs udp = ["-u"; "-t"; "10"; "-J"; "-C"; "cubic"] /\
  "-C" ∈ ToCommandArgs udp /\
  ToCommandArgs tcp = ["-t"; "10"; "-J"; "-u"] /\
  "-u" ∈ ToCommandArgs tcp.
Proof.
  assert (H1 : ToCommandArgs
            (mkTestProfile "p" 10 ProtocolUDP "" "" 1 false false 0
               "" 0 false 0 false 0 {[ "-C" := "cubic" ]})
          = ["-u"; "-t"; "10"; "-J"; "-C"; "cubic"]) by (vm_compute; reflexivity).
  assert (H2 : ToCommandArgs
            (mkTestProfile "q" 10 ProtocolTCP "" "" 1 false false 0
               "" 0 false 0 false 0 {[ "-u" := "" ]})
          = ["-t"; "10"; "-J"; "-u"]) by (vm_compute; reflexivity).
  simpl. rewrite H1, H2. rewrite !elem_of_cons. tauto.
Qed.

End ArgvTheorems.

(** ** The node registry *)

Section RegistryFacts.
Import Models.

Lemma built_ids r :
  built r ->
  NoDup (ID <$> nodeList r) /\
  (forall id, is_Some (nodes r !! id) <-> id ∈ ID <$> nodeList r).
Proof.
  induction 1 as [|r node r' Hr [IHnd IHdom] Hadd]; simpl.
  - split; [constructor|]. intros id. rewrite lookup_empty, elem_of_nil.
    split; [by intros [? ?]|done].
  - unfold AddNode in Hadd. case_bool_decide; [done|].
    destruct (nodes r !! ID node) eqn:Hlk; [done|]. injection Hadd as <-. simpl.
    rewrite fmap_app. simpl. split.
    + apply NoDup_app. split_and!; [done| |apply NoDup_singleton].
      intros id Hid ->%list_elem_of_singleton.
      apply IHdom in Hid as [? Hid]. congruence.
    + intros id. rewrite lookup_insert_is_Some, elem_of_app, list_elem_of_singleton, IHdom.
      split.
      * intros [<-|[_ ?]]; auto.
      * intros [?| ->]; [|by left].
        destruct (decide (ID node = id)); [by left|by right].
Qed.

Lemma built_NoDup r : built r -> NoDup (ID <$> nodeList r).
Proof. intros H. by apply built_ids. Qed.

End RegistryFacts.

(** ** The pair enumeration *)

Section MeshPairs.
Import Models Topology.


Lemma mesh_dest_spec g s st d :
  pairs_inv g st.1 ->
  let st' := mesh_dest g s st d in
  pairs_inv g st'.1 /\
  ServerPorts st'.1 = ServerPorts st.1 /\
  pair_nodes <$> Pairs st'.1
  = (pair_nodes <$> Pairs st.1) ++ (if decide (ID s <> ID d) then [(s, d)] else []).
Proof.
  intros (Hct & Hne & Hprof). unfold mesh_dest. case_bool_decide as Heq; simpl.
  - rewrite decide_False by (intros ?; done). by rewrite app_nil_r.
  - rewrite decide_True by done. split_and!; [|done|by rewrite fmap_app].
    split_and!; simpl.
    + intros n. rewrite filter_app, filter_cons, filter_nil. simpl.
      destruct (decide (ID s = n)) as [<-|Hn].
      * rewrite lookup_insert_eq. simpl. by rewrite Hct.
      * rewrite lookup_insert_ne by done. by rewrite Hct, app_nil_r.
    + intros n l. destruct (decide (ID s = n)) as [<-|Hn].
      * rewrite lookup_insert_eq. intros [= <-]. by destruct (default _ _).
      * rewrite lookup_insert_ne by done. apply Hne.
    + apply Forall_app. split; [done|]. by repeat constructor.
Qed.

Lemma mesh_inner_spec g s ds st :
  pairs_inv g st.1 ->
  let st' := foldl (mesh_dest g s) st ds in
  pairs_inv g st'.1 /\
  ServerPorts st'.1 = ServerPorts st.1 /\
  pair_nodes <$> Pairs st'.1
  = (pair_nodes <$> Pairs st.1)
    ++ ((fun d => (s, d)) <$> filter (fun d => ID s <> ID d) ds).
Proof.
  revert st. induction ds as [|d ds IH]; intros st Hinv; simpl.
  - by rewrite app_nil_r.
  - destruct (mesh_dest_spec g s st d Hinv) as (Hinv' & Hsp & Hpairs).
    destruct (IH _ Hinv') as (Hinv'' & Hsp' & Hpairs').
    split_and!; [done|congruence|].
    rewrite Hpairs', Hpairs, <- app_assoc. f_equal.
    rewrite filter_cons. by destruct (decide (ID s <> ID d)).
Qed.

Lemma mesh_outer_spec g ns ss st :
  pairs_inv g st.1 ->
  let st' := foldl (fun st source => foldl (mesh_dest g source) st ns) st ss in
  pairs_inv g st'.1 /\
  ServerPorts st'.1 = ServerPorts st.1 /\
  pair_nodes <$> Pairs st'.1
  = (pair_nodes <$> Pairs st.1)
    ++ (s ← ss; (fun d => (s, d)) <$> filter (fun d => ID s <> ID d) ns).
Proof.
  revert st. induction ss as [|s ss IH]; intros st Hinv; simpl.
  - by rewrite app_nil_r.
  - destruct (mesh_inner_spec g s ns st Hinv) as (Hinv' & Hsp & Hpairs).
    destruct (IH _ Hinv') as (Hinv'' & Hsp' & Hpairs').
    split_and!; [done|congruence|].
    by rewrite Hpairs', Hpairs, <- app_assoc.
Qed.

Lemma mesh_pairs_spec g ns :
  let t := (mesh_pairs g ns).1 in
  pairs_inv g t /\ ServerPorts t = ∅ /\
  pair_nodes <$> Pairs t = ordered_pairs ns.
Proof.
  unfold mesh_pairs.
  destruct (mesh_outer_spec g ns ns (mkTopology [] ∅ ∅, 0)) as (H1 & H2 & H3).
  - split_and!; simpl; [by intros; rewrite lookup_empty| |constructor].
    intros n l. by rewrite lookup_empty.
  - done.
Qed.

End MeshPairs.

(** ** The port loop *)

Section MeshPorts.
Import Models Topology.

Lemma wrap32_range z : - 2 ^ 31 <= GoInt.wrap32 z < 2 ^ 31.
Proof.
  unfold GoInt.wrap32. pose proof (Z.mod_pos_bound (z + 2 ^ 31) (2 ^ 32)). lia.
Qed.

Lemma wrap32_add_l a b : GoInt.wrap32 (GoInt.wrap32 a + b) = GoInt.wrap32 (a + b).
Proof.
  unfold GoInt.wrap32. f_equal.
  replace ((a + 2 ^ 31) mod 2 ^ 32 - 2 ^ 31 + b + 2 ^ 31)
    with ((a + 2 ^ 31) mod 2 ^ 32 + b) by lia.
  rewrite Z.add_mod_idemp_l by lia. f_equal. lia.
Qed.



Lemma fill_ports_spec n c :
  fill_ports n (GoInt.wrap32 c) = (port_block c n, GoInt.wrap32 (c + Z.of_nat n)).
Proof.
  unfold port_block. revert c. induction n as [|n IH]; intros c; simpl.
  - by rewrite Z.add_0_r.
  - unfold GoInt.add32. rewrite wrap32_add_l, IH. f_equal.
    + rewrite Z.add_0_r. f_equal. rewrite <- fmap_S_seq, <- list_fmap_compose.
      apply list_fmap_ext. intros _ i _. simpl. f_equal. lia.
    + f_equal. lia.
Qed.


Lemma port_block_lookup c n i :
  (i < n)%nat -> port_block c n !! i = Some (GoInt.wrap32 (c + Z.of_nat i)).
Proof.
  intros Hi. unfold port_block. rewrite list_lookup_fmap.
  by rewrite (proj2 (lookup_seq 0 n i i)) by done.
Qed.


Lemma mesh_ports_step np t c n :
  mesh_ports (Z.of_nat np) (t, GoInt.wrap32 c) n =
  (mkTopology (Pairs t) (<[ID n := port_block c np]> (ServerPorts t))
     (ClientTests t),
   GoInt.wrap32 (c + Z.of_nat np)).
Proof. unfold mesh_ports. simpl. by rewrite Nat2Z.id, fill_ports_spec. Qed.

Lemma mesh_ports_fold np ns t c :
  NoDup (ID <$> ns) ->
  let t' := (foldl (mesh_ports (Z.of_nat np)) (t, GoInt.wrap32 c) ns).1 in
  Pairs t' = Pairs t /\ ClientTests t' = ClientTests t /\
  (forall k n, ns !! k = Some n ->
     ServerPorts t' !! ID n = Some (port_block (c + Z.of_nat k * Z.of_nat np) np)) /\
  (forall id, id ∉ ID <$> ns -> ServerPorts t' !! id = ServerPorts t !! id).
Proof.
  revert t c. induction ns as [|n0 ns IH]; intros t c Hnd; simpl.
  - split_and!; try done; intros k n; by rewrite lookup_nil.
  - rewrite fmap_cons in Hnd. apply NoDup_cons in Hnd as [Hn0 Hnd].
    rewrite mesh_ports_step.
    destruct (IH (mkTopology (Pairs t)
                    (<[ID n0 := port_block c np]> (ServerPorts t)) (ClientTests t))
                 (c + Z.of_nat np) Hnd) as (Hp & Hc & Hk & Hother).
    simpl in *. split_and!; [done|done| |].
    + intros [|k] n Hlk; simpl in Hlk.
      * injection Hlk as <-. rewrite Hother by done.
        rewrite lookup_insert_eq. do 2 f_equal. lia.
      * rewrite (Hk k n Hlk). do 2 f_equal. lia.
    + intros id Hid. rewrite elem_of_cons in Hid.
      rewrite Hother by tauto. apply lookup_insert_ne. intros E. apply Hid. by left.
Qed.

End MeshPorts.

(** ** Lists of nodes with distinct ids *)

Section DistinctIds.
Import Models Topology.

Lemma list_filter_fmap_comm {A B} (f : A -> B) (P : B -> Prop)
    `{!forall y, Decision (P y)} (l : list A) :
  filter P (f <$> l) = f <$> filter (fun x => P (f x)) l.
Proof.
  induction l as [|x l IH]; [done|].
  rewrite fmap_cons, !filter_cons, IH. by destruct (decide (P (f x))).
Qed.

Lemma list_filter_bind {A B} (f : A -> list B) (P : B -> Prop)
    `{!forall y, Decision (P y)} (l : list A) :
  filter P (l ≫= f) = l ≫= (fun x => filter P (f x)).
Proof.
  induction l as [|x l IH]; [done|].
  by rewrite !bind_cons, filter_app, IH.
Qed.

Lemma list_bind_ext_in {A B} (f g : A -> list B) (l : list A) :
  (forall x, x ∈ l -> f x = g x) -> l ≫= f = l ≫= g.
Proof.
  induction l as [|x l IH]; intros H; [done|].
  rewrite !bind_cons, H, IH; [done| |apply elem_of_cons; by left].
  intros y Hy. apply H, elem_of_cons. by right.
Qed.

Lemma list_bind_filter_singleton {A B} (f : A -> B) (P : A -> Prop)
    `{!forall x, Decision (P x)} (l : list A) :
  l ≫= (fun x => if decide (P x) then [f x] else []) = f <$> filter P l.
Proof.
  induction l as [|x l IH]; [done|].
  rewrite bind_cons, filter_cons, IH. by destruct (decide (P x)).
Qed.

Variable ns : list Node.
Hypothesis ns_distinct : NoDup (ID <$> ns).

Lemma same_id_same_node x y : x ∈ ns -> y ∈ ns -> ID x = ID y -> x = y.
Proof.
  intros [i Hi]%list_elem_of_lookup [j Hj]%list_elem_of_lookup Hid.
  assert (i = j) as ->; [|congruence].
  eapply (NoDup_lookup (ID <$> ns)); [done|..];
    rewrite list_lookup_fmap; [by rewrite Hi|by rewrite Hj, Hid].
Qed.


Lemma filter_id_Some d : d ∈ ns -> filter (fun x => ID x = ID d) ns = [d].
Proof.
  intros Hd. revert ns_distinct Hd. clear. induction ns as [|x l IH]; intros Hnd Hd.
  - by apply elem_of_nil in Hd.
  - rewrite fmap_cons in Hnd. apply NoDup_cons in Hnd as [Hx Hnd].
    rewrite filter_cons. apply elem_of_cons in Hd as [->|Hd].
    + rewrite decide_True by done. f_equal.
      clear IH Hnd. induction l as [|y l IH]; [done|].
      rewrite fmap_cons, not_elem_of_cons in Hx. destruct Hx as [Hy Hl].
      rewrite filter_cons, decide_False by done. by apply IH.
    + rewrite decide_False; [by apply IH|].
      intros E. apply Hx. rewrite E. by apply list_elem_of_fmap_2.
Qed.

Lemma length_filter_other d :
  d ∈ ns -> S (length (filter (fun s => ID s <> ID d) ns)) = length ns.
Proof.
  intros Hd. pose proof (filter_id_Some d Hd) as Heq.
  pose proof (filter_app_complement (fun x => ID x = ID d) ns) as Hperm.
  apply Permutation_length in Hperm. rewrite length_app, Heq in Hperm.
  simpl in Hperm. by rewrite <- Hperm.
Qed.

Lemma length_filter_other' s :
  s ∈ ns -> S (length (filter (fun d => ID s <> ID d) ns)) = length ns.
Proof.
  intros Hs. rewrite <- (length_filter_other s Hs). do 2 f_equal.
  apply list_filter_iff. intros x. split; intros H E; by apply H.
Qed.

Lemma ordered_pairs_by_dest d :
  d ∈ ns ->
  filter (fun sd => ID sd.2 = ID d) (ordered_pairs ns)
  = (fun s => (s, d)) <$> filter (fun s => ID s <> ID d) ns.
Proof.
  intros Hd. unfold ordered_pairs. rewrite list_filter_bind.
  rewrite <- list_bind_filter_singleton. apply list_bind_ext_in. intros s Hs.
  rewrite list_filter_fmap_comm. simpl. rewrite list_filter_filter.
  destruct (decide (ID s <> ID d)) as [Hne|Heq].
  - rewrite (list_filter_iff _ (fun x => ID x = ID d)).
    + by rewrite filter_id_Some.
    + intros x. split; [tauto|]. intros E. split; [done|congruence].
  - assert (ID s = ID d) as E by (destruct (decide (ID s = ID d)); tauto).
    rewrite (list_filter_iff _ (fun _ => False)).
    + clear. by induction ns.
    + intros x. split; [|done]. intros [H1 H2]. apply H2. congruence.
Qed.


Lemma ordered_pairs_by_source s :
  s ∈ ns ->
  filter (fun sd => ID sd.1 = ID s) (ordered_pairs ns)
  = (fun d => (s, d)) <$> filter (fun d => ID s <> ID d) ns.
Proof.
  intros Hs. unfold ordered_pairs. rewrite list_filter_bind.
  transitivity (ns ≫= (fun x => if decide (ID x = ID s)
                     then (fun d => (s, d)) <$> filter (fun d => ID s <> ID d) ns
                     else [])).
  - apply list_bind_ext_in. intros x Hx.
    rewrite list_filter_fmap_comm. simpl. destruct (decide (ID x = ID s)) as [E|E].
    + rewrite (same_id_same_node x s Hx Hs E).
      f_equal. rewrite list_filter_filter. apply list_filter_iff. intros; tauto.
    + rewrite (list_filter_iff _ (fun _ => False)) by (intros; tauto).
      generalize (filter (fun d => ID x <> ID d) ns). intros l. by induction l.
  - pose proof (filter_id_Some s Hs) as Hf. revert Hf. clear.
    generalize ((fun d => (s, d)) <$> filter (fun d => ID s <> ID d) ns). intros k.
    induction ns as [|x l IH]; [done|].
    rewrite filter_cons, bind_cons. destruct (decide (ID x = ID s)).
    + intros [= -> Hl]. assert (l ≫= (fun x => if decide (ID x = ID s) then k else []) = []) as ->.
      { revert Hl. clear. induction l as [|y l IH]; [done|].
        rewrite filter_cons, bind_cons. destruct (decide (ID y = ID s)); [done|].
        intros H. by rewrite IH. }
      by rewrite app_nil_r.
    + intros Hl. by rewrite IH.
Qed.

Lemma ordered_pairs_unique s d :
  s ∈ ns -> d ∈ ns -> ID s <> ID d ->
  filter (fun sd => ID sd.1 = ID s /\ ID sd.2 = ID d) (ordered_pairs ns) = [(s, d)].
Proof.
  intros Hs Hd Hne.
  rewrite (list_filter_iff _ (fun sd => ID sd.2 = ID d /\ ID sd.1 = ID s))
    by (intros; tauto).
  rewrite <- list_filter_filter, ordered_pairs_by_source by done.
  rewrite list_filter_fmap_comm. simpl. rewrite list_filter_filter.
  rewrite (list_filter_iff _ (fun x => ID x = ID d)).
  - by rewrite filter_id_Some.
  - intros x. split; [tauto|]. intros E. split; [done|congruence].
Qed.

Lemma ordered_pairs_length :
  length (ordered_pairs ns) = (length ns * (length ns - 1))%nat.
Proof.
  unfold ordered_pairs.
  assert (forall l, (forall s, s ∈ l -> s ∈ ns) ->
            length (l ≫= (fun s => (fun d => (s, d)) <$>
                                     filter (fun d => ID s <> ID d) ns))
            = (length l * (length ns - 1))%nat) as H.
  { induction l as [|s l IH]; intros Hl; [done|].
    rewrite bind_cons, length_app, length_fmap, IH.
    - pose proof (length_filter_other' s (Hl s ltac:(apply elem_of_cons; by left))).
      simpl. lia.
    - intros x Hx. apply Hl, elem_of_cons. by right. }
  by apply H.
Qed.

Lemma ordered_pairs_elem s d :
  (s, d) ∈ ordered_pairs ns <-> s ∈ ns /\ d ∈ ns /\ ID s <> ID d.
Proof.
  unfold ordered_pairs. rewrite list_elem_of_bind. split.
  - intros (x & Hin & Hx). apply list_elem_of_fmap in Hin as (y & [= -> ->] & Hy).
    apply list_elem_of_filter in Hy. tauto.
  - intros (Hs & Hd & Hne). exists s. split; [|done].
    apply list_elem_of_fmap. exists d. split; [done|].
    by apply list_elem_of_filter.
Qed.

End DistinctIds.

(** ** The per-node assignment builder *)

Section NodeTopologies.
Import Models Topology.

Lemma index_of_Some s l i : index_of s l = Some i -> l !! i = Some s.
Proof.
  revert i. induction l as [|x l IH]; intros i; simpl; [done|].
  case_bool_decide as Hx.
  - intros [= <-]. by rewrite Hx.
  - destruct (index_of s l) as [j|]; simpl; [|done]. intros [= <-]. by apply IH.
Qed.

Lemma index_of_None s l : index_of s l = None <-> s ∉ l.
Proof.
  induction l as [|x l IH]; simpl.
  - split; [intros _; apply not_elem_of_nil|done].
  - rewrite not_elem_of_cons. case_bool_decide as Hx.
    + split; [done|]. intros [H _]. by destruct H.
    + destruct (index_of s l); simpl.
      * split; [done|]. intros [_ H]. by apply IH in H.
      * split; [|done]. intros _. split; [congruence|]. by apply IH.
Qed.

Lemma index_of_NoDup s l i : NoDup l -> l !! i = Some s -> index_of s l = Some i.
Proof.
  intros Hnd Hi. destruct (index_of s l) as [j|] eqn:Hj.
  - apply index_of_Some in Hj. f_equal. by eapply NoDup_lookup.
  - apply index_of_None in Hj. destruct Hj. by eapply list_elem_of_lookup_2.
Qed.












End NodeTopologies.

Section NodeTopologiesLoops.
Import Models Topology.

Variable t : Topology.
Variable port_of : TestPair -> Z.





End NodeTopologiesLoops.

Section NodeTopologiesSpec.
Import Models Topology.

Variable t : Topology.
Hypothesis pairs_have_ports : forall p, p ∈ Pairs t -> is_Some (pair_port t p).
Hypothesis sources_distinct : forall n, NoDup (source_nodes t n).
Hypothesis clients_indexed :
  forall n, default [] (ClientTests t !! n)
            = filter (fun p => ID (Source p) = n) (Pairs t).
Hypothesis ports_nonempty :
  forall n ports, ServerPorts t !! n = Some ports -> ports <> [].





End NodeTopologiesSpec.

(** ** The full mesh over a registry with distinct ids *)

Section FullMesh.
Import Models Topology.

Variable g : Generator.
Let ns := GetAllNodes (nodes g).
Hypothesis ns_distinct : NoDup (ID <$> ns).
Hypothesis ns_two : (2 <= length ns)%nat.
Hypothesis ns_slice : is_slice ns.


Lemma GenerateFullMesh_mesh : GenerateFullMesh g = Ret (mesh g).
Proof.
  unfold GenerateFullMesh, mesh. fold ns.
  rewrite bool_decide_eq_false_2 by (unfold GoInt.len; lia).
  destruct (mesh_pairs g ns) as [t c] eqn:Hmp. simpl.
  unfold GoInt.sub. rewrite wrap64_small.
  2:{ unfold is_slice, GoInt.len, GoInt.min_int, GoInt.max_int in *. lia. }
  unfold GoInt.len. replace (Z.of_nat (length ns) - 1) with (Z.of_nat (length ns - 1)) by lia.
  by rewrite (wrap32_small 5201) by lia.
Qed.

Lemma mesh_Pairs : Pairs (mesh g) = Pairs (mesh_pairs g ns).1.
Proof. unfold mesh. by destruct (mesh_ports_fold (length ns - 1) ns (mesh_pairs g ns).1 5201 ns_distinct) as (? & _). Qed.

Lemma mesh_ClientTests : ClientTests (mesh g) = ClientTests (mesh_pairs g ns).1.
Proof. unfold mesh. by destruct (mesh_ports_fold (length ns - 1) ns (mesh_pairs g ns).1 5201 ns_distinct) as (_ & ? & _). Qed.

Lemma mesh_pair_nodes : pair_nodes <$> Pairs (mesh g) = ordered_pairs ns.
Proof. rewrite mesh_Pairs. by destruct (mesh_pairs_spec g ns) as (_ & _ & ?). Qed.

Lemma mesh_pairs_inv : pairs_inv g (mesh g).
Proof.
  destruct (mesh_pairs_spec g ns) as ((H1 & H2 & H3) & _ & _).
  unfold pairs_inv. rewrite mesh_Pairs, mesh_ClientTests. done.
Qed.


Lemma mesh_ServerPorts k n :
  ns !! k = Some n -> ServerPorts (mesh g) !! ID n = Some (node_block g k).
Proof.
  intros Hk. unfold mesh.
  destruct (mesh_ports_fold (length ns - 1) ns (mesh_pairs g ns).1 5201 ns_distinct)
    as (_ & _ & H & _). by apply H.
Qed.

Lemma mesh_ServerPorts_None id : id ∉ ID <$> ns -> ServerPorts (mesh g) !! id = None.
Proof.
  intros Hid. unfold mesh.
  destruct (mesh_ports_fold (length ns - 1) ns (mesh_pairs g ns).1 5201 ns_distinct)
    as (_ & _ & _ & H). rewrite H by done.
  destruct (mesh_pairs_spec g ns) as (_ & -> & _). apply lookup_empty.
Qed.

Lemma mesh_pair_elem p :
  p ∈ Pairs (mesh g) ->
  Source p ∈ ns /\ Destination p ∈ ns /\ ID (Source p) <> ID (Destination p).
Proof.
  intros Hp. apply (ordered_pairs_elem ns). rewrite <- mesh_pair_nodes.
  apply list_elem_of_fmap. by exists p.
Qed.

(** The pairs into [d], by source. *)
Lemma mesh_pairs_into d :
  d ∈ ns ->
  pair_nodes <$> filter (fun p => ID (Destination p) = ID d) (Pairs (mesh g))
  = (fun s => (s, d)) <$> filter (fun s => ID s <> ID d) ns.
Proof.
  intros Hd. rewrite <- (ordered_pairs_by_dest ns ns_distinct d Hd).
  rewrite <- mesh_pair_nodes. by rewrite list_filter_fmap_comm.
Qed.

(** The pairs out of [s], by destination. *)
Lemma mesh_pairs_from s :
  s ∈ ns ->
  pair_nodes <$> filter (fun p => ID (Source p) = ID s) (Pairs (mesh g))
  = (fun d => (s, d)) <$> filter (fun d => ID s <> ID d) ns.
Proof.
  intros Hs. rewrite <- (ordered_pairs_by_source ns ns_distinct s Hs).
  rewrite <- mesh_pair_nodes. by rewrite list_filter_fmap_comm.
Qed.

(** Exactly one pair per ordered pair of distinct nodes. *)
Lemma mesh_pair_unique s d :
  s ∈ ns -> d ∈ ns -> ID s <> ID d ->
  exists p,
    filter (fun p => ID (Source p) = ID s /\ ID (Destination p) = ID d) (Pairs (mesh g))
    = [p] /\ Source p = s /\ Destination p = d.
Proof.
  intros Hs Hd Hne.
  pose proof (ordered_pairs_unique ns ns_distinct s d Hs Hd Hne) as H.
  rewrite <- mesh_pair_nodes, list_filter_fmap_comm in H. simpl in H.
  destruct (filter _ (Pairs (mesh g))) as [|p [|q l]]; try done.
  exists p. injection H as H1 H2. done.
Qed.

Lemma mesh_source_nodes d :
  d ∈ ns ->
  source_nodes (mesh g) (ID d) = ID <$> filter (fun s => ID s <> ID d) ns.
Proof.
  intros Hd. unfold source_nodes.
  transitivity ((fun sd : Node * Node => ID sd.1) <$>
    (pair_nodes <$> filter (fun p => ID (Destination p) = ID d) (Pairs (mesh g)))).
  - by rewrite <- list_fmap_compose.
  - rewrite mesh_pairs_into by done. by rewrite <- list_fmap_compose.
Qed.


Lemma others_distinct d : NoDup (ID <$> filter (fun s => ID s <> ID d) ns).
Proof.
  revert ns_distinct. clear. induction ns as [|x l IH]; intros Hnd; [constructor|].
  rewrite fmap_cons in Hnd. apply NoDup_cons in Hnd as [Hx Hnd].
  rewrite filter_cons. case_decide; [|by apply IH].
  rewrite fmap_cons. apply NoDup_cons. split; [|by apply IH].
  intros (y & Hy & Hin)%list_elem_of_fmap. apply list_elem_of_filter in Hin as [_ Hin].
  apply Hx. rewrite Hy. by apply list_elem_of_fmap_2.
Qed.


(** The port of the pair from the [i]-th other node into node number [k]. *)
Lemma mesh_pair_port k d i s p :
  ns !! k = Some d -> filter (fun s => ID s <> ID d) ns !! i = Some s ->
  Source p = s -> Destination p = d ->
  pair_port (mesh g) p = Some (GoInt.wrap32
    (5201 + Z.of_nat k * Z.of_nat (length ns - 1) + Z.of_nat i)).
Proof.
  intros Hk Hi <- <-. unfold pair_port.
  assert (Destination p ∈ ns) as Hd by (by eapply list_elem_of_lookup_2).
  rewrite mesh_source_nodes by done.
  rewrite (index_of_NoDup _ _ i); [|apply others_distinct|].
  2:{ by rewrite list_lookup_fmap, Hi. }
  simpl. rewrite (mesh_ServerPorts k _ Hk). simpl.
  apply port_block_lookup.
  pose proof (length_filter_other ns ns_distinct _ Hd).
  apply lookup_lt_Some in Hi. fold ns. lia.
Qed.




End FullMesh.

Section FullMeshAssignments.
Import Models Topology.

Variable g : Generator.
Let ns := GetAllNodes (nodes g).
Hypothesis ns_distinct : NoDup (ID <$> ns).
Hypothesis ns_two : (2 <= length ns)%nat.

Let topo := mesh g.
Let port (p : TestPair) : Z := the_port topo p.





End FullMeshAssignments.

(** ** The topology claims *)

Section TopologyClaims.
Import Models Topology.

Lemma pairs_inv_clients g t :
  pairs_inv g t ->
  forall n, default [] (ClientTests t !! n)
            = filter (fun p => ID (Source p) = n) (Pairs t).
Proof. by intros (H & _). Qed.


End TopologyClaims.

Section ScenarioFacts.
Import Models Topology Scenario.

Lemma registry1_built : built registry1.
Proof.
  apply (built_add NewNodeRegistry node_a registry1 built_new).
  vm_compute. reflexivity.
Defined.

Lemma registry2_built : built registry2.
Proof.
  apply (built_add registry1 node_b registry2 registry1_built).
  vm_compute. reflexivity.
Defined.

Lemma registry3_built : built registry3.
Proof.
  apply (built_add registry2 node_c registry3 registry2_built).
  vm_compute. reflexivity.
Defined.

(** E1: the server ports of the three-node mesh. *)
Example E1_server_ports :
  exists topo,
    GenerateFullMesh generator3 = Ret topo /\
    GoInt.len (Pairs topo) = 6 /\
    ServerPorts topo !! "a" = Some [5201; 5202] /\
    ServerPorts topo !! "b" = Some [5203; 5204] /\
    ServerPorts topo !! "c" = Some [5205; 5206].
Proof. eexists. split; [vm_compute; reflexivity|]. vm_compute. auto. Qed.

End ScenarioFacts.

Section TopologyWitnesses.
Import Models Topology Scenario.



End TopologyWitnesses.

Section BidirectionalClaims.
Import Models Topology Scenario.

Lemma bidir_flag_passed p extra :
  Bidirectional p = true -> "--bidir" ∈ ToCommandArgs_in extra p.
Proof.
  intros Hb. unfold ToCommandArgs_in. apply elem_of_append_extra_l.
  repeat first [rewrite elem_of_app | rewrite elem_of_append_if].
  rewrite Hb, !elem_of_cons. intuition auto.
Qed.

(** C3, the counterexample: over two nodes with a bidirectional default
    profile, the test matrix's full-mesh generation yields four assignments;
    each ordered pair gets two, the second being the reverse assignment
    created for the other direction. *)
Lemma matrix_bidirectional_adds_reverse_pair :
  exists l,
    built (Matrix.Nodes matrix2) /\
    Matrix.GenerateFullMesh matrix2 = Ret l /\
    (fun a => (Matrix.ID a, ID (Matrix.Source a), ID (Matrix.Destination a))) <$> l
    = [("test-1", "a", "b"); ("test-2", "b", "a");
       ("test-3", "b", "a"); ("test-4", "a", "b")] /\
    length (filter (fun a => ID (Matrix.Source a) = "a" /\
                             ID (Matrix.Destination a) = "b") l) = 2%nat.
Proof.
  eexists. split; [exact registry2_built|].
  split; [vm_compute; reflexivity|]. split; vm_compute; reflexivity.
Qed.

End BidirectionalClaims.

(** ** The summary of the aggregator *)

Section AggregatorClaims.
Import Aggregator.

Lemma wrap64_succ a : GoInt.add (GoInt.wrap64 a) 1 = GoInt.wrap64 (a + 1).
Proof.
  unfold GoInt.add. rewrite (Z.add_comm (GoInt.wrap64 a)), wrap64_add_r.
  f_equal. lia.
Qed.

Lemma summary_step_spec s tot r :
  let st' := summary_step (s, tot) r in
  AvgThroughput st'.1 = AvgThroughput s /\
  (Status r = "TEST_STATUS_COMPLETED" ->
     CompletedTests st'.1 = GoInt.add (CompletedTests s) 1 /\
     st'.2 = if PrimFloat.ltb 0 (ThroughputBps r)
             then PrimFloat.add tot (ThroughputBps r) else tot) /\
  (Status r <> "TEST_STATUS_COMPLETED" ->
     CompletedTests st'.1 = CompletedTests s /\ st'.2 = tot).
Proof.
  unfold summary_step. case_bool_decide as Hst.
  - destruct (PrimFloat.ltb 0 (ThroughputBps r)); simpl; tauto.
  - case_bool_decide; simpl; tauto.
Qed.

(** The state of the summary loop after the results [l], from a state with
    [c] completed results and total [tot]. *)
Lemma summary_loop l s tot c :
  CompletedTests s = GoInt.wrap64 c ->
  let st := foldl summary_step (s, tot) l in
  AvgThroughput st.1 = AvgThroughput s /\
  CompletedTests st.1 = GoInt.wrap64 (c + GoInt.len (completed l)) /\
  st.2 = foldl PrimFloat.add tot (ThroughputBps <$> with_throughput (completed l)).
Proof.
  revert s tot c. induction l as [|r l IH]; intros s tot c Hc.
  - simpl. unfold GoInt.len. simpl. by rewrite Z.add_0_r.
  - cbn [foldl]. destruct (summary_step_spec s tot r) as (Havg & Hyes & Hno).
    destruct (summary_step (s, tot) r) as [s' tot'] eqn:Hstep. simpl in *.
    unfold completed, with_throughput in *. rewrite filter_cons.
    destruct (decide (Status r = "TEST_STATUS_COMPLETED")) as [Hst|Hst].
    + destruct (Hyes Hst) as [Hc' Htot'].
      destruct (IH s' tot' (c + 1)) as (H0 & H1 & H2).
      { rewrite Hc', Hc. apply wrap64_succ. }
      split; [congruence|].
      split; [rewrite H1; f_equal; unfold GoInt.len; simpl; lia|].
      rewrite H2, Htot', filter_cons.
      destruct (PrimFloat.ltb 0 (ThroughputBps r)) eqn:Hpos.
      * by rewrite decide_True by done.
      * by rewrite decide_False by done.
    + destruct (Hno Hst) as [Hc' Htot'].
      destruct (IH s' tot' c) as (H0 & H1 & H2); [congruence|].
      split; [congruence|]. split; [done|]. by rewrite H2, Htot'.
Qed.

(** C4 (as amended).  For every set of collected results (that fits a Go
    map) and every iteration order, the summary's avg_throughput_bps equals
    the sum of throughput_bps over the completed results whose
    throughput_bps > 0, added in iteration order, divided by the number of
    all completed results (and 0 when there are none). *)
Theorem avg_throughput_over_completed a order :
  result_order a order ->
  GetResultCount a <= GoInt.max_int ->
  AvgThroughput (GetSummary_in order a) =
  if bool_decide (GoInt.len (completed order) > 0)
  then PrimFloat.div (throughput_sum (with_throughput (completed order)))
         (float_of_int (GoInt.len (completed order)))
  else 0%float.
Proof.
  intros Horder Hfit. unfold GetSummary_in.
  match goal with |- context [foldl summary_step (?s', ?t') order] =>
    pose proof (summary_loop order s' t' 0 eq_refl) as Hloop;
    destruct (foldl summary_step (s', t') order) as [s tot] eqn:Hfold end.
  simpl in Hloop. destruct Hloop as (Havg & Hc & Htot). simpl.
  assert (GoInt.len (completed order) <= GoInt.max_int) as Hsmall.
  { unfold GetResultCount, GoInt.map_len, GoInt.len in *.
    pose proof (length_filter (fun r => Status r = "TEST_STATUS_COMPLETED") order).
    unfold completed. apply Permutation_length in Horder.
    rewrite length_fmap, length_map_to_list in Horder. lia. }
  rewrite wrap64_small in Hc
    by (unfold GoInt.len, GoInt.min_int, GoInt.max_int in *; lia).
  rewrite Hc, Z.add_0_l, Havg. case_bool_decide; [by rewrite Htot|done].
Qed.

End AggregatorClaims.

Section AggregatorWitnesses.
Import Aggregator.

Lemma avg_throughput_over_completed_witness :
  let r1 := mkTestResult "t1" "a" "b" "TEST_STATUS_COMPLETED" 0 5 5 "" 100%float 0 in
  let r2 := mkTestResult "t2" "b" "a" "TEST_STATUS_COMPLETED" 0 5 5 "" 0%float 0 in
  let r3 := mkTestResult "t3" "a" "c" "TEST_STATUS_FAILED" 0 5 5 "refused" 0%float 0 in
  let a := addResult r3 (addResult r2 (addResult r1 NewAggregator)) in
  let order := (map_to_list (results a)).*2 in
  AvgThroughput (GetSummary_in order a) =
  if bool_decide (GoInt.len (completed order) > 0)
  then PrimFloat.div (throughput_sum (with_throughput (completed order)))
         (float_of_int (GoInt.len (completed order)))
  else 0%float.
Proof.
  intros r1 r2 r3 a order.
  apply (avg_throughput_over_completed a order).
  - unfold result_order. reflexivity.
  - vm_compute. discriminate.
Defined.

(** C4, the counterexample: with two completed results of throughput 100
    and 0 bits per second, the summary's average is 50, while the mean over
    the completed results with throughput > 0 is 100. *)
Lemma avg_throughput_divides_by_all_completed :
  let r1 := mkTestResult "t1" "a" "b" "TEST_STATUS_COMPLETED" 0 5 5 "" 100%float 0 in
  let r2 := mkTestResult "t2" "b" "a" "TEST_STATUS_COMPLETED" 0 5 5 "" 0%float 0 in
  let a := addResult r2 (addResult r1 NewAggregator) in
  let order := (map_to_list (results a)).*2 in
  AvgThroughput (GetSummary a) = 50%float /\
  throughput_mean (with_throughput (completed order)) = 100%float /\
  PrimFloat.ltb (AvgThroughput (GetSummary a))
    (throughput_mean (with_throughput (completed order))) = true.
Proof. vm_compute. auto. Qed.

End AggregatorWitnesses.

(** ** The StartServers and StartClients handlers *)

Section ServerClaims.
Import Server.

Context {Manager : Type}.
Variable StartServer : Z -> Manager -> option string * Manager.
Variable StartClient :
  string -> string -> Z -> IperfConfig -> Manager -> option string * Manager.

Lemma start_server_loop ports startedPorts errors m :
  (foldl (start_server StartServer) (startedPorts, errors, m) ports).1
  = (startedPorts ++ omap started (server_calls StartServer ports m),
     errors ++ omap port_error (server_calls StartServer ports m)).
Proof.
  revert startedPorts errors m.
  induction ports as [|port ports IH]; intros startedPorts errors m; simpl.
  - by rewrite !app_nil_r.
  - unfold started at 1, port_error at 1.
    destruct (StartServer port m) as [[err|] m']; simpl;
      rewrite IH, <- ?app_assoc; done.
Qed.

Lemma start_client_loop targets startedTestIDs errors m :
  (foldl (start_client StartClient) (startedTestIDs, errors, m) targets).1
  = (startedTestIDs ++
       (TestId <$> omap started (client_calls StartClient targets m)),
     errors ++ omap target_error (client_calls StartClient targets m)).
Proof.
  revert startedTestIDs errors m.
  induction targets as [|target targets IH]; intros startedTestIDs errors m; simpl.
  - by rewrite !app_nil_r.
  - unfold started at 1, target_error at 1.
    destruct (StartClient _ _ _ _ m) as [[err|] m']; simpl;
      rewrite IH, <- ?app_assoc; done.
Qed.

Lemma omap_started_nonempty {A} (calls : list (A * option string)) :
  (0 < length (omap started calls))%nat <-> exists x, (x, None) ∈ calls.
Proof.
  induction calls as [|[x [e|]] calls IH]; simpl.
  - split; [lia|]. intros [x Hx]. by apply elem_of_nil in Hx.
  - unfold started at 1. simpl. rewrite IH. split; intros [y Hy]; exists y.
    + apply elem_of_cons. by right.
    + apply elem_of_cons in Hy as [|]; [done|done].
  - unfold started at 1. simpl. split; [|lia]. intros _. exists x.
    apply elem_of_cons. by left.
Qed.

Lemma omap_started_errors_length {A} (calls : list (A * option string))
    (line : A * option string -> option string) :
  (forall c, is_Some (line c) <-> is_Some c.2) ->
  (length (omap started calls) + length (omap line calls))%nat = length calls.
Proof.
  intros Hline. induction calls as [|[x e] calls IH]; simpl; [done|].
  unfold started at 1. pose proof (Hline (x, e)) as Hx. simpl in *.
  unfold omap in IH. destruct e as [e|]; simpl.
  - destruct (line (x, Some e)); simpl; [lia|]. by destruct (proj2 Hx).
  - destruct (line (x, None)); simpl; [|lia]. by destruct (proj1 Hx).
Qed.

Lemma server_calls_length ports m :
  length (server_calls StartServer ports m) = length ports.
Proof. revert m. induction ports; intros m; simpl; [done|]. by rewrite IHports. Qed.

Lemma client_calls_length targets m :
  length (client_calls StartClient targets m) = length targets.
Proof. revert m. induction targets; intros m; simpl; [done|]. by rewrite IHtargets. Qed.

(** C7.  For every StartServers request (respectively StartClients
    request), whatever the process manager does on each call: the response
    has success = true if and only if at least one port (respectively
    target) was started; started_ports[] (respectively started_test_ids[])
    lists, in request order, exactly the items whose start succeeded;
    errors[] holds, in request order, exactly one line for every item whose
    start failed; so every item of the request is in one of the two
    lists. *)
Theorem start_handlers_report_every_item :
  (forall (req : StartServersRequest) (m : Manager),
     let resp := (StartServers StartServer req m).1 in
     let calls := server_calls StartServer (Ports req) m in
     (ServersSuccess resp = true <-> exists port, (port, None) ∈ calls) /\
     StartedPorts resp = omap started calls /\
     ServersErrors resp = omap port_error calls /\
     (length (StartedPorts resp) + length (ServersErrors resp))%nat
     = length (Ports req)) /\
  (forall (req : StartClientsRequest) (m : Manager),
     let resp := (StartClients StartClient req m).1 in
     let calls := client_calls StartClient (Targets req) m in
     (ClientsSuccess resp = true <-> exists target, (target, None) ∈ calls) /\
     StartedTestIds resp = TestId <$> omap started calls /\
     ClientsErrors resp = omap target_error calls /\
     (length (StartedTestIds resp) + length (ClientsErrors resp))%nat
     = length (Targets req)).
Proof.
  split.
  - intros req m resp calls. subst resp calls. unfold StartServers.
    case_bool_decide as Hempty.
    + destruct (Ports req) as [|p l]; [|unfold GoInt.len in Hempty; simpl in Hempty; lia].
      simpl. split_and!; try done. split; [done|].
      intros [x Hx]. by apply elem_of_nil in Hx.
    + pose proof (start_server_loop (Ports req) [] [] m) as Hloop.
      destruct (foldl _ _ (Ports req)) as [[startedPorts errors] m'].
      simpl in Hloop. injection Hloop as -> ->. simpl. split_and!; try done.
      * rewrite bool_decide_eq_true. unfold GoInt.len.
        rewrite <- omap_started_nonempty. lia.
      * rewrite omap_started_errors_length, server_calls_length; [done|].
        intros [x [e|]]; simpl; split; intros [? ?]; eauto; done.
  - intros req m resp calls. subst resp calls. unfold StartClients.
    case_bool_decide as Hempty.
    + destruct (Targets req) as [|p l]; [|unfold GoInt.len in Hempty; simpl in Hempty; lia].
      simpl. split_and!; try done. split; [done|].
      intros [x Hx]. by apply elem_of_nil in Hx.
    + pose proof (start_client_loop (Targets req) [] [] m) as Hloop.
      destruct (foldl _ _ (Targets req)) as [[startedTestIDs errors] m'].
      simpl in Hloop. injection Hloop as -> ->. simpl. split_and!; try done.
      * rewrite bool_decide_eq_true. unfold GoInt.len.
        rewrite length_fmap, <- omap_started_nonempty. lia.
      * rewrite length_fmap, omap_started_errors_length, client_calls_length; [done|].
        intros [x [e|]]; simpl; split; intros [? ?]; eauto; done.
Qed.

End ServerClaims.

(** A daemon with one free slot asked for two servers: the first starts,
    the second is refused, and the response still reports success. *)
Example StartServers_partial_success :
  let start_server port (c : Process.CapacityCalculator) :=
    match Process.ReserveSlots 1 c with
    | (Ret _, c') => (None, c')
    | (_, c') => (Some "insufficient capacity", c')
    end in
  let resp :=
    (Server.StartServers start_server
       (Server.mkStartServersRequest [5201; 5202] 30)
       (Process.NewCapacityCalculator 1)).1 in
  Server.ServersSuccess resp = true /\
  Server.StartedPorts resp = [5201] /\
  Server.ServersErrors resp = ["port 5202: insufficient capacity"] /\
  Server.ServersMessage resp = "started 1/2 servers".
Proof. vm_compute. auto. Qed.

(** ** The allocator: further properties *)

Section PortMore.
Import Port.


Lemma elem_of_port_range a p :
  p ∈ port_range a <-> startPort a <= p <= endPort a.
Proof. unfold port_range. rewrite elem_of_seqZ. lia. Qed.

Lemma elem_of_free_ports a p :
  p ∈ free_ports a <->
  startPort a <= p <= endPort a /\ IsPortAllocated a p = false.
Proof.
  unfold free_ports. rewrite list_elem_of_filter, elem_of_port_range. tauto.
Qed.

Lemma step_bounds_kept a o :
  startPort (step a o) = startPort a /\ endPort (step a o) = endPort a.
Proof.
  destruct o as [t|c|t|q|]; simpl.
  - unfold AllocatePort. destruct (testIDToPort a !! t); [done|].
    by destruct (first_free _ _).
  - unfold AllocatePorts. repeat case_bool_decide; done.
  - unfold ReleasePort. by destruct (testIDToPort a !! t).
  - unfold ReleasePortByNumber. by destruct (allocated _ _).
  - done.
Qed.

Lemma run_bounds_kept ops a :
  startPort (run a ops) = startPort a /\ endPort (run a ops) = endPort a.
Proof.
  unfold run. revert a. induction ops as [|o ops IH]; intros a; simpl; [done|].
  destruct (IH (step a o)) as [-> ->]. apply step_bounds_kept.
Qed.

Lemma marks_sound_new s e a : NewAllocator s e = Ret a -> marks_sound a.
Proof.
  unfold NewAllocator. repeat case_bool_decide; try done.
  intros [= <-] p b. simpl. by rewrite lookup_empty.
Qed.

Lemma marks_sound_delete a port m1 m2 :
  marks_sound a ->
  marks_sound (mkAllocator (startPort a) (endPort a)
                 (delete port (allocatedPorts a)) m1 m2).
Proof.
  intros H p b. simpl. intros Hp. apply lookup_delete_Some in Hp as [_ Hp].
  by apply H.
Qed.

Lemma mark_all_lookup ports m p b :
  mark_all m ports !! p = Some b -> (p ∈ ports /\ b = true) \/ m !! p = Some b.
Proof.
  unfold mark_all. revert m. induction ports as [|q ports IH]; intros m; simpl.
  - by right.
  - intros H. apply IH in H as [[Hin ->]|H].
    + left. split; [|done]. rewrite elem_of_cons. by right.
    + destruct (decide (q = p)) as [->|Hne].
      * rewrite lookup_insert_eq in H. injection H as <-.
        left. split; [|done]. rewrite elem_of_cons. by left.
      * rewrite lookup_insert_ne in H by done. by right.
Qed.

Lemma marks_sound_mark_all a ports m1 m2 :
  marks_sound a ->
  (forall p, p ∈ ports -> startPort a <= p <= endPort a) ->
  marks_sound (mkAllocator (startPort a) (endPort a)
                 (mark_all (allocatedPorts a) ports) m1 m2).
Proof.
  intros H Hports p b. simpl. intros Hp.
  apply mark_all_lookup in Hp as [[Hin ->]|Hp]; [|by apply H].
  split; [done|]. by apply Hports.
Qed.

Lemma marks_sound_step a o : marks_sound a -> marks_sound (step a o).
Proof.
  intros H. destruct o as [t|c|t|q|]; simpl.
  - unfold AllocatePort. destruct (testIDToPort a !! t); [done|].
    destruct (first_free _ _) as [port|] eqn:Hff; [|done]. simpl.
    apply first_free_spec in Hff as [Hin _].
    apply elem_of_port_range in Hin.
    intros p b. simpl. intros Hp. destruct (decide (port = p)) as [->|Hne].
    + rewrite lookup_insert_eq in Hp. by injection Hp as <-.
    + rewrite lookup_insert_ne in Hp by done. by apply H.
  - unfold AllocatePorts. case_bool_decide; [done|].
    rewrite collect_free_spec by (unfold GoInt.len; simpl; lia).
    case_bool_decide; [done|]. simpl.
    apply marks_sound_mark_all; [done|].
    intros p Hp. apply elem_of_take in Hp as (i & Hp & _).
    apply list_elem_of_lookup_2, list_elem_of_filter in Hp as [_ Hp].
    by apply elem_of_port_range.
  - unfold ReleasePort. destruct (testIDToPort a !! t); [|done]. simpl.
    by apply marks_sound_delete.
  - unfold ReleasePortByNumber. destruct (allocated _ _); [|done]. simpl.
    by apply marks_sound_delete.
  - intros p b. simpl. by rewrite lookup_empty.
Qed.

Lemma marks_sound_run ops a : marks_sound a -> marks_sound (run a ops).
Proof.
  unfold run. revert a. induction ops as [|o ops IH]; intros a H; simpl; [done|].
  by apply IH, marks_sound_step.
Qed.

Lemma marks_sound_allocated a p :
  marks_sound a ->
  (IsPortAllocated a p = true <-> is_Some (allocatedPorts a !! p)) /\
  (IsPortAllocated a p = false <-> allocatedPorts a !! p = None).
Proof.
  intros H. unfold IsPortAllocated, allocated.
  destruct (allocatedPorts a !! p) as [b|] eqn:Hp; simpl.
  - destruct (H p b Hp) as [-> _]. split; split; done.
  - split; split; done.
Qed.

Lemma marks_sound_size a :
  marks_sound a -> startPort a <= endPort a + 1 ->
  Z.of_nat (size (allocatedPorts a)) <= endPort a - startPort a + 1.
Proof.
  intros H Hle.
  assert (dom (allocatedPorts a) ⊆ (list_to_set (port_range a) : gset Z)) as Hsub.
  { intros p Hp. apply elem_of_dom in Hp as [b Hp].
    apply elem_of_list_to_set, elem_of_port_range. by apply (H p b). }
  apply subseteq_size in Hsub. rewrite size_dom in Hsub.
  rewrite size_list_to_set in Hsub by apply NoDup_seqZ.
  unfold port_range in Hsub. rewrite length_seqZ in Hsub. lia.
Qed.



(** X2.  In every state reached from [NewAllocator] by the allocator's
    operations, no port is held by two test ids: if [GetPortForTest] finds
    the same port for two ids, the ids are equal, and [GetTestForPort]
    maps that port back to the id. *)
Theorem tests_never_share_a_port s e a0 ops t1 t2 p :
  NewAllocator s e = Ret a0 ->
  GetPortForTest (run a0 ops) t1 = (p, true) ->
  GetPortForTest (run a0 ops) t2 = (p, true) ->
  t1 = t2 /\ GetTestForPort (run a0 ops) p = (t1, true).
Proof.
  intros Hnew H1 H2.
  destruct (index_sound_run ops a0 (index_sound_new s e a0 Hnew)) as [Hs _].
  unfold GetPortForTest in H1, H2.
  destruct (testIDToPort (run a0 ops) !! t1) as [p1|] eqn:E1; [|done].
  destruct (testIDToPort (run a0 ops) !! t2) as [p2|] eqn:E2; [|done].
  injection H1 as ->. injection H2 as ->.
  destruct (Hs _ _ E1) as [_ Hb1]. destruct (Hs _ _ E2) as [_ Hb2].
  unfold GetTestForPort. rewrite Hb1. split; [congruence|done].
Qed.

Lemma tests_never_share_a_port_witness :
  let ops := [OpAllocatePort "x"; OpAllocatePort "y"; OpReleasePort "x";
              OpAllocatePort "z"] in
  "z" = "z" /\
  GetTestForPort (run (mkAllocator 5201 5205 ∅ ∅ ∅) ops) 5201 = ("z", true).
Proof.
  intros ops.
  apply (tests_never_share_a_port 5201 5205 (mkAllocator 5201 5205 ∅ ∅ ∅)
           ops "z" "z" 5201); reflexivity.
Defined.

(** X3.  In every state reached from [NewAllocator(s, e)] by the
    allocator's operations, every allocated port lies in [s..e], so the
    number of allocated ports never exceeds the capacity [e - s + 1] and
    [GetAvailableCount] is never negative. *)
Theorem allocated_ports_stay_in_range s e a0 ops :
  NewAllocator s e = Ret a0 ->
  let a := run a0 ops in
  (forall p, IsPortAllocated a p = true -> s <= p <= e) /\
  GetCapacity a = e - s + 1 /\
  0 <= GetAllocatedCount a <= GetCapacity a /\
  GetAvailableCount a = GetCapacity a - GetAllocatedCount a /\
  0 <= GetAvailableCount a.
Proof.
  intros Hnew a.
  pose proof (marks_sound_run ops a0 (marks_sound_new s e a0 Hnew)) as Hm.
  fold a in Hm. destruct (run_bounds_kept ops a0) as [Hs He]. fold a in Hs, He.
  assert (startPort a0 = s /\ endPort a0 = e /\ 1 <= s /\ s < e /\ e <= 65535)
    as (Hs0 & He0 & ? & ? & ?).
  { revert Hnew. unfold NewAllocator. repeat case_bool_decide; try done.
    intros [= <-]. simpl. lia. }
  rewrite Hs0 in Hs. rewrite He0 in He.
  pose proof (marks_sound_size a Hm) as Hsize. rewrite Hs, He in Hsize.
  specialize (Hsize ltac:(lia)).
  assert (GetCapacity a = e - s + 1) as Hcap.
  { unfold GetCapacity, GoInt.add, GoInt.sub. rewrite Hs, He.
    rewrite (wrap64_small (e - s)) by (unfold GoInt.min_int, GoInt.max_int; lia).
    apply wrap64_small. unfold GoInt.min_int, GoInt.max_int. lia. }
  assert (GetAvailableCount a = e - s + 1 - Z.of_nat (size (allocatedPorts a)))
    as Hav.
  { unfold GetAvailableCount, GoInt.add, GoInt.sub, GoInt.map_len.
    rewrite Hs, He.
    rewrite (wrap64_small (e - s)) by (unfold GoInt.min_int, GoInt.max_int; lia).
    rewrite (wrap64_small (e - s + 1))
      by (unfold GoInt.min_int, GoInt.max_int; lia).
    apply wrap64_small. unfold GoInt.min_int, GoInt.max_int. lia. }
  split_and!.
  - intros p Hp. apply (marks_sound_allocated a p Hm) in Hp as [b Hp].
    destruct (Hm p b Hp) as [_ Hr]. lia.
  - done.
  - unfold GetAllocatedCount, GoInt.map_len. lia.
  - rewrite Hcap. unfold GetAllocatedCount, GoInt.map_len. lia.
  - rewrite Hav, Hcap. unfold GetAllocatedCount, GoInt.map_len. lia.
  - rewrite Hav. lia.
Qed.

Lemma allocated_ports_stay_in_range_witness :
  let a := run (mkAllocator 5201 5203 ∅ ∅ ∅)
             [OpAllocatePorts 2; OpAllocatePort "t"; OpAllocatePort "u";
              OpReleasePortByNumber 5202] in
  (forall p, IsPortAllocated a p = true -> 5201 <= p <= 5203) /\
  GetCapacity a = 5203 - 5201 + 1 /\
  0 <= GetAllocatedCount a <= GetCapacity a /\
  GetAvailableCount a = GetCapacity a - GetAllocatedCount a /\
  0 <= GetAvailableCount a.
Proof.
  apply (allocated_ports_stay_in_range 5201 5203 _ _). reflexivity.
Defined.

(** X4.  Releasing undoes allocating: in a state reached from
    [NewAllocator], if a test id without a port is given one by
    [AllocatePort], then [ReleasePort] of that id succeeds and restores the
    allocator exactly. *)
Theorem ReleasePort_undoes_AllocatePort s e a0 ops t p a' :
  NewAllocator s e = Ret a0 ->
  testIDToPort (run a0 ops) !! t = None ->
  AllocatePort t (run a0 ops) = (Ret p, a') ->
  ReleasePort t a' = (Ret tt, run a0 ops).
Proof.
  intros Hnew Ht.
  pose proof (marks_sound_run ops a0 (marks_sound_new s e a0 Hnew)) as Hm.
  destruct (index_sound_run ops a0 (index_sound_new s e a0 Hnew)) as [_ Hs].
  generalize dependent (run a0 ops). intros a Ht Hm Hs.
  unfold AllocatePort. rewrite Ht.
  destruct (first_free _ _) as [port|] eqn:Hff; [|done].
  intros [= <- <-]. apply first_free_spec in Hff as [_ Hfree].
  unfold ReleasePort. simpl. rewrite lookup_insert_eq. f_equal.
  destruct a as [sp ep m pt tp]. simpl in *. f_equal.
  - rewrite delete_insert_eq. apply delete_id.
    by apply (marks_sound_allocated (mkAllocator sp ep m pt tp) port Hm).
  - rewrite delete_insert_eq. apply delete_id.
    destruct (pt !! port) as [t'|] eqn:Hpt; [|done].
    specialize (Hs port t' Hpt). unfold IsPortAllocated in Hs. simpl in Hs.
    congruence.
  - rewrite delete_insert_eq. by apply delete_id.
Qed.

Lemma ReleasePort_undoes_AllocatePort_witness :
  let a := run (mkAllocator 5201 5205 ∅ ∅ ∅)
             [OpAllocatePort "x"; OpAllocatePorts 2] in
  ReleasePort "y" (snd (AllocatePort "y" a)) = (Ret tt, a).
Proof.
  intros a.
  apply (ReleasePort_undoes_AllocatePort 5201 5205 (mkAllocator 5201 5205 ∅ ∅ ∅)
           [OpAllocatePort "x"; OpAllocatePorts 2] "y" 5204);
    reflexivity.
Defined.

Lemma release_one_step a p : release_one a p = step a (OpReleasePortByNumber p).
Proof.
  unfold release_one. simpl. unfold ReleasePortByNumber.
  by destruct (allocated _ _).
Qed.

Lemma ReleasePorts_run ports a :
  ReleasePorts ports a = run a (OpReleasePortByNumber <$> ports).
Proof.
  unfold ReleasePorts, run. revert a.
  induction ports as [|p ports IH]; intros a; simpl; [done|].
  by rewrite IH, release_one_step.
Qed.

Lemma release_one_allocated a p q :
  IsPortAllocated (release_one a p) q = true <->
  q <> p /\ IsPortAllocated a q = true.
Proof.
  unfold release_one, IsPortAllocated.
  destruct (allocated (allocatedPorts a) p) eqn:Hp; simpl.
  - apply allocated_delete.
  - split; [|tauto]. intros Hq. split; [|done]. intros ->. congruence.
Qed.

(** X5.  [ReleasePorts] behaves as [ReleasePortByNumber] called on each
    port of the list in order with the errors ignored; afterwards exactly
    the ports that were allocated and are not in the list are allocated. *)
Theorem ReleasePorts_releases_each ports a :
  ReleasePorts ports a = run a (OpReleasePortByNumber <$> ports) /\
  (forall q, IsPortAllocated (ReleasePorts ports a) q = true <->
     (q ∉ ports) /\ IsPortAllocated a q = true).
Proof.
  split; [apply ReleasePorts_run|].
  unfold ReleasePorts. revert a.
  induction ports as [|p ports IH]; intros a q; simpl.
  - split; [|tauto]. intros H. split; [|done]. apply not_elem_of_nil.
  - rewrite IH, release_one_allocated, not_elem_of_cons. tauto.
Qed.


Lemma GetAllocatedPorts_in_keys keys a : GetAllocatedPorts_in keys a = keys.
Proof.
  unfold GetAllocatedPorts_in.
  assert (forall acc, foldl (fun ports port => ports ++ [port]) acc keys
                      = acc ++ keys) as H.
  { induction keys as [|k keys IH]; intros acc; simpl.
    - by rewrite app_nil_r.
    - by rewrite IH, <- app_assoc. }
  apply H.
Qed.

(** X6.  In every state reached from [NewAllocator], whatever order the
    map iteration takes, [GetAllocatedPorts] lists exactly the ports for
    which [IsPortAllocated] holds, each once, and their number is
    [GetAllocatedCount]. *)
Theorem GetAllocatedPorts_lists_allocated s e a0 ops keys :
  NewAllocator s e = Ret a0 ->
  key_order (run a0 ops) keys ->
  let ports := GetAllocatedPorts_in keys (run a0 ops) in
  NoDup ports /\ GoInt.len ports = GetAllocatedCount (run a0 ops) /\
  (forall p, p ∈ ports <-> IsPortAllocated (run a0 ops) p = true).
Proof.
  intros Hnew Hkeys ports. unfold ports. rewrite GetAllocatedPorts_in_keys.
  pose proof (marks_sound_run ops a0 (marks_sound_new s e a0 Hnew)) as Hm.
  unfold key_order in Hkeys. split_and!.
  - rewrite Hkeys. apply NoDup_fst_map_to_list.
  - unfold GoInt.len, GetAllocatedCount, GoInt.map_len.
    by rewrite Hkeys, length_fmap, length_map_to_list.
  - intros p. rewrite Hkeys.
    rewrite (proj1 (marks_sound_allocated _ p Hm)).
    rewrite list_elem_of_fmap. split.
    + intros ([q b] & -> & Hin). apply elem_of_map_to_list in Hin. by exists b.
    + intros [b Hb]. exists (p, b). split; [done|]. by apply elem_of_map_to_list.
Qed.

Lemma GetAllocatedPorts_lists_allocated_witness :
  let a := run (mkAllocator 5201 5205 ∅ ∅ ∅)
             [OpAllocatePorts 3; OpReleasePortByNumber 5202] in
  let ports := GetAllocatedPorts_in [5201; 5203] a in
  NoDup ports /\ GoInt.len ports = GetAllocatedCount a /\
  (forall p, p ∈ ports <-> IsPortAllocated a p = true).
Proof.
  apply (GetAllocatedPorts_lists_allocated 5201 5205 _ _ [5201; 5203]).
  - reflexivity.
  - unfold key_order. vm_compute. apply perm_swap.
Defined.

Lemma delete_mark_all p ports m :
  p ∉ ports -> delete p (mark_all m ports) = mark_all (delete p m) ports.
Proof.
  unfold mark_all. revert m. induction ports as [|q ports IH]; intros m Hp; simpl.
  - done.
  - apply not_elem_of_cons in Hp as [Hne Hp].
    rewrite IH by done. by rewrite delete_insert_ne.
Qed.

Lemma release_marked ports s e m pt tp :
  NoDup ports ->
  (forall p, p ∈ ports -> m !! p = None /\ pt !! p = None) ->
  tp !! "" = None ->
  ReleasePorts ports (mkAllocator s e (mark_all m ports) pt tp)
  = mkAllocator s e m pt tp.
Proof.
  unfold ReleasePorts. revert m.
  induction ports as [|p ports IH]; intros m Hnd Hfree Htp; simpl; [done|].
  apply NoDup_cons in Hnd as [Hp Hnd].
  destruct (Hfree p) as [Hmp Hptp]; [rewrite elem_of_cons; by left|].
  unfold release_one at 2. simpl.
  replace (allocated (mark_all (<[p:=true]> m) ports) p) with true
    by (symmetry; apply (allocated_mark_all ports (<[p:=true]> m) p);
        right; unfold allocated; by rewrite lookup_insert_eq).
  rewrite Hptp. simpl.
  rewrite (delete_id pt) by done. rewrite (delete_id tp) by done.
  fold (mark_all (<[p:=true]> m) ports).
  rewrite delete_mark_all by done. rewrite delete_insert_eq, (delete_id m) by done.
  apply IH; [done| |done].
  intros q Hq. apply Hfree. rewrite elem_of_cons. by right.
Qed.

(** X7.  Bulk release undoes bulk allocation: in a state reached from
    [NewAllocator] in which no test with the empty id holds a port, if
    [AllocatePorts] returns a list of ports then [ReleasePorts] of that list
    restores the allocator exactly.  (The released ports have no test id,
    so each release also deletes the test-id entry of the empty id.) *)
Theorem ReleasePorts_undoes_AllocatePorts s e a0 ops c ports a' :
  NewAllocator s e = Ret a0 ->
  testIDToPort (run a0 ops) !! "" = None ->
  AllocatePorts c (run a0 ops) = (Ret ports, a') ->
  ReleasePorts ports a' = run a0 ops.
Proof.
  intros Hnew Ht.
  pose proof (marks_sound_run ops a0 (marks_sound_new s e a0 Hnew)) as Hm.
  destruct (index_sound_run ops a0 (index_sound_new s e a0 Hnew)) as [_ Hs].
  generalize dependent (run a0 ops). intros a Ht Hm Hs.
  unfold AllocatePorts. case_bool_decide; [done|].
  rewrite collect_free_spec by (unfold GoInt.len; simpl; lia).
  case_bool_decide; [done|]. simpl. rewrite Nat.sub_0_r.
  fold (free_ports a). intros [= <- <-].
  destruct a as [sp ep m pt tp]. simpl in *.
  apply release_marked; [| |done].
  - eapply sublist_NoDup; [|apply sublist_take].
    unfold free_ports. apply NoDup_filter, NoDup_seqZ.
  - intros p Hp. apply elem_of_take in Hp as (i & Hp & _).
    apply list_elem_of_lookup_2, elem_of_free_ports in Hp as [_ Hfree].
    split.
    + by apply (marks_sound_allocated (mkAllocator sp ep m pt tp) p Hm).
    + destruct (pt !! p) as [t'|] eqn:Hpt; [|done].
      specialize (Hs p t' Hpt). congruence.
Qed.

Lemma ReleasePorts_undoes_AllocatePorts_witness :
  let a := run (mkAllocator 5201 5205 ∅ ∅ ∅)
             [OpAllocatePort "x"; OpAllocatePort "y"; OpReleasePort "x"] in
  ReleasePorts [5201; 5203] (snd (AllocatePorts 2 a)) = a.
Proof.
  intros a.
  apply (ReleasePorts_undoes_AllocatePorts 5201 5205
           (mkAllocator 5201 5205 ∅ ∅ ∅)
           [OpAllocatePort "x"; OpAllocatePort "y"; OpReleasePort "x"] 2);
    reflexivity.
Defined.

End PortMore.

(** ** The collector: further properties *)

Section CollectorMore.
Import Collector.

Lemma wrap64_pred a : GoInt.sub (GoInt.wrap64 a) 1 = GoInt.wrap64 (a - 1).
Proof.
  unfold GoInt.sub.
  replace (GoInt.wrap64 a - 1) with (-1 + GoInt.wrap64 a) by lia.
  rewrite wrap64_add_r. f_equal. lia.
Qed.

Lemma size_filter_insert_fresh (P : string * TestResult -> Prop)
    `{!forall x, Decision (P x)} (m : gmap string TestResult) id r :
  m !! id = None ->
  Z.of_nat (size (filter P (<[id := r]> m))) =
  Z.of_nat (size (filter P m)) + (if decide (P (id, r)) then 1 else 0).
Proof.
  intros Hid. rewrite map_filter_insert. destruct (decide (P (id, r))).
  - rewrite map_size_insert_None; [lia|].
    apply map_lookup_filter_None. left. done.
  - rewrite delete_id by done. lia.
Qed.

Lemma size_filter_delete (P : string * TestResult -> Prop)
    `{!forall x, Decision (P x)} (m : gmap string TestResult) id r :
  m !! id = Some r ->
  Z.of_nat (size (filter P (delete id m))) =
  Z.of_nat (size (filter P m)) - (if decide (P (id, r)) then 1 else 0).
Proof.
  intros Hid. rewrite map_filter_delete. destruct (decide (P (id, r))).
  - assert (filter P m !! id = Some r) as Hf
      by (by apply map_lookup_filter_Some).
    assert (size (filter P m) <> 0%nat)
      by (intros E; apply map_size_empty_inv in E; by rewrite E in Hf).
    rewrite map_size_delete, Hf. lia.
  - rewrite delete_id; [lia|]. apply map_lookup_filter_None. right.
    intros x Hx. congruence.
Qed.

Lemma counters_agree_store r c :
  counters_agree c -> results c !! TestID r = None ->
  counters_agree (snd (StoreResult (Some r) c)).
Proof.
  intros [Hc Hf] Hfresh. unfold StoreResult. case_bool_decide; [done|].
  unfold count_in, counters_agree, with_status.
  repeat case_bool_decide; simpl;
    rewrite !(size_filter_insert_fresh _ _ _ _ Hfresh); simpl;
    repeat (destruct (decide _); try congruence);
    rewrite ?Z.add_0_r; fold (with_status "completed" c);
    fold (with_status "failed" c); rewrite ?Hc, ?Hf, ?wrap64_succ; try done.
Qed.

Lemma counters_agree_remove id r c :
  counters_agree c -> results c !! id = Some r ->
  counters_agree
    (let '(completed', failed') := count_out (Status r) (completed c) (failed c) in
     mkCollector (delete id (results c)) completed' failed' (resultDir c)).
Proof.
  intros [Hc Hf] Hid. unfold count_out, counters_agree, with_status.
  repeat case_bool_decide; simpl;
    rewrite !(size_filter_delete _ _ _ _ Hid); simpl;
    repeat (destruct (decide _); try congruence);
    rewrite ?Z.sub_0_r; fold (with_status "completed" c);
    fold (with_status "failed" c); rewrite ?Hc, ?Hf, ?wrap64_pred; try done.
Qed.

Lemma counters_agree_clear_one c id :
  counters_agree c -> counters_agree (clear_one c id).
Proof.
  intros H. unfold clear_one. destruct (results c !! id) as [r|] eqn:Hid; [|done].
  by apply counters_agree_remove.
Qed.

Lemma counters_agree_ClearResults ids c :
  counters_agree c -> counters_agree (ClearResults ids c).
Proof.
  unfold ClearResults. revert c. induction ids as [|id ids IH]; intros c H; simpl.
  - done.
  - by apply IH, counters_agree_clear_one.
Qed.

Lemma counters_agree_call c k :
  counters_agree c ->
  match stored_id k with Some t => results c !! t = None | None => True end ->
  counters_agree (after_call c k).
Proof.
  intros H Hfresh. destruct k as [[r|]|t [r|]|t|ts|];
    cbn [after_call stored_id] in *; try done.
  - by apply counters_agree_store.
  - unfold StoreIperfResult. by apply counters_agree_store.
  - unfold ClearResult. destruct (results c !! t) as [r|] eqn:Hid; [|done].
    pose proof (counters_agree_remove t r c H Hid) as Hrem.
    by destruct (count_out _ _ _).
  - by apply counters_agree_ClearResults.
Qed.

Lemma counters_agree_calls ks c :
  counters_agree c -> stores_fresh c ks -> counters_agree (after_calls c ks).
Proof.
  unfold after_calls. revert c. induction ks as [|k ks IH]; intros c H Hf; simpl.
  - done.
  - destruct Hf as [Hk Hks]. apply IH; [|done]. by apply counters_agree_call.
Qed.

Lemma with_status_le st c : 0 <= with_status st c <= GetCount c.
Proof.
  unfold with_status, GetCount, GoInt.map_len. split; [lia|].
  apply inj_le, map_subseteq_size, map_filter_subseteq.
Qed.

Lemma with_status_disjoint c :
  with_status "completed" c + with_status "failed" c <= GetCount c.
Proof.
  unfold with_status, GetCount, GoInt.map_len.
  rewrite <- Nat2Z.inj_add. apply inj_le.
  rewrite <- map_size_disj_union.
  - apply map_subseteq_size. apply map_union_least; apply map_filter_subseteq.
  - apply map_disjoint_spec. intros i x y Hx Hy.
    apply map_lookup_filter_Some in Hx as [Hx Hsx].
    apply map_lookup_filter_Some in Hy as [Hy Hsy]. simpl in *. congruence.
Qed.

(** X8.  As long as no call stores a result under an id that already
    holds one, the two counters count the stored results: after any such
    sequence of StoreResult, StoreIperfResult, ClearResult, ClearResults
    and ClearAll calls on a new collector, [GetCompletedCount] is the
    number of stored results with status "completed", [GetFailedCount] the
    number with status "failed", and their sum does not exceed
    [GetCount]. *)
Theorem counters_count_stored_results dir ks :
  stores_fresh (NewCollector dir) ks ->
  let c := after_calls (NewCollector dir) ks in
  GetCount c <= GoInt.max_int ->
  GetCompletedCount c = with_status "completed" c /\
  GetFailedCount c = with_status "failed" c /\
  GetCompletedCount c + GetFailedCount c <= GetCount c.
Proof.
  intros Hfresh c Hsize.
  assert (counters_agree (NewCollector dir)) as H0.
  { unfold counters_agree, with_status. simpl.
    by rewrite !map_filter_empty, map_size_empty. }
  destruct (counters_agree_calls ks _ H0 Hfresh) as [Hc Hf]. fold c in Hc, Hf.
  pose proof (with_status_le "completed" c). pose proof (with_status_le "failed" c).
  pose proof (with_status_disjoint c).
  unfold GetCompletedCount, GetFailedCount. rewrite Hc, Hf.
  rewrite !wrap64_small by (unfold GoInt.min_int, GoInt.max_int in *; lia).
  done.
Qed.

Lemma counters_count_stored_results_witness :
  let ok := Some (mkIperfResult true "{}" 0 "" 0 5 5) in
  let bad := Some (mkIperfResult false "" 1 "refused" 0 1 1) in
  let c := after_calls (NewCollector "")
             [CallStoreIperfResult "t1" ok; CallStoreIperfResult "t2" bad;
              CallClearResult "t1"; CallStoreIperfResult "t1" bad;
              CallStoreIperfResult "t3" ok] in
  GetCompletedCount c = with_status "completed" c /\
  GetFailedCount c = with_status "failed" c /\
  GetCompletedCount c + GetFailedCount c <= GetCount c.
Proof.
  intros ok bad c.
  apply (counters_count_stored_results ""
           [CallStoreIperfResult "t1" ok; CallStoreIperfResult "t2" bad;
            CallClearResult "t1"; CallStoreIperfResult "t1" bad;
            CallStoreIperfResult "t3" ok]).
  - simpl. repeat split; reflexivity.
  - vm_compute. discriminate.
Defined.

End CollectorMore.

Section CollectorQueries.
Import Collector.

Lemma keyed_store r c : keyed c -> keyed (snd (StoreResult r c)).
Proof.
  intros H. unfold StoreResult. destruct r as [r|]; [|done].
  case_bool_decide; [done|]. destruct (count_in _ _). simpl.
  intros id r' Hid. simpl in Hid. destruct (decide (TestID r = id)) as [<-|Hne].
  - rewrite lookup_insert_eq in Hid. by injection Hid as <-.
  - rewrite lookup_insert_ne in Hid by done. by apply H.
Qed.

Lemma keyed_remove id c comp fl :
  keyed c -> keyed (mkCollector (delete id (results c)) comp fl (resultDir c)).
Proof.
  intros H id' r Hid. simpl in Hid.
  apply lookup_delete_Some in Hid as [_ Hid]. by apply H.
Qed.

Lemma keyed_clear_one c id : keyed c -> keyed (clear_one c id).
Proof.
  intros H. unfold clear_one. destruct (results c !! id); [|done].
  destruct (count_out _ _ _). by apply keyed_remove.
Qed.

Lemma keyed_call c k : keyed c -> keyed (after_call c k).
Proof.
  intros H. destruct k as [r|t [r|]|t|ts|]; cbn [after_call].
  - by apply keyed_store.
  - unfold StoreIperfResult. by apply keyed_store.
  - done.
  - unfold ClearResult. destruct (results c !! t); [|done].
    destruct (count_out _ _ _). by apply keyed_remove.
  - unfold ClearResults. revert c H.
    induction ts as [|t ts IH]; intros c H; simpl; [done|].
    by apply IH, keyed_clear_one.
  - intros id r. simpl. by rewrite lookup_empty.
Qed.

Lemma keyed_calls dir ks : keyed (after_calls (NewCollector dir) ks).
Proof.
  assert (keyed (NewCollector dir)) as H0
    by (intros id r; simpl; by rewrite lookup_empty).
  unfold after_calls. revert H0. generalize (NewCollector dir).
  induction ks as [|k ks IH]; intros c H; simpl; [done|].
  by apply IH, keyed_call.
Qed.

Lemma GetResults_omap ids c :
  GetResults ids c = omap (fun id => results c !! id) ids.
Proof.
  unfold GetResults.
  assert (forall acc, foldl (get_one c) acc ids
                      = acc ++ omap (fun id => results c !! id) ids) as H.
  { induction ids as [|id ids IH]; intros acc; simpl.
    - by rewrite app_nil_r.
    - rewrite IH. unfold get_one. destruct (results c !! id); [|done].
      by rewrite <- app_assoc. }
  apply H.
Qed.

Lemma length_omap_le {A B} (f : A -> option B) (l : list A) :
  (length (omap f l) <= length l)%nat.
Proof.
  induction l as [|x l IH]; simpl; [done|].
  unfold omap in IH. destruct (f x); simpl; lia.
Qed.

Lemma GetResults_ids ids c :
  keyed c ->
  TestID <$> GetResults ids c = filter (fun id => HasResult c id = true) ids.
Proof.
  intros Hk. rewrite GetResults_omap.
  induction ids as [|id ids IH]; simpl; [done|].
  rewrite filter_cons.
  destruct (decide (HasResult c id = true)) as [Hd|Hd];
    unfold HasResult in Hd; rewrite bool_decide_eq_true in Hd.
  - destruct Hd as [r Hid]. rewrite Hid. simpl.
    f_equal; [|done]. by apply (Hk id r).
  - destruct (results c !! id) as [r|] eqn:Hid; [|done].
    destruct Hd. by eexists.
Qed.

(** X9.  In every state of the collector, [GetResults] answers a request
    for a list of test ids with the stored results of exactly those
    requested ids that have one, in the order of the request (an id asked
    twice is answered twice, an unknown id is skipped without an error);
    each returned result is the one [GetResult] finds under its id. *)
Theorem GetResults_answers_in_request_order dir ks ids :
  let c := after_calls (NewCollector dir) ks in
  TestID <$> GetResults ids c = filter (fun id => HasResult c id = true) ids /\
  (forall r, r ∈ GetResults ids c -> GetResult (TestID r) c = Ret r) /\
  GoInt.len (GetResults ids c) <= GoInt.len ids.
Proof.
  intros c. pose proof (keyed_calls dir ks) as Hk. fold c in Hk.
  split; [by apply GetResults_ids|]. rewrite GetResults_omap. split.
  - intros r Hr. apply list_elem_of_omap in Hr as (id & _ & Hid).
    unfold GetResult. destruct (Hk id r Hid) as [-> _]. by rewrite Hid.
  - unfold GoInt.len. apply inj_le, length_omap_le.
Qed.

Lemma collect_keys {A} (keys : list A) :
  foldl (fun ids id => ids ++ [id]) [] keys = keys.
Proof.
  assert (forall acc : list A,
            foldl (fun ids id => ids ++ [id]) acc keys = acc ++ keys) as H.
  { induction keys as [|k keys IH]; intros acc; simpl.
    - by rewrite app_nil_r.
    - by rewrite IH, <- app_assoc. }
  apply H.
Qed.

(** X10.  In every state of the collector and for every order the map
    iteration may take, [GetResultIDs] lists each id with a stored result
    exactly once, [GetAllResults] lists the results stored under exactly
    these ids, and both lists have [GetCount] entries. *)
Theorem GetAllResults_lists_every_result dir ks keys values :
  let c := after_calls (NewCollector dir) ks in
  key_order c keys -> value_order c values ->
  NoDup (GetResultIDs_in keys c) /\
  (forall id, id ∈ GetResultIDs_in keys c <-> HasResult c id = true) /\
  TestID <$> GetAllResults_in values c ≡ₚ GetResultIDs_in keys c /\
  GoInt.len (GetResultIDs_in keys c) = GetCount c /\
  GoInt.len (GetAllResults_in values c) = GetCount c.
Proof.
  intros c Hkeys Hvalues. pose proof (keyed_calls dir ks) as Hk. fold c in Hk.
  unfold GetResultIDs_in, GetAllResults_in. rewrite !collect_keys.
  unfold key_order in Hkeys. unfold value_order in Hvalues.
  split_and!.
  - rewrite Hkeys. apply NoDup_fst_map_to_list.
  - intros id. rewrite Hkeys. unfold HasResult. rewrite bool_decide_eq_true.
    rewrite list_elem_of_fmap. split.
    + intros ([id' r] & -> & Hin). apply elem_of_map_to_list in Hin. by exists r.
    + intros [r Hr]. exists (id, r). split; [done|]. by apply elem_of_map_to_list.
  - rewrite Hkeys, Hvalues. rewrite <- list_fmap_compose.
    assert (Forall (fun kv => (TestID ∘ snd) kv = fst kv)
              (map_to_list (results c))) as Hall.
    { apply Forall_forall. intros [id r] Hin.
      apply elem_of_map_to_list in Hin. simpl. by apply (Hk id r). }
    by rewrite (Forall_fmap_ext_1 _ _ _ Hall).
  - unfold GoInt.len, GetCount, GoInt.map_len.
    by rewrite Hkeys, length_fmap, length_map_to_list.
  - unfold GoInt.len, GetCount, GoInt.map_len.
    by rewrite Hvalues, length_fmap, length_map_to_list.
Qed.

Lemma GetAllResults_lists_every_result_witness :
  let ok := Some (mkIperfResult true "{}" 0 "" 0 5 5) in
  let ks := [CallStoreIperfResult "t1" ok; CallStoreIperfResult "t2" ok] in
  let c := after_calls (NewCollector "") ks in
  let keys := ["t1"; "t2"] in
  let values := [mkTestResult "t2" "" "" "completed" "{}" "" 0 5 0;
                 mkTestResult "t1" "" "" "completed" "{}" "" 0 5 0] in
  NoDup (GetResultIDs_in keys c) /\
  (forall id, id ∈ GetResultIDs_in keys c <-> HasResult c id = true) /\
  TestID <$> GetAllResults_in values c ≡ₚ GetResultIDs_in keys c /\
  GoInt.len (GetResultIDs_in keys c) = GetCount c /\
  GoInt.len (GetAllResults_in values c) = GetCount c.
Proof.
  intros ok ks c keys values.
  apply (GetAllResults_lists_every_result "" ks keys values).
  - unfold key_order. vm_compute. first [reflexivity | apply perm_swap].
  - unfold value_order. vm_compute. first [reflexivity | apply perm_swap].
Defined.

(** X11.  Storing and retrieving: [StoreResult] of a result with a
    non-empty test id succeeds; afterwards [GetResult] and [HasResult] find
    that result under its id, every other id answers as before, and the
    number of stored results grows by one exactly when the id was new. *)
Theorem StoreResult_then_GetResult r c :
  TestID r <> "" ->
  exists c',
    StoreResult (Some r) c = (Ret tt, c') /\
    GetResult (TestID r) c' = Ret r /\ HasResult c' (TestID r) = true /\
    (forall id, id <> TestID r ->
       GetResult id c' = GetResult id c /\ HasResult c' id = HasResult c id) /\
    GetCount c' = (if HasResult c (TestID r) then GetCount c else GetCount c + 1).
Proof.
  intros Hid. unfold StoreResult. rewrite bool_decide_eq_false_2 by done.
  destruct (count_in _ _) as [comp fl]. eexists. split; [reflexivity|].
  unfold GetResult, HasResult, GetCount, GoInt.map_len. simpl.
  rewrite lookup_insert_eq. split; [done|]. split; [|split].
  - apply bool_decide_eq_true. by eexists.
  - intros id Hne. by rewrite lookup_insert_ne.
  - rewrite map_size_insert. destruct (results c !! TestID r) eqn:E.
    + rewrite bool_decide_eq_true_2 by (by eexists). done.
    + rewrite bool_decide_eq_false_2 by (by intros [? ?]). simpl. lia.
Qed.

Lemma StoreResult_then_GetResult_witness :
  let r := mkTestResult "t1" "a" "b" "completed" "{}" "" 0 5 0 in
  exists c',
    StoreResult (Some r) (NewCollector "") = (Ret tt, c') /\
    GetResult (TestID r) c' = Ret r /\ HasResult c' (TestID r) = true /\
    (forall id, id <> TestID r ->
       GetResult id c' = GetResult id (NewCollector "") /\
       HasResult c' id = HasResult (NewCollector "") id) /\
    GetCount c' = (if HasResult (NewCollector "") (TestID r)
                   then GetCount (NewCollector "")
                   else GetCount (NewCollector "") + 1).
Proof.
  intros r. apply (StoreResult_then_GetResult r (NewCollector "")). discriminate.
Defined.

Lemma clear_one_ClearResult c id : clear_one c id = snd (ClearResult id c).
Proof.
  unfold clear_one, ClearResult. destruct (results c !! id); [|done].
  by destruct (count_out _ _ _).
Qed.

Lemma clear_one_has c id id' :
  HasResult (clear_one c id) id' = true <-> id' <> id /\ HasResult c id' = true.
Proof.
  unfold clear_one, HasResult. rewrite !bool_decide_eq_true.
  destruct (results c !! id) as [r|] eqn:Hid.
  - destruct (count_out _ _ _). simpl. split.
    + intros [x Hx]. apply lookup_delete_Some in Hx as [? ?]. split; [done|by eexists].
    + intros [Hne [x Hx]]. exists x. by apply lookup_delete_Some.
  - split; [|tauto]. intros [x Hx]. split; [|by eexists]. intros ->. congruence.
Qed.

(** X12.  [ClearResults] behaves as [ClearResult] called on each id of the
    list in order with the errors for unknown ids ignored; afterwards
    exactly the results whose id is not in the list remain, and
    [ClearResult] of an id without a result fails and changes nothing. *)
Theorem ClearResults_clears_each ids c :
  ClearResults ids c = after_calls c (CallClearResult <$> ids) /\
  (forall id, HasResult (ClearResults ids c) id = true <->
     (id ∉ ids) /\ HasResult c id = true) /\
  (forall id, HasResult c id = false ->
     ClearResult id c = (Raise (ResultNotFound id), c)).
Proof.
  split_and!.
  - unfold ClearResults, after_calls. revert c.
    induction ids as [|id ids IH]; intros c; simpl; [done|].
    by rewrite IH, clear_one_ClearResult.
  - unfold ClearResults. revert c.
    induction ids as [|id ids IH]; intros c id'; simpl.
    + split; [|tauto]. intros H. split; [apply not_elem_of_nil|done].
    + rewrite IH, clear_one_has, not_elem_of_cons. tauto.
  - intros id Hid. unfold ClearResult, HasResult in *.
    destruct (results c !! id); [|done].
    apply bool_decide_eq_false in Hid. destruct Hid. by eexists.
Qed.

End CollectorQueries.

(** ** Nodes and the node registry: further properties *)

Section RegistryMore.
Import Models.

Lemma built_lookup r :
  built r ->
  forall id n, nodes r !! id = Some n <-> n ∈ nodeList r /\ ID n = id.
Proof.
  intros Hb. pose proof Hb as Hb'. revert Hb'.
  induction Hb as [|r node r' Hr IH Hadd]; intros Hb' id n; simpl.
  - rewrite lookup_empty, elem_of_nil. split; [done|]. by intros [? _].
  - specialize (IH Hr). destruct (built_ids r Hr) as [_ Hdom].
    unfold AddNode in Hadd. case_bool_decide; [done|].
    destruct (nodes r !! ID node) eqn:Hlk; [done|]. injection Hadd as <-. simpl.
    rewrite elem_of_app, list_elem_of_singleton.
    destruct (decide (ID node = id)) as [<-|Hne].
    + rewrite lookup_insert_eq. split.
      * intros [= <-]. split; [by right|done].
      * intros [[Hin| ->] Hid]; [|done].
        assert (is_Some (nodes r !! ID node)) as [? ?]; [|congruence].
        apply Hdom. rewrite <- Hid. apply list_elem_of_fmap. by exists n.
    + rewrite lookup_insert_ne by done. rewrite IH. split.
      * intros [? ?]. split; [by left|done].
      * intros [[?| ->] ?]; [done|congruence].
Qed.

Lemma built_ids_nonempty r : built r -> Forall (fun n => ID n <> "") (nodeList r).
Proof.
  induction 1 as [|r node r' Hr IH Hadd]; simpl; [constructor|].
  unfold AddNode in Hadd. case_bool_decide; [done|].
  destruct (nodes r !! ID node); [done|]. injection Hadd as <-. simpl.
  apply Forall_app. split; [done|]. by constructor.
Qed.

(** X13.  In a registry built by [AddNode] calls, the map and the list
    hold the same nodes: [GetNode(id)] succeeds with a node exactly when
    that node is in [GetAllNodes()] and carries the id, it fails with
    not-found exactly for the ids of no listed node, the ids of the listed
    nodes are non-empty and pairwise distinct, and [Count()] is the number
    of ids. *)
Theorem registry_map_and_list_agree r :
  built r ->
  (forall id n, GetNode id r = Ret n <-> n ∈ GetAllNodes r /\ ID n = id) /\
  (forall id, GetNode id r = Raise (NodeNotFound id) <->
     id ∉ ID <$> GetAllNodes r) /\
  NoDup (ID <$> GetAllNodes r) /\
  Forall (fun n => ID n <> "") (GetAllNodes r) /\
  Count r = Z.of_nat (size (nodes r)).
Proof.
  intros Hb. pose proof (built_lookup r Hb) as Hl.
  destruct (built_ids r Hb) as [Hnd Hdom]. unfold GetNode, GetAllNodes.
  split_and!.
  - intros id n. rewrite <- Hl. destruct (nodes r !! id); split; congruence.
  - intros id. rewrite <- Hdom. destruct (nodes r !! id) eqn:E.
    + split; [done|]. intros []. by eexists.
    + split; [|done]. intros _ [? ?]. done.
  - done.
  - by apply built_ids_nonempty.
  - unfold Count, GoInt.len. f_equal.
    rewrite <- (length_fmap ID). rewrite <- size_dom.
    rewrite <- (size_list_to_set (C := gset string) (ID <$> nodeList r)) by done.
    f_equal. apply set_eq. intros id.
    rewrite elem_of_dom, elem_of_list_to_set. symmetry. apply Hdom.
Qed.

Lemma registry_map_and_list_agree_witness :
  (forall id n, GetNode id Scenario.registry3 = Ret n <->
     n ∈ GetAllNodes Scenario.registry3 /\ ID n = id) /\
  (forall id, GetNode id Scenario.registry3 = Raise (NodeNotFound id) <->
     id ∉ ID <$> GetAllNodes Scenario.registry3) /\
  NoDup (ID <$> GetAllNodes Scenario.registry3) /\
  Forall (fun n => ID n <> "") (GetAllNodes Scenario.registry3) /\
  Count Scenario.registry3 = Z.of_nat (size (nodes Scenario.registry3)).
Proof.
  apply (registry_map_and_list_agree Scenario.registry3), registry3_built.
Defined.

Lemma has_tag_spec tags tag : has_tag tags tag = true <-> tag ∈ tags.
Proof.
  induction tags as [|t tags IH]; simpl.
  - rewrite elem_of_nil. split; done.
  - rewrite elem_of_cons. case_bool_decide as Ht.
    + split; [intros _; by left|done].
    + rewrite IH. split; [by right|]. intros [->|?]; done.
Qed.

Lemma tag_loop_spec node tag tags result :
  tag_loop node tag tags result =
  if has_tag tags tag then result ++ [node] else result.
Proof.
  induction tags as [|t tags IH]; simpl; [done|]. by case_bool_decide.
Qed.

(** X14.  [GetNodesByTag] returns the nodes of the registry that carry
    the tag, in registry order and each once, also when a node lists the
    tag several times; a node is returned exactly when [HasTag] holds for
    it, and [HasTag] holds exactly when the tag is among the node's
    tags. *)
Theorem GetNodesByTag_filters_by_HasTag tag r :
  GetNodesByTag tag r = filter (fun n => HasTag n tag = true) (GetAllNodes r) /\
  (forall n, HasTag n tag = true <-> tag ∈ Tags n) /\
  GetNodesByTag tag r `sublist_of` GetAllNodes r.
Proof.
  assert (GetNodesByTag tag r
          = filter (fun n => HasTag n tag = true) (GetAllNodes r)) as Heq.
  { unfold GetNodesByTag, GetAllNodes.
    assert (forall acc,
              foldl (fun result node => tag_loop node tag (Tags node) result)
                acc (nodeList r)
              = acc ++ filter (fun n => HasTag n tag = true) (nodeList r)) as H.
    { induction (nodeList r) as [|n l IH]; intros acc; simpl.
      - by rewrite app_nil_r.
      - rewrite IH, tag_loop_spec, filter_cons.
        destruct (decide (HasTag n tag = true)) as [E|E]; unfold HasTag in E.
        + rewrite E. by rewrite <- app_assoc.
        + apply not_true_is_false in E. by rewrite E. }
    apply H. }
  split_and!.
  - done.
  - intros n. apply has_tag_spec.
  - rewrite Heq. apply sublist_filter.
Qed.

End RegistryMore.

(** ** The test matrix: further properties *)

Section MatrixMore.
Import Models Matrix.

Lemma GetPairProfile_set m s d :
  profiles_set m -> is_Some (GetPairProfile m s d).
Proof.
  intros [Hd Hp]. unfold GetPairProfile.
  destruct (NodePairs m !! (Models.ID s, Models.ID d)) eqn:E; [by eapply Hp|done].
Qed.

Lemma numbered_snoc l k s d pr :
  numbered l k ->
  numbered (l ++ [mkTestAssignment ("test-" +:+ itoa (GoInt.add k 1)) s d pr])
    (GoInt.add k 1).
Proof.
  intros [-> Hids]. unfold numbered.
  rewrite length_app, fmap_app, Hids. simpl.
  rewrite wrap64_succ. replace (length l + 1)%nat with (S (length l)) by lia.
  rewrite seq_S, fmap_app. simpl.
  replace (Z.of_nat (length l) + 1) with (Z.of_nat (S (length l))) by lia.
  done.
Qed.

Lemma matrix_dest_step m s l k d :
  profiles_set m -> numbered l k ->
  exists l' k',
    matrix_dest m s (Ret (l, k)) d = Ret (l', k') /\ numbered l' k' /\
    assigned <$> l' =
      (assigned <$> l) ++
      (if decide (Models.ID s <> Models.ID d) then pair_tests m (s, d) else []).
Proof.
  intros Hset Hnum. unfold matrix_dest.
  case_bool_decide as Hsd.
  - exists l, k. rewrite decide_False by tauto. by rewrite app_nil_r.
  - rewrite decide_True by done. unfold pair_tests. simpl.
    destruct (GetPairProfile_set m s d Hset) as [pr Hpr]. rewrite Hpr.
    destruct (Bidirectional pr) eqn:Hb.
    + eexists _, _. split; [reflexivity|]. split.
      * by apply numbered_snoc, numbered_snoc.
      * rewrite !fmap_app, <- app_assoc. done.
    + eexists _, _. split; [reflexivity|]. split.
      * by apply numbered_snoc.
      * rewrite !fmap_app. done.
Qed.

Lemma matrix_inner m s ds l k :
  profiles_set m -> numbered l k ->
  exists l' k',
    foldl (matrix_dest m s) (Ret (l, k)) ds = Ret (l', k') /\ numbered l' k' /\
    assigned <$> l' =
      (assigned <$> l) ++
      (((fun d => (s, d)) <$> filter (fun d => Models.ID s <> Models.ID d) ds)
         ≫= pair_tests m).
Proof.
  intros Hset. revert l k.
  induction ds as [|d ds IH]; intros l k Hnum; cbn [foldl].
  - exists l, k. simpl. by rewrite app_nil_r.
  - destruct (matrix_dest_step m s l k d Hset Hnum) as (l1 & k1 & -> & Hn1 & Ha1).
    destruct (IH l1 k1 Hn1) as (l2 & k2 & -> & Hn2 & Ha2).
    exists l2, k2. split; [done|]. split; [done|].
    rewrite Ha2, Ha1, filter_cons.
    destruct (decide (Models.ID s <> Models.ID d)); simpl.
    + by rewrite <- app_assoc.
    + by rewrite app_nil_r.
Qed.

Lemma matrix_outer m ns ss l k :
  profiles_set m -> numbered l k ->
  exists l' k',
    foldl (fun st source => foldl (matrix_dest m source) st ns) (Ret (l, k)) ss
      = Ret (l', k') /\ numbered l' k' /\
    assigned <$> l' =
      (assigned <$> l) ++
      ((ss ≫= fun s =>
          (fun d => (s, d)) <$> filter (fun d => Models.ID s <> Models.ID d) ns)
         ≫= pair_tests m).
Proof.
  intros Hset. revert l k.
  induction ss as [|s ss IH]; intros l k Hnum; cbn [foldl].
  - exists l, k. simpl. by rewrite app_nil_r.
  - destruct (matrix_inner m s ns l k Hset Hnum) as (l1 & k1 & -> & Hn1 & Ha1).
    destruct (IH l1 k1 Hn1) as (l2 & k2 & -> & Hn2 & Ha2).
    exists l2, k2. split; [done|]. split; [done|].
    rewrite Ha2, Ha1, bind_cons, bind_app, <- app_assoc. done.
Qed.

Lemma test_id_inj : Inj (=) (=) (fun i : nat => "test-" +:+ itoa (Z.of_nat i)).
Proof.
  intros i j H. apply String.app_inj in H. unfold itoa in H.
  apply pretty_Z_inj in H. lia.
Qed.

(** X15.  When no profile of the matrix is nil, [GenerateFullMesh] of the
    test matrix returns, for each ordered pair of distinct-id nodes in
    registry order, one assignment with the pair's profile followed, when
    that profile is bidirectional, by one assignment for the reverse pair
    with the same profile; [CountTests] is the length of that list, and the
    assignment ids are test-1, test-2, ... in order, hence pairwise
    distinct. *)
Theorem matrix_assignments_enumerated m :
  profiles_set m ->
  exists l,
    GenerateFullMesh m = Ret l /\ CountTests m = Ret (GoInt.len l) /\
    assigned <$> l =
      Topology.ordered_pairs (GetAllNodes (Nodes m)) ≫= pair_tests m /\
    (Topology.is_slice l ->
       Matrix.ID <$> l = test_ids (length l) /\ NoDup (Matrix.ID <$> l)).
Proof.
  intros Hset.
  assert (numbered [] 0) as H0 by (split; reflexivity).
  destruct (matrix_outer m (GetAllNodes (Nodes m)) (GetAllNodes (Nodes m))
              [] 0 Hset H0) as (l & k & Hfold & [_ Hids] & Ha).
  exists l. unfold CountTests, GenerateFullMesh. rewrite Hfold.
  split; [done|]. split; [done|]. split; [apply Ha|].
  intros Hslice. unfold Topology.is_slice, GoInt.len in Hslice.
  assert (Matrix.ID <$> l = test_ids (length l)) as Heq.
  { rewrite Hids. unfold test_ids. apply Forall_fmap_ext_1, Forall_forall.
    intros i Hi%elem_of_seq. do 2 f_equal. apply wrap64_small.
    unfold GoInt.min_int, GoInt.max_int in *. lia. }
  split; [done|]. rewrite Heq. unfold test_ids.
  apply (NoDup_fmap_2_strong _). 2: apply NoDup_seq.
  intros i j _ _ Hij. by apply test_id_inj.
Qed.

Lemma matrix_assignments_enumerated_witness :
  exists l,
    GenerateFullMesh Scenario.matrix2 = Ret l /\
    CountTests Scenario.matrix2 = Ret (GoInt.len l) /\
    assigned <$> l =
      Topology.ordered_pairs (GetAllNodes (Nodes Scenario.matrix2))
        ≫= pair_tests Scenario.matrix2 /\
    (Topology.is_slice l ->
       Matrix.ID <$> l = test_ids (length l) /\ NoDup (Matrix.ID <$> l)).
Proof.
  apply (matrix_assignments_enumerated Scenario.matrix2).
  split; [by eexists|]. intros pair profile. simpl. by rewrite lookup_empty.
Defined.

Lemma group_by_spec (key : TestAssignment -> string) l k :
  group_by key l !! k =
  match filter (fun a => key a = k) l with
  | [] => None
  | g => Some g
  end.
Proof.
  unfold group_by.
  assert (forall (acc : gmap string (list TestAssignment)) pre,
            (forall k', acc !! k' =
               match filter (fun a => key a = k') pre with
               | [] => None | g => Some g end) ->
            foldl (fun grouped a =>
                     <[key a := default [] (grouped !! key a) ++ [a]]> grouped)
              acc l !! k =
            match filter (fun a => key a = k) (pre ++ l) with
            | [] => None | g => Some g end) as H.
  { induction l as [|a l IH]; intros acc pre Hacc; simpl.
    - by rewrite app_nil_r.
    - rewrite (IH _ (pre ++ [a])).
      + by rewrite <- app_assoc.
      + intros k'. rewrite filter_app, filter_cons, filter_nil.
        destruct (decide (key a = k')) as [<-|Hne].
        * rewrite lookup_insert_eq, Hacc.
          destruct (filter _ pre); simpl; done.
        * rewrite lookup_insert_ne by done. rewrite Hacc, app_nil_r. done. }
  apply (H ∅ []). intros k'. by rewrite lookup_empty.
Qed.

(** X16.  The two grouping methods of the test matrix lose and duplicate
    nothing: the group of a node id holds exactly the assignments of
    [GenerateFullMesh] with that source (or destination) id, in order, and
    an id has a group exactly when some assignment carries it. *)
Theorem grouping_partitions_assignments m l :
  GenerateFullMesh m = Ret l ->
  exists by_source by_dest,
    GroupAssignmentsBySource m = Ret by_source /\
    GroupAssignmentsByDestination m = Ret by_dest /\
    (forall id,
       default [] (by_source !! id)
         = filter (fun a => Models.ID (Source a) = id) l /\
       default [] (by_dest !! id)
         = filter (fun a => Models.ID (Destination a) = id) l) /\
    (forall id, is_Some (by_source !! id) <->
       exists a, a ∈ l /\ Models.ID (Source a) = id) /\
    (forall id, is_Some (by_dest !! id) <->
       exists a, a ∈ l /\ Models.ID (Destination a) = id).
Proof.
  intros Hl. unfold GroupAssignmentsBySource, GroupAssignmentsByDestination.
  rewrite Hl. eexists _, _. split; [reflexivity|]. split; [reflexivity|].
  assert (forall (key : TestAssignment -> string) id,
            default [] (group_by key l !! id) = filter (fun a => key a = id) l /\
            (is_Some (group_by key l !! id) <-> exists a, a ∈ l /\ key a = id))
    as H.
  { intros key id. rewrite group_by_spec.
    destruct (filter (fun a => key a = id) l) as [|a g] eqn:E; simpl.
    - split; [done|]. split; [by intros [? ?]|].
      intros (a & Ha & Hk).
      assert (a ∈ filter (fun a => key a = id) l) as Hin
        by (by apply list_elem_of_filter).
      rewrite E in Hin. by apply elem_of_nil in Hin.
    - split; [done|]. split; [|by eexists]. intros _. exists a.
      assert (a ∈ filter (fun a => key a = id) l) as Hin
        by (rewrite E, elem_of_cons; by left).
      apply list_elem_of_filter in Hin. tauto. }
  split_and!.
  - intros id. split; apply H.
  - intros id. apply (H (fun a => Models.ID (Source a))).
  - intros id. apply (H (fun a => Models.ID (Destination a))).
Qed.

Lemma grouping_partitions_assignments_witness :
  exists l by_source by_dest,
    GenerateFullMesh Scenario.matrix2 = Ret l /\
    GroupAssignmentsBySource Scenario.matrix2 = Ret by_source /\
    GroupAssignmentsByDestination Scenario.matrix2 = Ret by_dest /\
    (forall id,
       default [] (by_source !! id)
         = filter (fun a => Models.ID (Source a) = id) l /\
       default [] (by_dest !! id)
         = filter (fun a => Models.ID (Destination a) = id) l) /\
    (forall id, is_Some (by_source !! id) <->
       exists a, a ∈ l /\ Models.ID (Source a) = id) /\
    (forall id, is_Some (by_dest !! id) <->
       exists a, a ∈ l /\ Models.ID (Destination a) = id).
Proof.
  eexists.
  destruct (grouping_partitions_assignments Scenario.matrix2 _ eq_refl)
    as (bs & bd & H).
  exists bs, bd. split; [reflexivity|]. exact H.
Defined.

End MatrixMore.

(** ** The planner: counts and test ids *)

Section TopologyCounts.
Import Models Topology.

Lemma count_loop tests c :
  foldl (fun count (l : list TestPair) => GoInt.add count (GoInt.len l))
    (GoInt.wrap64 c) tests
  = GoInt.wrap64 (c + Z.of_nat (sum_list_with length tests)).
Proof.
  revert c. induction tests as [|l tests IH]; intros c; simpl.
  - f_equal. lia.
  - unfold GoInt.add at 2. rewrite (Z.add_comm (GoInt.wrap64 c)), wrap64_add_r.
    rewrite IH. f_equal. unfold GoInt.len. lia.
Qed.

Lemma sum_indicator (keys : list string) k :
  NoDup keys -> k ∈ keys ->
  sum_list_with (fun n => if decide (k = n) then 1%nat else 0%nat) keys = 1%nat.
Proof.
  induction keys as [|n keys IH]; intros Hnd Hin; simpl.
  - by apply elem_of_nil in Hin.
  - apply NoDup_cons in Hnd as [Hn Hnd].
    destruct (decide (k = n)) as [->|Hne].
    + assert (sum_list_with (fun n0 => if decide (n = n0) then 1%nat else 0%nat)
                keys = 0%nat) as ->; [|done].
      clear IH Hnd Hin. induction keys as [|m keys IH]; simpl; [done|].
      apply not_elem_of_cons in Hn as [Hm Hn].
      rewrite decide_False by done. by apply IH.
    + apply elem_of_cons in Hin as [?|Hin]; [done|]. by rewrite IH.
Qed.

Lemma sum_by_source (keys : list string) (l : list TestPair) :
  NoDup keys -> (forall p, p ∈ l -> ID (Source p) ∈ keys) ->
  sum_list_with (fun n => length (filter (fun p => ID (Source p) = n) l)) keys
  = length l.
Proof.
  intros Hnd. induction l as [|p l IH]; intros Hsrc; simpl.
  - clear Hnd Hsrc. induction keys as [|n keys IHk]; simpl; done.
  - rewrite <- IH by (intros q Hq; apply Hsrc; rewrite elem_of_cons; by right).
    pose proof (sum_indicator keys (ID (Source p)) Hnd) as Hone.
    rewrite <- Nat.add_1_l, <- Hone
      by (apply Hsrc; rewrite elem_of_cons; by left).
    clear IH Hnd Hsrc Hone. induction keys as [|n keys IHk]; simpl; [done|].
    rewrite filter_cons.
    destruct (decide (ID (Source p) = n)); simpl; rewrite IHk; lia.
Qed.

Lemma client_tests_total g t :
  pairs_inv g t ->
  sum_list_with length (map_to_list (ClientTests t)).*2 = length (Pairs t).
Proof.
  intros (Hct & Hne & _).
  rewrite <- (sum_by_source (map_to_list (ClientTests t)).*1 (Pairs t)).
  - assert (Forall (fun kv : string * list TestPair =>
                      kv.2 = filter (fun p => ID (Source p) = kv.1) (Pairs t))
              (map_to_list (ClientTests t))) as Hall.
    { apply Forall_forall. intros [n' l'] Hin.
      apply elem_of_map_to_list in Hin. simpl. by rewrite <- Hct, Hin. }
    induction Hall as [|[n' l'] kvs Hx Hall IH]; [done|].
    rewrite !fmap_cons. cbn [sum_list_with]. simpl in Hx.
    by rewrite IH, Hx.
  - apply NoDup_fst_map_to_list.
  - intros p Hp. apply list_elem_of_fmap.
    destruct (ClientTests t !! ID (Source p)) as [l|] eqn:E.
    + exists (ID (Source p), l). split; [done|]. by apply elem_of_map_to_list.
    + specialize (Hct (ID (Source p))). rewrite E in Hct. simpl in Hct.
      assert (p ∈ filter (fun q => ID (Source q) = ID (Source p)) (Pairs t))
        as Hin by (by apply list_elem_of_filter).
      rewrite <- Hct in Hin. by apply elem_of_nil in Hin.
Qed.

(** X17.  For the topology that [GenerateFullMesh] plans for a registry of
    N >= 2 nodes, [GetServerCount] is N and [GetTestCount] is N*(N-1); and
    [GetClientCount], whatever order the map iteration takes, equals
    [GetTestCount] (the pair list being a slice, so that the sum does not
    wrap). *)
Theorem mesh_counts (g : Generator) :
  built (nodes g) -> 2 <= Count (nodes g) ->
  is_slice (GetAllNodes (nodes g)) ->
  exists t,
    GenerateFullMesh g = Ret t /\
    GetServerCount t = Count (nodes g) /\
    GetTestCount t = Count (nodes g) * (Count (nodes g) - 1) /\
    (is_slice (Pairs t) ->
     forall tests, client_order t tests ->
       GetClientCount_in tests t = GetTestCount t).
Proof.
  intros Hb Htwo Hslice. pose proof (built_NoDup _ Hb) as Hnd.
  unfold Count, GoInt.len in Htwo.
  assert (2 <= length (GetAllNodes (nodes g)))%nat as Htwo'
    by (unfold GetAllNodes; lia).
  exists (mesh g). split; [by apply GenerateFullMesh_mesh|]. split_and!.
  - unfold GetServerCount, GoInt.map_len, Count, GoInt.len. f_equal.
    rewrite <- (length_fmap ID), <- size_dom.
    rewrite <- (size_list_to_set (C := gset string) (ID <$> nodeList (nodes g)))
      by done.
    f_equal. apply set_eq. intros id.
    rewrite elem_of_dom, elem_of_list_to_set. split.
    + intros [ports Hp]. destruct (decide (id ∈ ID <$> nodeList (nodes g)));
        [done|]. rewrite (mesh_ServerPorts_None g Hnd id) in Hp; done.
    + intros (n & -> & [k Hk]%list_elem_of_lookup)%list_elem_of_fmap.
      rewrite (mesh_ServerPorts g Hnd k n Hk). by eexists.
  - unfold GetTestCount, GoInt.len, Count, GoInt.len.
    rewrite <- (length_fmap pair_nodes), (mesh_pair_nodes g Hnd).
    unfold GetAllNodes in *. rewrite (ordered_pairs_length _ Hnd). nia.
  - intros Hpairs tests Horder. unfold GetClientCount_in.
    change 0 with (GoInt.wrap64 0). rewrite count_loop.
    unfold client_order in Horder. rewrite Horder.
    rewrite (client_tests_total g (mesh g)) by (by apply mesh_pairs_inv).
    unfold GetTestCount, GoInt.len. unfold is_slice, GoInt.len in Hpairs.
    apply wrap64_small. unfold GoInt.min_int, GoInt.max_int in *. lia.
Qed.

Lemma mesh_counts_witness :
  exists t,
    GenerateFullMesh Scenario.generator3 = Ret t /\
    GetServerCount t = Count (nodes Scenario.generator3) /\
    GetTestCount t =
      Count (nodes Scenario.generator3) * (Count (nodes Scenario.generator3) - 1) /\
    (is_slice (Pairs t) ->
     forall tests, client_order t tests ->
       GetClientCount_in tests t = GetTestCount t).
Proof.
  apply (mesh_counts Scenario.generator3).
  - apply registry3_built.
  - vm_compute. discriminate.
  - vm_compute. discriminate.
Defined.

End TopologyCounts.

Section TestIds.
Import Models Topology.

Lemma all_digits_go x s : all_digits s -> all_digits (pretty_N_go x s).
Proof.
  revert s. induction (N.lt_wf_0 x) as [x _ IH]; intros s Hs.
  destruct (decide (0 < x)%N) as [Hx|Hx].
  - rewrite pretty_N_go_step by done. apply IH; [by apply N.div_lt|].
    simpl. split; [|done]. exists (x `mod` 10)%N. split; [|done].
    by apply N.mod_lt.
  - replace x with 0%N by lia. by rewrite pretty_N_go_0.
Qed.

Lemma all_digits_itoa z : 0 <= z -> all_digits (itoa z).
Proof.
  intros Hz. unfold itoa, pretty, pretty_Z. destruct z as [|x|x]; [| |lia].
  - simpl. split; [|done]. by exists 0%N.
  - unfold pretty, pretty_positive, pretty, pretty_N.
    rewrite decide_False by done. by apply all_digits_go.
Qed.

Lemma digits_end_at_dash s1 s2 x y :
  all_digits s1 -> all_digits s2 ->
  s1 +:+ "-" +:+ x = s2 +:+ "-" +:+ y -> s1 = s2.
Proof.
  revert s2. induction s1 as [|c s1 IH]; intros [|c' s2]; simpl.
  - done.
  - intros _ [(d & Hd & ->) _] [= H _]. symmetry in H.
    by apply digit_not_dash in H.
  - intros [(d & Hd & ->) _] _ [= H _]. by apply digit_not_dash in H.
  - intros [_ H1] [_ H2] [= -> H]. f_equal. by apply IH.
Qed.

Lemma ids_inv_dest g s st d : ids_inv st -> ids_inv (mesh_dest g s st d).
Proof.
  intros [Hk Hids]. unfold mesh_dest. case_bool_decide; [done|].
  unfold ids_inv. simpl. split.
  - rewrite Hk, wrap64_succ, length_app. simpl. f_equal. lia.
  - intros i p Hi. apply lookup_app_Some in Hi as [Hi|[Hge Hi]].
    + by apply Hids.
    + apply list_lookup_singleton_Some in Hi as [Hi <-].
      unfold mesh_test_id. simpl. rewrite Hk, wrap64_succ.
      replace (Z.of_nat (length (Pairs st.1)) + 1) with (Z.of_nat (S i)) by lia.
      done.
Qed.

Lemma ids_inv_pairs g ns : ids_inv (mesh_pairs g ns).
Proof.
  unfold mesh_pairs.
  assert (ids_inv (mkTopology [] ∅ ∅, 0)) as H0.
  { split; [done|]. intros i p. simpl. by rewrite lookup_nil. }
  revert H0. generalize (mkTopology [] ∅ ∅, 0). generalize ns at 1.
  intros ds ss. revert ss. induction ns as [|s ss' IH]; intros st Hst; simpl.
  - done.
  - apply IH. clear IH. revert st Hst.
    induction ds as [|d ds IHd]; intros st Hst; simpl; [done|].
    by apply IHd, ids_inv_dest.
Qed.

(** X18.  The test ids that [GenerateFullMesh] gives the pairs of a
    topology are test-1-<source>-to-<destination>, test-2-..., numbered in
    the order of the pair list, and therefore pairwise distinct: no two
    tests of a run share the id under which their results are stored. *)
Theorem mesh_test_ids_distinct (g : Generator) :
  built (nodes g) -> 2 <= Count (nodes g) ->
  is_slice (GetAllNodes (nodes g)) ->
  exists t,
    GenerateFullMesh g = Ret t /\
    (forall i p, Pairs t !! i = Some p -> TestID p = mesh_test_id i p) /\
    (is_slice (Pairs t) -> NoDup (TestID <$> Pairs t)).
Proof.
  intros Hb Htwo Hslice. pose proof (built_NoDup _ Hb) as Hnd.
  unfold Count, GoInt.len in Htwo.
  assert (2 <= length (GetAllNodes (nodes g)))%nat as Htwo'
    by (unfold GetAllNodes; lia).
  exists (mesh g). split; [by apply GenerateFullMesh_mesh|].
  destruct (ids_inv_pairs g (GetAllNodes (nodes g))) as [_ Hids].
  rewrite <- (mesh_Pairs g Hnd) in Hids. split; [done|].
  intros Hpairs. unfold is_slice, GoInt.len in Hpairs.
  apply NoDup_alt. intros i j x Hi Hj.
  rewrite list_lookup_fmap in Hi, Hj.
  destruct (Pairs (mesh g) !! i) as [p|] eqn:Ei; [|done].
  destruct (Pairs (mesh g) !! j) as [q|] eqn:Ej; [|done].
  simpl in Hi, Hj. assert (TestID q = TestID p) as Hpq by congruence.
  clear Hi Hj. rename Ei into Hi. rename Ej into Hj.
  rewrite (Hids i p Hi), (Hids j q Hj) in Hpq. unfold mesh_test_id in Hpq.
  apply String.app_inj in Hpq.
  apply lookup_lt_Some in Hi. apply lookup_lt_Some in Hj.
  rewrite !wrap64_small in Hpq
    by (unfold GoInt.min_int, GoInt.max_int in *; lia).
  apply digits_end_at_dash in Hpq; [|apply all_digits_itoa; lia..].
  unfold itoa in Hpq. apply pretty_Z_inj in Hpq. lia.
Qed.

Lemma mesh_test_ids_distinct_witness :
  exists t,
    GenerateFullMesh Scenario.generator3 = Ret t /\
    (forall i p, Pairs t !! i = Some p -> TestID p = mesh_test_id i p) /\
    (is_slice (Pairs t) -> NoDup (TestID <$> Pairs t)).
Proof.
  apply (mesh_test_ids_distinct Scenario.generator3).
  - apply registry3_built.
  - vm_compute. discriminate.
  - vm_compute. discriminate.
Defined.

End TestIds.

(** ** Overrides, client targets and the wait of the orchestrator *)

Section OverridesAndTargets.
Import Models Topology Orchestrator.

Lemma override_key_inj s d s' d' :
  no_colon s -> no_colon s' ->
  s +:+ ":" +:+ d = s' +:+ ":" +:+ d' -> s = s' /\ d = d'.
Proof.
  revert s'. induction s as [|c s IH]; intros [|c' s']; simpl.
  - intros _ _ H. change (":" +:+ d = ":" +:+ d') in H.
    apply String.app_inj in H. done.
  - intros _ [Hc _] [= <- _]. done.
  - intros [Hc _] _ [= -> _]. done.
  - intros [_ H1] [_ H2] [= -> H]. destruct (IH s' H1 H2 H) as [-> ->]. done.
Qed.

(** X19.  An override registered by [AddOverride] for a pair of node ids
    applies to exactly that pair, provided the source ids contain no colon
    (the key is the two ids joined by a colon): the pair gets the named
    profile if the profile registry knows the name and silently keeps the
    default profile otherwise, and the profile of every other pair is
    unchanged. *)
Theorem override_applies_to_its_pair g s d name s' d' :
  no_colon s -> no_colon s' ->
  getProfileForPair (AddOverride s d name g) s' d' =
  if decide (s = s' /\ d = d') then
    match GetProfile (registry g) name with
    | Some profile => Some profile
    | None => defaultProfile g
    end
  else getProfileForPair g s' d'.
Proof.
  intros Hs Hs'. unfold getProfileForPair, AddOverride. simpl.
  destruct (decide (s = s' /\ d = d')) as [[<- <-]|Hne].
  - by rewrite lookup_insert_eq.
  - rewrite lookup_insert_ne; [done|].
    intros E. apply Hne. by apply override_key_inj.
Qed.

Lemma override_applies_to_its_pair_witness :
  let g := Scenario.generator3 in
  getProfileForPair (AddOverride "a" "b" "fast" g) "a" "c" =
  if decide ("a" = "a" /\ "b" = "c") then
    match GetProfile (registry g) "fast" with
    | Some profile => Some profile
    | None => defaultProfile g
    end
  else getProfileForPair g "a" "c".
Proof.
  intros g.
  apply (override_applies_to_its_pair g "a" "b" "fast" "a" "c");
    simpl; repeat split; discriminate.
Defined.

Lemma client_targets_bind t l :
  client_targets t l = l ≫= add_target t [].
Proof.
  unfold client_targets.
  assert (forall acc, foldl (add_target t) acc l = acc ++ (l ≫= add_target t []))
    as H.
  { induction l as [|p l IH]; intros acc.
    - simpl. by rewrite app_nil_r.
    - cbn [foldl]. rewrite IH, bind_cons. unfold add_target at 1 3.
      destruct (default [] _); simpl; [done|]. by rewrite <- app_assoc. }
  apply H.
Qed.

(** X20.  In [startClientsPhase] every client is sent to the first server
    port of its destination: for the topology planned by
    [GenerateFullMesh], the targets built for a node are one per pair that
    the node is the source of, in pair order, and the target of a pair whose
    destination is node number k of the registry carries the destination
    port 5201 + k*(N-1), whichever the source; the per-node topology of the
    same pair names the port 5201 + k*(N-1) + i, where i is the position of
    the source among the other nodes. *)
Theorem client_targets_use_first_port (g : Generator) :
  built (nodes g) -> 2 <= Count (nodes g) ->
  is_slice (GetAllNodes (nodes g)) ->
  exists t,
    GenerateFullMesh g = Ret t /\
    (forall id, node_targets t id =
       filter (fun p => ID (Source p) = id) (Pairs t) ≫= add_target t []) /\
    (forall p k, p ∈ Pairs t ->
       GetAllNodes (nodes g) !! k = Some (Destination p) ->
       add_target t [] p =
         [Server.mkClientTarget (TestID p) (IP (Destination p))
            (GoInt.wrap32 (5201 + Z.of_nat k * (Count (nodes g) - 1)))
            (Some (ConvertProfileToProto (Profile p)))]) /\
    (forall p k i, p ∈ Pairs t ->
       GetAllNodes (nodes g) !! k = Some (Destination p) ->
       filter (fun s => ID s <> ID (Destination p)) (GetAllNodes (nodes g)) !! i
         = Some (Source p) ->
       pair_port t p =
         Some (GoInt.wrap32
                 (5201 + Z.of_nat k * (Count (nodes g) - 1) + Z.of_nat i))).
Proof.
  intros Hb Htwo Hslice. pose proof (built_NoDup _ Hb) as Hnd.
  unfold Count, GoInt.len in *.
  assert (2 <= length (GetAllNodes (nodes g)))%nat as Htwo'
    by (unfold GetAllNodes; lia).
  assert (Z.of_nat (length (nodeList (nodes g))) - 1
          = Z.of_nat (length (GetAllNodes (nodes g)) - 1)) as Hn
    by (unfold GetAllNodes in *; lia).
  exists (mesh g). split; [by apply GenerateFullMesh_mesh|]. split_and!.
  - intros id. unfold node_targets. rewrite client_targets_bind.
    by rewrite (pairs_inv_clients g (mesh g) (mesh_pairs_inv g Hnd)).
  - intros p k Hp Hk. unfold add_target.
    rewrite (mesh_ServerPorts g Hnd k _ Hk). simpl. unfold node_block.
    rewrite Hn.
    destruct (length (GetAllNodes (nodes g)) - 1)%nat as [|n] eqn:E; [lia|].
    unfold port_block. simpl. by rewrite Z.add_0_r.
  - intros p k i Hp Hk Hi. rewrite Hn.
    by apply (mesh_pair_port g Hnd Htwo' k (Destination p) i (Source p) p).
Qed.

Lemma client_targets_use_first_port_witness :
  let g := Scenario.generator3 in
  exists t,
    GenerateFullMesh g = Ret t /\
    (forall id, node_targets t id =
       filter (fun p => ID (Source p) = id) (Pairs t) ≫= add_target t []) /\
    (forall p k, p ∈ Pairs t ->
       GetAllNodes (nodes g) !! k = Some (Destination p) ->
       add_target t [] p =
         [Server.mkClientTarget (TestID p) (IP (Destination p))
            (GoInt.wrap32 (5201 + Z.of_nat k * (Count (nodes g) - 1)))
            (Some (ConvertProfileToProto (Profile p)))]) /\
    (forall p k i, p ∈ Pairs t ->
       GetAllNodes (nodes g) !! k = Some (Destination p) ->
       filter (fun s => ID s <> ID (Destination p)) (GetAllNodes (nodes g)) !! i
         = Some (Source p) ->
       pair_port t p =
         Some (GoInt.wrap32
                 (5201 + Z.of_nat k * (Count (nodes g) - 1) + Z.of_nat i))).
Proof.
  intros g. apply (client_targets_use_first_port g).
  - apply registry3_built.
  - vm_compute. discriminate.
  - vm_compute. discriminate.
Defined.

Lemma wait_loop l m :
  Forall (fun p => is_Some (Profile p)) l ->
  exists m', foldl wait_step (Ret m) l = Ret m' /\ m <= m' /\
    Forall (fun p => forall pr, Profile p = Some pr -> Duration pr <= m') l /\
    (m' = m \/ exists p pr, p ∈ l /\ Profile p = Some pr /\ m' = Duration pr).
Proof.
  intros Hall. revert m. induction Hall as [|p l [pr Hpr] Hall IH]; intros m.
  - exists m. simpl. split_and!; [done|lia|constructor|by left].
  - simpl. rewrite Hpr. case_bool_decide as Hgt.
    + destruct (IH (Duration pr)) as (m' & -> & Hle & Hfa & Hor).
      exists m'. split_and!; [done|lia| |].
      * constructor; [|done]. intros pr' E. rewrite Hpr in E.
        injection E as <-. done.
      * right. destruct Hor as [->|(q & qr & Hq & Hqr & ->)].
        -- exists p, pr. rewrite elem_of_cons. auto.
        -- exists q, qr. rewrite elem_of_cons. auto.
    + destruct (IH m) as (m' & -> & Hle & Hfa & Hor).
      exists m'. split_and!; [done|lia| |].
      * constructor; [|done]. intros pr' E. rewrite Hpr in E.
        injection E as <-. lia.
      * destruct Hor as [->|(q & qr & Hq & Hqr & ->)]; [by left|].
        right. exists q, qr. rewrite elem_of_cons. auto.
Qed.

(** X21.  [waitPhase] sleeps ten seconds longer than the longest test:
    when every pair has a profile whose duration is at most 9223372026
    seconds (beyond which the wait, counted in nanoseconds in an int64,
    wraps around), the wait is max(10, longest duration) + 10 seconds,
    hence at least 20 seconds and at least 10 seconds more than the
    duration of every pair, and [time.Sleep] pauses for that long. *)
Theorem wait_covers_every_test t :
  Forall (fun p => exists pr, Profile p = Some pr /\
                     Duration pr <= 9223372026) (Pairs t) ->
  exists w,
    wait_time t = Ret (w * Second) /\ Sleep (w * Second) = w * Second /\
    20 <= w /\
    (forall p pr, p ∈ Pairs t -> Profile p = Some pr -> Duration pr + 10 <= w) /\
    (w = 20 \/ exists p pr, p ∈ Pairs t /\ Profile p = Some pr /\
                 w = Duration pr + 10).
Proof.
  intros Hall.
  assert (Forall (fun p => is_Some (Profile p)) (Pairs t)) as Hsome.
  { eapply Forall_impl; [exact Hall|]. intros p (pr & -> & _). by eexists. }
  destruct (wait_loop (Pairs t) 10 Hsome) as (m & Hm & Hle & Hfa & Hor).
  unfold wait_time. rewrite Hm.
  assert (m <= 9223372026) as Hmax.
  { destruct Hor as [->|(q & qr & Hq & Hqr & ->)].
    - lia.
    - rewrite Forall_forall in Hall.
      destruct (Hall q Hq) as (pr & E & Hd). congruence. }
  exists (m + 10). split_and!.
  - f_equal. unfold GoInt.add.
    rewrite (wrap64_small (m + 10))
      by (unfold GoInt.min_int, GoInt.max_int; lia).
    apply wrap64_small. unfold GoInt.min_int, GoInt.max_int, Second. lia.
  - unfold Sleep, Second. lia.
  - lia.
  - intros p pr Hp Hpr. rewrite Forall_forall in Hfa.
    specialize (Hfa p Hp pr Hpr). lia.
  - destruct Hor as [->|(q & qr & Hq & Hqr & ->)]; [by left|].
    right. by exists q, qr.
Qed.

Lemma wait_covers_every_test_witness :
  let t := mkTopology
             [mkTestPair "test-1-a-to-b" Scenario.node_a Scenario.node_b
                (Some Scenario.default_profile);
              mkTestPair "test-2-b-to-a" Scenario.node_b Scenario.node_a
                (Some Scenario.bidir_profile)] ∅ ∅ in
  exists w,
    wait_time t = Ret (w * Second) /\ Sleep (w * Second) = w * Second /\
    20 <= w /\
    (forall p pr, p ∈ Pairs t -> Profile p = Some pr -> Duration pr + 10 <= w) /\
    (w = 20 \/ exists p pr, p ∈ Pairs t /\ Profile p = Some pr /\
                 w = Duration pr + 10).
Proof.
  intros t. apply (wait_covers_every_test t).
  apply Forall_cons. split.
  { eexists. split; [reflexivity|]. vm_compute. discriminate. }
  apply Forall_cons. split.
  { eexists. split; [reflexivity|]. vm_compute. discriminate. }
  apply Forall_nil_2.
Defined.

End OverridesAndTargets.

(** ** Profiles across the wire *)

Section ProfileConversion.
Import Server.

(** X22.  A profile survives the trip from the controller to the daemon:
    converting a profile to its protobuf message ([ConvertProfileToProto])
    and the message to the daemon's iperf configuration
    ([convertProfileToIperfConfig]) preserves every setting, provided the
    integer settings fit in 32 bits; the protocol arrives as udp exactly
    when the profile's protocol is udp and as tcp otherwise, and a nil
    profile arrives as the all-zero TCP configuration.  (The extra flags of
    a profile have no field in the message and do not arrive.) *)
Theorem profile_survives_the_wire (p : Models.TestProfile) :
  profile_fits p ->
  convertProfileToIperfConfig (Some (Topology.ConvertProfileToProto (Some p)))
    = config_of p /\
  convertProfileToIperfConfig (Some (Topology.ConvertProfileToProto None))
    = mkIperfConfig "tcp" 0 "" "" 0 false false 0 "" 0 false 0 false 0.
Proof.
  intros (H1 & H2 & H3 & H4 & H5 & H6). unfold fits_int32 in *.
  split; [|reflexivity].
  unfold convertProfileToIperfConfig, Topology.ConvertProfileToProto, config_of.
  simpl. rewrite !wrap32_small by done.
  unfold Topology.pb_protocol. by case_bool_decide.
Qed.

Lemma profile_survives_the_wire_witness :
  convertProfileToIperfConfig
    (Some (Topology.ConvertProfileToProto (Some Scenario.default_profile)))
    = config_of Scenario.default_profile /\
  convertProfileToIperfConfig (Some (Topology.ConvertProfileToProto None))
    = mkIperfConfig "tcp" 0 "" "" 0 false false 0 "" 0 false 0 false 0.
Proof.
  apply (profile_survives_the_wire Scenario.default_profile).
  unfold profile_fits, fits_int32. simpl. lia.
Defined.

End ProfileConversion.

(** ** The daemon's GetResults handler *)

Section GetResultsHandler.
Import Server.

Lemma pb_results_loop (l : list Collector.TestResult) :
  foldl (fun pbResults result => pbResults ++ [pb_result result]) [] l
  = pb_result <$> l.
Proof.
  assert (forall acc,
            foldl (fun pbResults result => pbResults ++ [pb_result result]) acc l
            = acc ++ (pb_result <$> l)) as H.
  { induction l as [|r l IH]; intros acc; simpl.
    - by rewrite app_nil_r.
    - by rewrite IH, <- app_assoc. }
  apply H.
Qed.

(** X23.  The daemon's [GetResults] handler, in every state of the
    collector and for every map iteration order: a request that names test
    ids is answered with one result for each named id that has a stored
    result, in request order; a request without ids is answered with all
    [GetCount] results; a result is reported as failed exactly when its
    stored status is "failed" and as completed otherwise.  With
    [clear_after_retrieval] the whole collector is empty afterwards, also of
    results that were not requested; without it the collector is
    unchanged. *)
Theorem GetResults_handler_reports_and_clears dir ks values req :
  let c := Collector.after_calls (Collector.NewCollector dir) ks in
  Collector.value_order c values ->
  let resp := (GetResults_in values req c).1 in
  let c' := (GetResults_in values req c).2 in
  (TestIds req <> [] ->
     Pb.TestId <$> Results resp
       = filter (fun id => Collector.HasResult c id = true) (TestIds req)) /\
  (TestIds req = [] ->
     Pb.TestId <$> Results resp ≡ₚ (map_to_list (Collector.results c)).*1 /\
     GoInt.len (Results resp) = Collector.GetCount c) /\
  (forall r, r ∈ Results resp ->
     exists stored, Collector.GetResult (Pb.TestId r) c = Ret stored /\
       r = pb_result stored /\
       (Pb.Status r = Pb.TEST_STATUS_FAILED <->
          Collector.Status stored = "failed") /\
       (Pb.Status r = Pb.TEST_STATUS_COMPLETED <->
          Collector.Status stored <> "failed")) /\
  TotalCount resp = GoInt.wrap32 (GoInt.len (Results resp)) /\
  (ClearAfterRetrieval req = true ->
     Collector.GetCount c' = 0 /\ Collector.GetCompletedCount c' = 0 /\
     Collector.GetFailedCount c' = 0 /\
     forall id, Collector.HasResult c' id = false) /\
  (ClearAfterRetrieval req = false -> c' = c).
Proof.
  intros c Horder resp c'.
  pose proof (keyed_calls dir ks) as Hk. fold c in Hk.
  unfold resp, c', GetResults_in. simpl. rewrite pb_results_loop.
  unfold Collector.value_order in Horder.
  assert (forall stored,
            (Pb.Status (pb_result stored) = Pb.TEST_STATUS_FAILED <->
               Collector.Status stored = "failed") /\
            (Pb.Status (pb_result stored) = Pb.TEST_STATUS_COMPLETED <->
               Collector.Status stored <> "failed")) as Hstatus.
  { intros stored. unfold pb_result. simpl. case_bool_decide; split; split; done. }
  split_and!.
  - intros Hids. rewrite bool_decide_eq_false_2
      by (unfold GoInt.len; destruct (TestIds req); [done|simpl; lia]).
    rewrite <- list_fmap_compose.
    change (Pb.TestId ∘ pb_result) with Collector.TestID.
    by apply GetResults_ids.
  - intros ->. rewrite bool_decide_eq_true_2 by done.
    unfold Collector.GetAllResults_in. rewrite collect_keys.
    rewrite <- list_fmap_compose.
    change (Pb.TestId ∘ pb_result) with Collector.TestID.
    split.
    + rewrite Horder, <- list_fmap_compose.
      assert (Forall (fun kv => (Collector.TestID ∘ snd) kv = fst kv)
                (map_to_list (Collector.results c))) as Hall.
      { apply Forall_forall. intros [id r] Hin.
        apply elem_of_map_to_list in Hin. simpl. by apply (Hk id r). }
      by rewrite (Forall_fmap_ext_1 _ _ _ Hall).
    + unfold GoInt.len, Collector.GetCount, GoInt.map_len.
      by rewrite length_fmap, Horder, length_fmap, length_map_to_list.
  - intros r Hr. apply list_elem_of_fmap in Hr as (stored & -> & Hin).
    exists stored. split; [|split; [done|apply Hstatus]].
    assert (Collector.results c !! Collector.TestID stored = Some stored) as Hl.
    { case_bool_decide.
      - unfold Collector.GetAllResults_in in Hin. rewrite collect_keys in Hin.
        rewrite Horder in Hin.
        apply list_elem_of_fmap in Hin as ([id r] & -> & Hin).
        apply elem_of_map_to_list in Hin. simpl.
        destruct (Hk id r Hin) as [-> _]. done.
      - rewrite GetResults_omap in Hin.
        apply list_elem_of_omap in Hin as (id & _ & Hid).
        destruct (Hk id stored Hid) as [-> _]. done. }
    unfold Collector.GetResult. simpl. by rewrite Hl.
  - done.
  - intros ->. unfold Collector.ClearAll, Collector.GetCount,
      Collector.HasResult, GoInt.map_len. simpl.
    split_and!; done.
  - by intros ->.
Qed.

Lemma GetResults_handler_reports_and_clears_witness :
  let ok := Some (Collector.mkIperfResult true "{}" 0 "" 0 5 5) in
  let bad := Some (Collector.mkIperfResult false "" 1 "refused" 0 1 1) in
  let ks := [Collector.CallStoreIperfResult "t1" ok;
             Collector.CallStoreIperfResult "t2" bad] in
  let req := mkGetResultsRequest ["t2"; "t9"] true in
  let c := Collector.after_calls (Collector.NewCollector "") ks in
  let values := (map_to_list (Collector.results c)).*2 in
  let resp := (GetResults_in values req c).1 in
  let c' := (GetResults_in values req c).2 in
  (TestIds req <> [] ->
     Pb.TestId <$> Results resp
       = filter (fun id => Collector.HasResult c id = true) (TestIds req)) /\
  (TestIds req = [] ->
     Pb.TestId <$> Results resp ≡ₚ (map_to_list (Collector.results c)).*1 /\
     GoInt.len (Results resp) = Collector.GetCount c) /\
  (forall r, r ∈ Results resp ->
     exists stored, Collector.GetResult (Pb.TestId r) c = Ret stored /\
       r = pb_result stored /\
       (Pb.Status r = Pb.TEST_STATUS_FAILED <->
          Collector.Status stored = "failed") /\
       (Pb.Status r = Pb.TEST_STATUS_COMPLETED <->
          Collector.Status stored <> "failed")) /\
  TotalCount resp = GoInt.wrap32 (GoInt.len (Results resp)) /\
  (ClearAfterRetrieval req = true ->
     Collector.GetCount c' = 0 /\ Collector.GetCompletedCount c' = 0 /\
     Collector.GetFailedCount c' = 0 /\
     forall id, Collector.HasResult c' id = false) /\
  (ClearAfterRetrieval req = false -> c' = c).
Proof.
  intros ok bad ks req c values.
  apply (GetResults_handler_reports_and_clears "" ks values req).
  unfold Collector.value_order. reflexivity.
Defined.

End GetResultsHandler.

(** ** The counts of the summary *)

Section SummaryCounts.
Import Aggregator.

Lemma wrap64_add_l a b : GoInt.add (GoInt.wrap64 a) b = GoInt.wrap64 (a + b).
Proof.
  unfold GoInt.add. rewrite (Z.add_comm (GoInt.wrap64 a)), wrap64_add_r.
  f_equal. lia.
Qed.

Lemma summary_step_counts s tot r :
  let st' := summary_step (s, tot) r in
  TotalTests st'.1 = TotalTests s /\
  CompletedTests st'.1 =
    (if decide (Status r = "TEST_STATUS_COMPLETED")
     then GoInt.add (CompletedTests s) 1 else CompletedTests s) /\
  FailedTests st'.1 =
    (if decide (Status r = "TEST_STATUS_FAILED")
     then GoInt.add (FailedTests s) 1 else FailedTests s) /\
  TotalRetransmits st'.1 =
    (if decide (Status r = "TEST_STATUS_COMPLETED")
     then GoInt.add (TotalRetransmits s) (Retransmits r)
     else TotalRetransmits s).
Proof.
  unfold summary_step.
  case_bool_decide as Hc; [|case_bool_decide as Hf];
    [destruct (PrimFloat.ltb 0 (ThroughputBps r))|..]; simpl;
    repeat (destruct (decide _) as [?|?]; try congruence); done.
Qed.

Lemma counts_loop l s tot c f t :
  CompletedTests s = GoInt.wrap64 c -> FailedTests s = GoInt.wrap64 f ->
  TotalRetransmits s = GoInt.wrap64 t ->
  let st := foldl summary_step (s, tot) l in
  TotalTests st.1 = TotalTests s /\
  CompletedTests st.1 = GoInt.wrap64 (c + GoInt.len (completed l)) /\
  FailedTests st.1 = GoInt.wrap64 (f + GoInt.len (failed l)) /\
  TotalRetransmits st.1 = GoInt.wrap64 (t + retransmit_sum (completed l)).
Proof.
  revert s tot c f t. induction l as [|r l IH]; intros s tot c f t Hc Hf Ht.
  - simpl. unfold GoInt.len. simpl. by rewrite !Z.add_0_r.
  - cbn [foldl]. destruct (summary_step_counts s tot r) as (H0 & H1 & H2 & H3).
    destruct (summary_step (s, tot) r) as [s' tot'] eqn:Hstep. simpl in H0, H1, H2, H3.
    unfold completed, failed in *. rewrite !filter_cons.
    destruct (decide (Status r = "TEST_STATUS_COMPLETED")) as [Hst|Hst];
      destruct (decide (Status r = "TEST_STATUS_FAILED")) as [Hfl|Hfl].
    + rewrite Hst in Hfl. discriminate.
    + destruct (IH s' tot' (c + 1) f (t + Retransmits r)) as (I0 & I1 & I2 & I3).
      { rewrite H1, Hc. apply wrap64_succ. }
      { congruence. }
      { rewrite H3, Ht. apply wrap64_add_l. }
      split; [congruence|].
      split; [rewrite I1; f_equal; unfold GoInt.len; simpl; lia|].
      split; [done|]. rewrite I3. f_equal. simpl. lia.
    + destruct (IH s' tot' c (f + 1) t) as (I0 & I1 & I2 & I3).
      { congruence. }
      { rewrite H2, Hf. apply wrap64_succ. }
      { congruence. }
      split; [congruence|]. split; [done|].
      split; [rewrite I2; f_equal; unfold GoInt.len; simpl; lia|done].
    + destruct (IH s' tot' c f t) as (I0 & I1 & I2 & I3); try congruence.
      split; [congruence|]. done.
Qed.

Lemma retransmit_sum_perm l1 l2 :
  l1 ≡ₚ l2 -> retransmit_sum l1 = retransmit_sum l2.
Proof.
  induction 1 as [|x l l' _ IH|x y l|l l' l'' _ IH1 _ IH2]; simpl;
    [done|by rewrite IH|lia|congruence].
Qed.

Lemma completed_failed_le l :
  GoInt.len (completed l) + GoInt.len (failed l) <= GoInt.len l.
Proof.
  unfold GoInt.len, completed, failed.
  induction l as [|r l IH]; simpl; [done|]. rewrite !filter_cons.
  destruct (decide (Status r = "TEST_STATUS_COMPLETED")) as [Hst|Hst].
  - rewrite (decide_False (P := Status r = "TEST_STATUS_FAILED"))
      by (rewrite Hst; discriminate).
    simpl. lia.
  - destruct (decide (Status r = "TEST_STATUS_FAILED")); simpl; lia.
Qed.

(** X24.  The counts of the summary do not depend on the order in which
    the result map is iterated: for every order, [total_tests] is the
    number of collected results, [completed_tests] the number of those with
    status TEST_STATUS_COMPLETED, [failed_tests] the number with status
    TEST_STATUS_FAILED, so that completed + failed <= total (results with
    any other status are counted in the total only), and
    [total_retransmits] is the sum of the retransmits of the completed
    results (wrapped to 64 bits). *)
Theorem summary_counts_any_order a order :
  result_order a order ->
  GetResultCount a <= GoInt.max_int ->
  let s := GetSummary_in order a in
  TotalTests s = GetResultCount a /\
  CompletedTests s = GoInt.len (completed (collected a)) /\
  FailedTests s = GoInt.len (failed (collected a)) /\
  CompletedTests s + FailedTests s <= TotalTests s /\
  TotalRetransmits s = GoInt.wrap64 (retransmit_sum (completed (collected a))).
Proof.
  intros Horder Hsize s. unfold result_order in Horder. fold (collected a) in Horder.
  unfold s, GetSummary_in.
  match goal with |- context [foldl summary_step (?s0, ?tot0) order] =>
    destruct (counts_loop order s0 tot0 0 0 0) as (H0 & H1 & H2 & H3);
      [done..|];
    destruct (foldl summary_step (s0, tot0) order) as [s1 tot1] end.
  simpl in *.
  assert (GoInt.len (collected a) = GetResultCount a) as Hlen.
  { unfold collected, GoInt.len, GetResultCount, GoInt.map_len.
    by rewrite length_fmap, length_map_to_list. }
  assert (GoInt.len (completed order) = GoInt.len (completed (collected a)))
    as Hc by (unfold GoInt.len, completed; by rewrite Horder).
  assert (GoInt.len (failed order) = GoInt.len (failed (collected a)))
    as Hf by (unfold GoInt.len, failed; by rewrite Horder).
  pose proof (completed_failed_le (collected a)) as Hle.
  assert (0 <= GoInt.len (completed (collected a))) by (unfold GoInt.len; lia).
  assert (0 <= GoInt.len (failed (collected a))) by (unfold GoInt.len; lia).
  rewrite H0, H1, H2, H3, Hc, Hf.
  rewrite !wrap64_small
    by (unfold GoInt.min_int, GoInt.max_int in *; lia).
  unfold GetResultCount in *.
  split_and!; try done; try lia.
  f_equal. rewrite Z.add_0_l. apply retransmit_sum_perm. unfold completed.
  by rewrite Horder.
Qed.

Lemma summary_counts_any_order_witness :
  let r1 := mkTestResult "t1" "a" "b" "TEST_STATUS_COMPLETED" 0 5 5 ""
              100%float 3 in
  let r2 := mkTestResult "t2" "b" "a" "TEST_STATUS_FAILED" 0 1 1 "refused"
              0%float 0 in
  let r3 := mkTestResult "t3" "a" "c" "TEST_STATUS_COMPLETED" 0 5 5 ""
              50%float 4 in
  let a := addResult r3 (addResult r2 (addResult r1 NewAggregator)) in
  let s := GetSummary_in [r3; r1; r2] a in
  TotalTests s = GetResultCount a /\
  CompletedTests s = GoInt.len (completed (collected a)) /\
  FailedTests s = GoInt.len (failed (collected a)) /\
  CompletedTests s + FailedTests s <= TotalTests s /\
  TotalRetransmits s = GoInt.wrap64 (retransmit_sum (completed (collected a))).
Proof.
  intros r1 r2 r3 a.
  apply (summary_counts_any_order a [r3; r1; r2]).
  - unfold result_order. vm_compute.
    first [reflexivity
          | apply perm_swap
          | (etrans; [apply perm_swap|apply perm_skip, perm_swap])
          | (etrans; [apply perm_skip, perm_swap|apply perm_swap])
          | apply perm_skip, perm_swap
          | (etrans; [apply perm_swap|];
             etrans; [apply perm_skip, perm_swap|apply perm_swap]) ].
  - vm_compute. discriminate.
Defined.

End SummaryCounts.

(** ** From the configuration files to the running objects *)

Section DaemonConfiguration.
Import Config.

(** X25.  A daemon whose configuration passes [Validate] always comes
    up: [SetDefaults], which [runDaemon] applies after validation, leaves
    every validated setting as it is (the defaults for the listen port, the
    port range, the process limit, the log level and the result directory
    are never applied to a validated configuration), the configuration is
    still valid afterwards, and [NewDaemonServer] succeeds with an
    allocator over the configured port range with all ports free, an
    accountant with the configured limit of at least one process and none
    used, and an empty collector. *)
Theorem validated_daemon_config_starts (c : DaemonConfig) :
  ValidateDaemon c = None ->
  let d := Daemon c in
  let d' := Daemon (SetDefaultsDaemon c) in
  (ListenPort d' = ListenPort d /\ Range d' = Range d /\
   MaxProcesses d' = MaxProcesses d /\ CPUAffinity d' = CPUAffinity d /\
   LogLevel d' = LogLevel d /\ ResultDir d' = ResultDir d) /\
  ValidateDaemon (SetDefaultsDaemon c) = None /\
  exists srv,
    Main.daemon_server c = Ret srv /\
    Port.GetCapacity (Server.portAllocator srv)
      = End_ (Range d) - Start (Range d) + 1 /\
    Port.GetAvailableCount (Server.portAllocator srv)
      = End_ (Range d) - Start (Range d) + 1 /\
    Process.maxProcesses (Server.capacity srv) = MaxProcesses d /\
    1 <= MaxProcesses d /\
    Process.GetUsedSlots (Server.capacity srv) = 0 /\
    Collector.GetCount (Server.collector srv) = 0.
Proof.
  unfold ValidateDaemon. destruct c as [[lp [st en] mp cpu ll rd tm]]. simpl.
  repeat (case_bool_decide; [done|]).
  destruct (default false (validLogLevels !! ll)) eqn:Hll; [|done]. simpl.
  case_bool_decide as Hrd; [done|]. intros _.
  assert (ll <> "") as Hne.
  { intros ->. vm_compute in Hll. done. }
  unfold or_default, or_default_string.
  rewrite !bool_decide_eq_false_2 by (try done; lia).
  split; [done|]. split.
  { repeat (rewrite bool_decide_eq_false_2 by lia). by rewrite Hll. }
  unfold Main.daemon_server, Server.NewDaemonServer, Main.server_config,
    SetDefaultsDaemon, or_default, or_default_string. simpl.
  rewrite !bool_decide_eq_false_2 by (try done; lia).
  unfold Port.NewAllocator.
  rewrite !bool_decide_eq_false_2 by lia.
  eexists. split; [reflexivity|].
  unfold Port.GetCapacity, Port.GetAvailableCount, GoInt.add, GoInt.sub,
    GoInt.map_len. simpl. rewrite map_size_empty. simpl.
  rewrite Z.sub_0_r.
  rewrite !wrap64_small
    by (rewrite ?wrap64_small; unfold GoInt.min_int, GoInt.max_int; lia).
  split_and!; try done. lia.
Qed.

Lemma validated_daemon_config_starts_witness :
  let c := mkDaemonConfig
             (mkDaemonSettings 50051 (mkPortRange 5201 5400) 200 false "info"
                "./results" (mkTimeoutConfig 0 0 0)) in
  let d := Daemon c in
  let d' := Daemon (SetDefaultsDaemon c) in
  (ListenPort d' = ListenPort d /\ Range d' = Range d /\
   MaxProcesses d' = MaxProcesses d /\ CPUAffinity d' = CPUAffinity d /\
   LogLevel d' = LogLevel d /\ ResultDir d' = ResultDir d) /\
  ValidateDaemon (SetDefaultsDaemon c) = None /\
  exists srv,
    Main.daemon_server c = Ret srv /\
    Port.GetCapacity (Server.portAllocator srv)
      = End_ (Range d) - Start (Range d) + 1 /\
    Port.GetAvailableCount (Server.portAllocator srv)
      = End_ (Range d) - Start (Range d) + 1 /\
    Process.maxProcesses (Server.capacity srv) = MaxProcesses d /\
    1 <= MaxProcesses d /\
    Process.GetUsedSlots (Server.capacity srv) = 0 /\
    Collector.GetCount (Server.collector srv) = 0.
Proof.
  intros c. apply (validated_daemon_config_starts c). reflexivity.
Defined.

End DaemonConfiguration.

Section ControllerConfiguration.
Import Config.

Lemma validate_nodes_ok i seen nodes :
  validate_nodes i seen nodes = None ->
  Forall (fun n => Hostname n <> "" /\ IP n <> "" /\ 1 <= Port n <= 65535) nodes /\
  NoDup (node_id <$> nodes) /\
  (forall n, n ∈ nodes -> default false (seen !! node_id n) = false).
Proof.
  revert i seen. induction nodes as [|n nodes IH]; intros i seen; simpl.
  - intros _. split_and!; [constructor|constructor|].
    intros n Hn. by apply elem_of_nil in Hn.
  - case_bool_decide as Hh; [done|]. case_bool_decide as Hip; [done|].
    case_bool_decide as Hp; [done|].
    destruct (default false (seen !! node_id n)) eqn:Hseen; [done|].
    intros Hrest. destruct (IH _ _ Hrest) as (Hall & Hnd & Hfresh).
    split_and!.
    + constructor; [|done]. split_and!; [done|done|lia|lia].
    + constructor; [|done]. intros Hin.
      apply list_elem_of_fmap in Hin as (m & Hm & Hin).
      specialize (Hfresh m Hin). rewrite <- Hm, lookup_insert_eq in Hfresh. done.
    + intros m Hm. apply elem_of_cons in Hm as [->|Hm]; [done|].
      specialize (Hfresh m Hm).
      destruct (decide (node_id n = node_id m)) as [E|E].
      * rewrite E, lookup_insert_eq in Hfresh. done.
      * by rewrite lookup_insert_ne in Hfresh.
Qed.

Lemma build_nodes_ok (nodes : list NodeConfig) (r : Models.NodeRegistry) :
  Models.built r ->
  Forall (fun n => ID n <> "") nodes ->
  NoDup (ID <$> nodes) ->
  (forall n, n ∈ nodes -> Models.nodes r !! ID n = None) ->
  exists r',
    foldl (fun acc nodeConfig =>
             match acc with
             | Ret registry => Models.AddNode (Main.node_of nodeConfig) registry
             | other => other
             end) (Ret r) nodes = Ret r' /\
    Models.built r' /\
    Models.nodeList r' = Models.nodeList r ++ (Main.node_of <$> nodes).
Proof.
  revert r. induction nodes as [|n nodes IH]; intros r Hb Hne Hnd Hfresh.
  - exists r. simpl. by rewrite app_nil_r.
  - cbn [foldl]. apply Forall_cons in Hne as [Hn Hne].
    apply NoDup_cons in Hnd as [Hnin Hnd].
    assert (Models.AddNode (Main.node_of n) r
            = Ret (Models.mkNodeRegistry
                     (<[ID n := Main.node_of n]> (Models.nodes r))
                     (Models.nodeList r ++ [Main.node_of n]))) as Hadd.
    { unfold Models.AddNode. simpl. rewrite bool_decide_eq_false_2 by done.
      rewrite Hfresh; [done|]. rewrite elem_of_cons. by left. }
    rewrite Hadd.
    destruct (IH (Models.mkNodeRegistry
                    (<[ID n := Main.node_of n]> (Models.nodes r))
                    (Models.nodeList r ++ [Main.node_of n])))
      as (r' & Hfold & Hb' & Hlist).
    + by eapply Models.built_add.
    + done.
    + done.
    + intros m Hm. simpl. rewrite lookup_insert_ne.
      * apply Hfresh. rewrite elem_of_cons. by right.
      * intros E. apply Hnin. rewrite E. apply list_elem_of_fmap. by exists m.
    + exists r'. split; [done|]. split; [done|].
      rewrite Hlist. simpl. by rewrite <- app_assoc.
Qed.

(** X26.  A controller configuration that passes [Validate] always yields
    a node registry: after [SetDefaults] (which for a validated
    configuration only fills each empty node id with the hostname; the
    default port is never applied, a port of 0 being rejected by
    validation), the registry loop of [runTest] adds every node without an
    error, and the registry lists the nodes in configuration order, at
    least two of them, with pairwise distinct non-empty ids. *)
Theorem validated_config_builds_registry order (c : ControllerConfig) :
  ValidateController_in order c = None ->
  let nodes := Nodes (Controller (SetDefaultsController c)) in
  nodes = (fun n => mkNodeConfig (Hostname n) (IP n) (Port n) (node_id n)
                      (Tags n)) <$> Nodes (Controller c) /\
  exists r,
    Main.build_nodes nodes = Ret r /\ Models.built r /\
    Models.GetAllNodes r = Main.node_of <$> nodes /\
    Models.Count r = GoInt.len (Nodes (Controller c)) /\
    2 <= Models.Count r /\
    NoDup (Models.ID <$> Models.GetAllNodes r) /\
    Forall (fun n => Models.ID n <> "") (Models.GetAllNodes r).
Proof.
  unfold ValidateController_in. case_bool_decide as Htwo; [done|].
  destruct (validate_nodes 0 ∅ (Nodes (Controller c))) eqn:Hv; [done|].
  intros _. apply validate_nodes_ok in Hv as (Hall & Hnd & _).
  set (nodes := Nodes (Controller (SetDefaultsController c))).
  assert (nodes = (fun n => mkNodeConfig (Hostname n) (IP n) (Port n)
                              (node_id n) (Tags n)) <$> Nodes (Controller c))
    as Hnodes.
  { unfold nodes. simpl. apply Forall_fmap_ext_1.
    eapply Forall_impl; [exact Hall|]. intros n (Hh & Hip & Hp).
    unfold default_node, or_default, or_default_string, node_id.
    rewrite (bool_decide_eq_false_2 (Port n = 0)) by lia. done. }
  split; [done|].
  assert (ID <$> nodes = node_id <$> Nodes (Controller c)) as Hids.
  { rewrite Hnodes, <- list_fmap_compose. done. }
  destruct (build_nodes_ok nodes Models.NewNodeRegistry) as (r & Hr & Hb & Hlist).
  - constructor.
  - rewrite Hnodes. apply Forall_fmap. eapply Forall_impl; [exact Hall|].
    intros n (Hh & _). simpl. unfold node_id. by case_bool_decide.
  - by rewrite Hids.
  - intros n _. simpl. apply lookup_empty.
  - simpl in Hlist. exists r. unfold Main.build_nodes. split; [done|].
    split; [done|]. unfold Models.GetAllNodes, Models.Count, GoInt.len in *.
    rewrite Hlist. rewrite !length_fmap, Hnodes, length_fmap.
    split_and!; [done|done|lia| |].
    + rewrite <- Hnodes, <- list_fmap_compose.
      change (Models.ID ∘ Main.node_of) with ID. by rewrite Hids.
    + apply Forall_fmap, Forall_fmap.
      eapply Forall_impl; [exact Hall|].
      intros n (Hh & _). simpl. unfold node_id. by case_bool_decide.
Qed.

Lemma validated_config_builds_registry_witness :
  let profile := mkTestProfile 10 "tcp" "" "" 1 false false 0 "" 0 false 0
                   false 0 ∅ in
  let c := mkControllerConfig
             (mkControllerSettings
                [mkNodeConfig "host-a" "10.0.0.1" 50051 "" [];
                 mkNodeConfig "host-b" "10.0.0.2" 50051 "b" ["edge"]]
                (<["default" := profile]> ∅)
                (mkTopologyConfig "full_mesh" "default" [])
                (mkOutputConfig "out.json" "" "" false)
                (mkConcurrencyConfig 0 0 0 0 0)) in
  let nodes := Nodes (Controller (SetDefaultsController c)) in
  nodes = (fun n => mkNodeConfig (Hostname n) (IP n) (Port n) (node_id n)
                      (Tags n)) <$> Nodes (Controller c) /\
  exists r,
    Main.build_nodes nodes = Ret r /\ Models.built r /\
    Models.GetAllNodes r = Main.node_of <$> nodes /\
    Models.Count r = GoInt.len (Nodes (Controller c)) /\
    2 <= Models.Count r /\
    NoDup (Models.ID <$> Models.GetAllNodes r) /\
    Forall (fun n => Models.ID n <> "") (Models.GetAllNodes r).
Proof.
  intros profile c.
  apply (validated_config_builds_registry
           (map_to_list (TestProfiles (Controller c))) c).
  reflexivity.
Defined.

Lemma validate_profiles_ok profiles :
  validate_profiles profiles = None ->
  Forall (fun kv : string * TestProfile =>
            1 <= Duration kv.2 /\ 1 <= Parallel kv.2) profiles.
Proof.
  induction profiles as [|[name p] profiles IH]; simpl; [constructor|].
  unfold validateTestProfile.
  case_bool_decide; [done|]. case_bool_decide; [done|].
  intros Hrest. constructor; [simpl; lia|by apply IH].
Qed.

Lemma build_profiles_loop (profiles : list (string * TestProfile))
    (m : gmap string Models.TestProfile) :
  NoDup profiles.*1 ->
  (forall kv, kv ∈ profiles -> m !! kv.1 = None) ->
  foldl (fun acc (entry : string * TestProfile) =>
           match acc with
           | Ret registry =>
               Main.AddProfile (Main.profile_of entry.1 entry.2) registry
           | other => other
           end) (Ret (Topology.mkProfileRegistry m)) profiles
  = if decide ("" ∈ profiles.*1) then Raise Main.EmptyProfileName
    else Ret (Topology.mkProfileRegistry
                (list_to_map
                   ((fun kv => (kv.1, Main.profile_of kv.1 kv.2)) <$> profiles)
                 ∪ m)).
Proof.
  revert m. induction profiles as [|[name p] profiles IH]; intros m Hnd Hfresh.
  - cbn [foldl fmap list_fmap list_to_map foldr].
    case_decide as Hin; [by apply elem_of_nil in Hin|].
    by rewrite (left_id_L ∅ (∪)).
  - cbn [foldl]. rewrite fmap_cons in Hnd.
    apply NoDup_cons in Hnd as [Hnin Hnd]. simpl in Hnin.
    unfold Main.AddProfile at 2. cbn [Models.Name Main.profile_of fst snd].
    case_bool_decide as Hname.
    + subst name. clear IH. case_decide as Hout.
      * clear. induction profiles as [|kv profiles IH]; [done|]. exact IH.
      * exfalso. apply Hout. apply list_elem_of_fmap. exists ("", p).
        split; [done|apply elem_of_cons; by left].
    + cbn [Topology.profiles].
      assert (m !! name = None) as ->
        by (apply (Hfresh (name, p)), elem_of_cons; by left).
      rewrite IH.
      * clear IH. rewrite !fmap_cons. cbn [fst snd list_to_map foldr].
        repeat case_decide;
          try (exfalso;
               match goal with
               | Hin : "" ∈ ?n :: _, Hout : "" ∉ _ |- _ =>
                   apply elem_of_cons in Hin as [E|E]; [by subst|done]
               | Hin : "" ∈ _, Hout : "" ∉ ?n :: _ |- _ =>
                   apply Hout, elem_of_cons; by right
               end).
        -- done.
        -- f_equal. f_equal. rewrite <- insert_union_r.
           ++ by rewrite insert_union_l.
           ++ apply not_elem_of_list_to_map_1.
              rewrite <- list_fmap_compose. exact Hnin.
      * done.
      * intros kv Hkv. cbn [Topology.profiles]. rewrite lookup_insert_ne.
        -- apply Hfresh. apply elem_of_cons. by right.
        -- intros E. apply Hnin. rewrite E.
           apply list_elem_of_fmap. by exists kv.
Qed.

(** X27.  The profile loop of [runTest] registers every profile of the
    configuration under its name, whatever order the map iteration takes,
    unless the configuration names a profile with the empty string, in
    which case it fails with the empty-name error (a case that [Validate]
    does not reject).  The registered profile carries the settings of the
    configuration but not its extra flags, and for a configuration that
    passed [Validate] every registered profile passes
    [TestProfile.Validate] and the default profile is found. *)
Theorem profile_registry_from_config order (c : ControllerConfig) :
  profile_order c order ->
  let configured := TestProfiles (Controller c) in
  (is_Some (configured !! "") ->
     Main.build_profiles order = Raise Main.EmptyProfileName) /\
  (configured !! "" = None ->
     exists registry,
       Main.build_profiles order = Ret registry /\
       (forall name,
          Main.GetProfile name registry =
            match configured !! name with
            | Some p => Ret (Main.profile_of name p)
            | None => Raise (Main.ProfileNotFound name)
            end) /\
       (forall name p, Main.GetProfile name registry = Ret p ->
          Models.ExtraFlags p = ∅) /\
       (ValidateController_in order c = None ->
          (forall name p, Main.GetProfile name registry = Ret p ->
             Models.Validate p = None) /\
          exists p, Main.GetProfile (DefaultProfile (Topology (Controller c)))
                      registry = Ret p)).
Proof.
  intros Horder configured. unfold profile_order in Horder.
  fold configured in Horder.
  assert (NoDup order.*1) as Hnd
    by (rewrite Horder; apply NoDup_fst_map_to_list).
  assert (forall name p, (name, p) ∈ order <-> configured !! name = Some p)
    as Hin by (intros; rewrite Horder; apply elem_of_map_to_list).
  unfold Main.build_profiles.
  rewrite build_profiles_loop; [|done|intros; apply lookup_empty].
  split.
  - intros [p Hp]. rewrite decide_True; [done|].
    apply list_elem_of_fmap. exists ("", p). split; [done|]. by apply Hin.
  - intros Hnone. rewrite decide_False.
    2:{ intros ([name p] & Hname & Hkv)%list_elem_of_fmap. simpl in Hname.
        subst name. apply Hin in Hkv. congruence. }
    eexists. split; [reflexivity|].
    assert (forall name,
              Main.GetProfile name
                (Topology.mkProfileRegistry
                   (list_to_map
                      ((fun kv => (kv.1, Main.profile_of kv.1 kv.2)) <$> order)
                    ∪ ∅)) =
              match configured !! name with
              | Some p => Ret (Main.profile_of name p)
              | None => Raise (Main.ProfileNotFound name)
              end) as Hget.
    { intros name. unfold Main.GetProfile. cbn [Topology.profiles].
      rewrite (right_id_L ∅ (∪)).
      destruct (configured !! name) as [p|] eqn:Hp.
      - erewrite elem_of_list_to_map_1; [done| |].
        + rewrite <- list_fmap_compose. exact Hnd.
        + apply list_elem_of_fmap. exists (name, p). split; [done|].
          by apply Hin.
      - rewrite not_elem_of_list_to_map_1; [done|].
        rewrite <- list_fmap_compose.
        intros ([name' p] & Hname & Hkv)%list_elem_of_fmap. simpl in Hname.
        subst name'. apply Hin in Hkv. congruence. }
    split; [exact Hget|]. split.
    + intros name p. rewrite Hget. destruct (configured !! name); [|done].
      intros [= <-]. done.
    + intros Hvalid. unfold ValidateController_in in Hvalid.
      case_bool_decide; [done|].
      destruct (validate_nodes _ _ _); [done|].
      case_bool_decide; [done|].
      destruct (validate_profiles order) eqn:Hvp; [done|].
      apply validate_profiles_ok in Hvp. rewrite Forall_forall in Hvp.
      case_bool_decide; [done|].
      destruct (negb _); [done|]. case_bool_decide; [done|].
      fold configured in Hvalid.
      destruct (configured !! DefaultProfile (Topology (Controller c)))
        as [dp|] eqn:Hdp; [|done].
      split.
      * intros name p. rewrite Hget.
        destruct (configured !! name) as [q|] eqn:Hq; [|done].
        intros [= <-]. apply Hin in Hq. destruct (Hvp _ Hq) as [Hd Hpar].
        simpl in Hd, Hpar. unfold Models.Validate. simpl.
        by rewrite !bool_decide_eq_false_2 by lia.
      * rewrite Hget, Hdp. by eexists.
Qed.

Lemma profile_registry_from_config_witness :
  let profile := mkTestProfile 10 "udp" "1G" "" 1 false false 0 "" 0 false 0
                   false 0 (<["--json-stream" := ""]> ∅) in
  let c := mkControllerConfig
             (mkControllerSettings
                [mkNodeConfig "host-a" "10.0.0.1" 50051 "" [];
                 mkNodeConfig "host-b" "10.0.0.2" 50051 "b" ["edge"]]
                (<["default" := profile]> ∅)
                (mkTopologyConfig "full_mesh" "default" [])
                (mkOutputConfig "out.json" "" "" false)
                (mkConcurrencyConfig 0 0 0 0 0)) in
  let order := [("default", profile)] in
  let configured := TestProfiles (Controller c) in
  (is_Some (configured !! "") ->
     Main.build_profiles order = Raise Main.EmptyProfileName) /\
  (configured !! "" = None ->
     exists registry,
       Main.build_profiles order = Ret registry /\
       (forall name,
          Main.GetProfile name registry =
            match configured !! name with
            | Some p => Ret (Main.profile_of name p)
            | None => Raise (Main.ProfileNotFound name)
            end) /\
       (forall name p, Main.GetProfile name registry = Ret p ->
          Models.ExtraFlags p = ∅) /\
       (ValidateController_in order c = None ->
          (forall name p, Main.GetProfile name registry = Ret p ->
             Models.Validate p = None) /\
          exists p, Main.GetProfile (DefaultProfile (Topology (Controller c)))
                      registry = Ret p)).
Proof.
  intros profile c order.
  apply (profile_registry_from_config order c).
  unfold profile_order. simpl. by rewrite insert_empty, map_to_list_singleton.
Defined.

End ControllerConfiguration.

Section IperfCommand.
Import Iperf.

Lemma itoa_not_udp n : "-u" <> Models.itoa n.
Proof.
  intros H. apply (itoa_not_flag n). rewrite <- H.
  unfold Models.tcp_udp_flags. apply elem_of_cons. by left.
Qed.

Lemma udp_in_common_args config args :
  "-u" ∈ common_args config args ->
  "-u" ∈ args \/ "-u" ∈ caller_strings config.
Proof.
  unfold common_args, caller_strings.
  repeat first [rewrite elem_of_append_if | rewrite elem_of_app
               | rewrite elem_of_cons | rewrite elem_of_nil].
  intros H.
  repeat match type of H with
         | _ \/ _ => destruct H as [H|H]
         | _ /\ _ => destruct H as [_ H]
         end;
    try discriminate; try done; auto 10.
Qed.

Lemma udp_in_client_args config :
  "-u" ∈ client_args config -> "-u" ∈ caller_strings config.
Proof.
  unfold client_args, caller_strings.
  repeat first [rewrite elem_of_append_if | rewrite elem_of_app
               | rewrite elem_of_cons | rewrite elem_of_nil].
  intros H.
  repeat match type of H with
         | _ \/ _ => destruct H as [H|H]
         | _ /\ _ => destruct H as [_ H]
         end;
    try discriminate; try done; try (by apply itoa_not_udp in H); auto 10.
Qed.

Lemma common_args_app config args :
  common_args config args =
  args ++ (if bool_decide (WindowSize config = "") then []
           else ["-w"; WindowSize config])
       ++ ["-J"]
       ++ (if bool_decide (ConfigMode config = ModeServer) then ["-1"] else [])
       ++ ExtraArgs config.
Proof.
  unfold common_args, Models.append_if, GoInt.len.
  destruct (ExtraArgs config) as [|x extra]; simpl;
    repeat case_bool_decide; try done; try lia;
    rewrite <- ?app_assoc; simpl; by rewrite ?app_nil_r.
Qed.

Lemma append_if_app cond (args more : list string) :
  Models.append_if cond args more = args ++ (if cond then more else []).
Proof. destruct cond; simpl; [done|by rewrite app_nil_r]. Qed.

Lemma client_args_prefix config :
  exists rest,
    client_args config =
    ["-c"; Host config; "-p"; Models.itoa (Port config)] ++ rest.
Proof.
  unfold client_args. rewrite !append_if_app, <- !app_assoc.
  eexists. simpl. reflexivity.
Qed.

(** X28.  A command that [BuildCommand] builds always asks for JSON
    output and ends with the caller's extra arguments.  In server mode it
    is the port, the optional window size, [-J], the one-off flag [-1] and
    the extra arguments, whatever the client settings of the
    configuration are; apart from the one-off flag, the window size and
    the extra arguments that is the command [RunServer] starts.  In client
    mode it begins with the host and the port.  [BuildCommand] never
    selects UDP: [-u] occurs in the command only if the caller passed it
    as host, bandwidth, congestion control, window size or extra
    argument. *)
Theorem BuildCommand_shape (config : Config) (args : list string) :
  BuildCommand (Some config) = Ret args ->
  "-J" ∈ args /\
  ExtraArgs config `suffix_of` args /\
  (ConfigMode config = ModeServer ->
     args = take 3 (RunServer_args (Port config))
            ++ (if bool_decide (WindowSize config = "") then []
                else ["-w"; WindowSize config])
            ++ ["-J"; "-1"] ++ ExtraArgs config) /\
  (ConfigMode config = ModeClient ->
     Host config <> "" /\
     take 4 args = ["-c"; Host config; "-p"; Models.itoa (Port config)]) /\
  ("-u" ∈ args -> "-u" ∈ caller_strings config).
Proof.
  unfold BuildCommand.
  case_bool_decide as Hserver.
  - intros [= <-].
    pose proof (udp_in_common_args config
                  (([] ++ ["-s"]) ++ ["-p"; Models.itoa (Port config)]))
      as Hudp.
    rewrite common_args_app in *.
    rewrite (bool_decide_eq_true_2 _ Hserver) in *.
    split_and!.
    + rewrite !elem_of_app, !elem_of_cons. auto 10.
    + rewrite !app_assoc. by apply suffix_app_r.
    + intros _. simpl. by rewrite <- ?app_assoc.
    + intros Hclient. rewrite Hserver in Hclient. discriminate.
    + intros [H|H]%Hudp; [|done].
      simpl in H. rewrite !elem_of_cons, elem_of_nil in H.
      destruct H as [H|[H|[H|H]]]; try discriminate; [|done].
      by apply itoa_not_udp in H.
  - case_bool_decide as Hclient; [|done].
    case_bool_decide as Hhost; [done|].
    intros [= <-].
    pose proof (udp_in_common_args config (client_args config)) as Hudp.
    rewrite common_args_app in *.
    rewrite (bool_decide_eq_false_2 _ Hserver) in *.
    split_and!.
    + rewrite !elem_of_app, !elem_of_cons. auto 10.
    + rewrite !app_assoc. by apply suffix_app_r.
    + done.
    + intros _. split; [done|].
      destruct (client_args_prefix config) as [rest ->]. done.
    + intros [H|H]%Hudp; [|done].
      by apply udp_in_client_args.
Qed.

Lemma BuildCommand_shape_witness :
  let config := mkConfig ModeClient 5201 "10.0.0.2" 10 "1G" "" 4 false true
                  0 "" 0 false 0 false 0 ["--forceflush"] in
  let args := ["-c"; "10.0.0.2"; "-p"; "5201"; "-t"; "10"; "-b"; "1G";
               "-P"; "4"; "-R"; "-J"; "--forceflush"] in
  "-J" ∈ args /\
  ExtraArgs config `suffix_of` args /\
  (ConfigMode config = ModeServer ->
     args = take 3 (RunServer_args (Port config))
            ++ (if bool_decide (WindowSize config = "") then []
                else ["-w"; WindowSize config])
            ++ ["-J"; "-1"] ++ ExtraArgs config) /\
  (ConfigMode config = ModeClient ->
     Host config <> "" /\
     take 4 args = ["-c"; Host config; "-p"; Models.itoa (Port config)]) /\
  ("-u" ∈ args -> "-u" ∈ caller_strings config).
Proof.
  intros config args. apply (BuildCommand_shape config args). reflexivity.
Defined.

End IperfCommand.

(** ** Bidirectional profiles on the way to the binary *)

Section BidirectionalPath.
Import Models Topology Scenario.

Lemma bidir_in_client_args config :
  Iperf.Bidirectional config = true -> "--bidir" ∈ Iperf.client_args config.
Proof.
  intros Hb. unfold Iperf.client_args.
  repeat first [rewrite elem_of_app | rewrite elem_of_append_if].
  rewrite Hb, !elem_of_cons. intuition auto.
Qed.

Lemma client_command_bidir target pr :
  Server.Profile target = Some (ConvertProfileToProto (Some pr)) ->
  Bidirectional pr = true ->
  Server.DestinationIp target <> "" ->
  exists args,
    ProcessManager.client_command target = Ret args /\ "--bidir" ∈ args.
Proof.
  intros Hprofile Hb Hip.
  unfold ProcessManager.client_command, Iperf.BuildCommand.
  rewrite Hprofile. cbn [ProcessManager.client_config Iperf.ConfigMode
                         Iperf.Host].
  rewrite (bool_decide_eq_false_2 (Iperf.ModeClient = Iperf.ModeServer))
    by discriminate.
  rewrite (bool_decide_eq_true_2 (Iperf.ModeClient = Iperf.ModeClient))
    by done.
  rewrite (bool_decide_eq_false_2 _ Hip).
  eexists. split; [reflexivity|].
  rewrite common_args_app. apply elem_of_app. left.
  apply bidir_in_client_args. simpl. exact Hb.
Qed.

(** C3 (as amended).  For every registry with N >= 2 nodes and every
    generator over it (whatever the profiles, bidirectional or not), the
    topology planner's full-mesh generation contributes exactly one test
    pair per ordered (source, destination) pair of distinct nodes, with the
    profile resolved for that pair; every generated pair joins two distinct
    registry nodes, so there are N*(N-1) pairs and no additional reverse
    pair.  Bidirectionality reaches the measurement binary as the --bidir
    flag: for a pair whose profile has bidirectional=true (and whose
    destination has an IP), [startClientsPhase] builds one client target,
    carrying the converted profile, and the command that the daemon's
    wrapper builds for that target ([convertProfileToIperfConfig],
    [StartClient], [BuildCommand]) contains --bidir; so does the argv of
    [ToCommandArgs] for such a profile. *)
Theorem full_mesh_one_pair_per_ordered_pair (g : Generator) :
  built (nodes g) ->
  2 <= Count (nodes g) ->
  is_slice (GetAllNodes (nodes g)) ->
  let ns := GetAllNodes (nodes g) in
  exists topo,
    GenerateFullMesh g = Ret topo /\
    (forall s d, s ∈ ns -> d ∈ ns -> ID s <> ID d ->
       exists p,
         filter (fun p => ID (Source p) = ID s /\ ID (Destination p) = ID d)
           (Pairs topo) = [p] /\
         Source p = s /\ Destination p = d /\
         Profile p = getProfileForPair g (ID s) (ID d)) /\
    (forall p, p ∈ Pairs topo ->
       Source p ∈ ns /\ Destination p ∈ ns /\ ID (Source p) <> ID (Destination p)) /\
    GoInt.len (Pairs topo) = GoInt.len ns * (GoInt.len ns - 1) /\
    (forall p pr, p ∈ Pairs topo -> Profile p = Some pr ->
       Bidirectional pr = true -> IP (Destination p) <> "" ->
       exists target args,
         Orchestrator.add_target topo [] p = [target] /\
         Server.TestId target = TestID p /\
         Server.Profile target = Some (ConvertProfileToProto (Some pr)) /\
         ProcessManager.client_command target = Ret args /\
         "--bidir" ∈ args) /\
    (forall pr extra, Bidirectional pr = true -> "--bidir" ∈ ToCommandArgs_in extra pr).
Proof.
  intros Hbuilt Htwo Hslice ns.
  assert (NoDup (ID <$> ns)) as Hnd by (by apply built_NoDup).
  assert (2 <= length ns)%nat as Hlen.
  { unfold Count, GoInt.len in Htwo. change (nodeList (nodes g)) with ns in Htwo. lia. }
  exists (mesh g). split; [by apply GenerateFullMesh_mesh|]. split_and!.
  - intros s d Hs Hd Hne.
    destruct (mesh_pair_unique g Hnd s d Hs Hd Hne) as (p & Hp & Hps & Hpd).
    exists p. split_and!; try done.
    assert (p ∈ filter (fun p => ID (Source p) = ID s /\ ID (Destination p) = ID d)
                  (Pairs (mesh g))) as Hpin by (rewrite Hp; apply elem_of_cons; by left).
    apply list_elem_of_filter in Hpin as [_ Hpin].
    destruct (mesh_pairs_inv g Hnd) as (_ & _ & Hprof).
    rewrite Forall_forall in Hprof. destruct (Hprof p Hpin) as [_ ->].
    by rewrite Hps, Hpd.
  - intros p Hp. by apply mesh_pair_elem.
  - unfold GoInt.len. rewrite <- (length_fmap pair_nodes).
    rewrite (mesh_pair_nodes g Hnd). fold ns. rewrite (ordered_pairs_length ns Hnd). nia.
  - intros p pr Hp Hpr Hb Hip.
    destruct (mesh_pair_elem g Hnd p Hp) as (_ & Hd & _).
    apply list_elem_of_lookup_1 in Hd as [k Hk].
    assert (exists port rest, node_block g k = port :: rest) as (port & rest & Hblock).
    { unfold node_block, port_block. fold ns.
      destruct (length ns - 1)%nat as [|n] eqn:E; [lia|].
      simpl. by eexists _, _. }
    assert (Orchestrator.add_target (mesh g) [] p =
            [Server.mkClientTarget (TestID p) (IP (Destination p)) port
               (Some (ConvertProfileToProto (Some pr)))]) as Htarget.
    { unfold Orchestrator.add_target.
      rewrite (mesh_ServerPorts g Hnd k _ Hk). simpl. rewrite Hblock, Hpr.
      done. }
    destruct (client_command_bidir
                (Server.mkClientTarget (TestID p) (IP (Destination p)) port
                   (Some (ConvertProfileToProto (Some pr)))) pr)
      as (args & Hargs & Hin); [done|done|done|].
    eexists _, args. split; [exact Htarget|]. by split_and!.
  - apply bidir_flag_passed.
Qed.

Lemma full_mesh_one_pair_witness :
  let g := NewGenerator registry3 (mkProfileRegistry ∅) (Some bidir_profile) in
  let ns := GetAllNodes (nodes g) in
  exists topo,
    GenerateFullMesh g = Ret topo /\
    (forall s d, s ∈ ns -> d ∈ ns -> ID s <> ID d ->
       exists p,
         filter (fun p => ID (Source p) = ID s /\ ID (Destination p) = ID d)
           (Pairs topo) = [p] /\
         Source p = s /\ Destination p = d /\
         Profile p = getProfileForPair g (ID s) (ID d)) /\
    (forall p, p ∈ Pairs topo ->
       Source p ∈ ns /\ Destination p ∈ ns /\ ID (Source p) <> ID (Destination p)) /\
    GoInt.len (Pairs topo) = GoInt.len ns * (GoInt.len ns - 1) /\
    (forall p pr, p ∈ Pairs topo -> Profile p = Some pr ->
       Bidirectional pr = true -> IP (Destination p) <> "" ->
       exists target args,
         Orchestrator.add_target topo [] p = [target] /\
         Server.TestId target = TestID p /\
         Server.Profile target = Some (ConvertProfileToProto (Some pr)) /\
         ProcessManager.client_command target = Ret args /\
         "--bidir" ∈ args) /\
    (forall pr extra, Bidirectional pr = true -> "--bidir" ∈ ToCommandArgs_in extra pr).
Proof.
  apply (full_mesh_one_pair_per_ordered_pair
           (NewGenerator registry3 (mkProfileRegistry ∅) (Some bidir_profile))).
  - exact registry3_built.
  - vm_compute. discriminate.
  - vm_compute. discriminate.
Defined.

End BidirectionalPath.
